(** * The mask editor of PromptForge: canvas sizing, history, flood fill, export

    A shallow embedding of the client-side mask editor: the standalone
    [EditPage] and the embedded [ImageEditPanel].  Both components keep a
    display-resolution paint canvas over the image, a bounded undo history of
    full canvas snapshots, and export the painted region as a native-resolution
    alpha mask.  [EditPage] adds a flood-fill "smart select".

    Conventions of the embedding.
    - Typed arrays ([Uint8Array], [Uint8ClampedArray]) are [list Z]; reads out
      of range give [None] (JavaScript [undefined]) and writes out of range
      are dropped, as typed arrays do.
    - JavaScript numbers are an abstract type with the rational each one
      stands for.  Conversions from integers, products and quotients are
      operations of the type, so that they may round; comparisons and
      [Math.floor], [Math.ceil], [Math.round] are exact and are defined on
      the value.  Every number the editor forms is finite.
    - The document's canvas elements live in a store indexed by identity, so
      that two references to one element alias and a created element is new.
    - A handler runs to completion in program order.  A React state setter
      that is called with a value, or with an updater that reads nothing but
      its argument, is taken to act where it is called.  The updater that
      [saveSnapshot] of [EditPage] hands to [setUndoStack] reads the canvas:
      it waits in a queue, and React runs it at the render that follows the
      handler. *)

From Stdlib Require Import ZArith QArith Qround Lia Lqa.
From stdpp Require Import base list gmap strings pretty.

Local Open Scope Z_scope.

(** ** Typed arrays *)

Definition getByte (a : list Z) (i : Z) : option Z :=
  if i <? 0 then None else a !! Z.to_nat i.

Definition setByte (a : list Z) (i v : Z) : list Z :=
  if i <? 0 then a else <[Z.to_nat i := v]> a.

(** [new Uint8Array(n)]: [n] zeroes. *)
Definition newUint8Array (n : Z) : list Z := replicate (Z.to_nat n) 0.

(** [a.slice(-n)]: the last [n] elements, all of [a] when it is shorter. *)
Definition sliceLast {A} (n : nat) (a : list A) : list A :=
  drop (length a - n)%nat a.

(** [a.pop()]: the popped element and the shortened array. *)
Definition pop {A} (a : list A) : option (A * list A) :=
  match last a with
  | Some x => Some (x, removelast a)
  | None => None
  end.

(** A read used as a condition: [0] and [undefined] are falsy. *)
Definition falsy (v : option Z) : bool :=
  match v with
  | Some x => x =? 0
  | None => true
  end.

(** [v === k] on a read. *)
Definition equals (v : option Z) (k : Z) : bool :=
  match v with
  | Some x => x =? k
  | None => false
  end.

(** ** Numbers *)

(** The arithmetic of JavaScript numbers: [value x] is the rational [x]
    stands for, [num z] the number for the integer [z]. *)
Class JSNumber := {
  Number : Type;
  value : Number -> Q;
  num : Z -> Number;
  mul : Number -> Number -> Number;
  div : Number -> Number -> Number
}.

(** The unit roundoff of binary64. *)
Definition roundoff : Q := 1 # 9007199254740992.

(** The standard model of floating-point arithmetic on the non-negative
    numbers the editor forms: integers up to 2^53 are exact, a product and a
    quotient carry a relative error of at most [roundoff]. *)
Class StandardModel (N : JSNumber) : Prop := {
  num_exact : forall z, Z.abs z <= 9007199254740992 -> (value (num z) == inject_Z z)%Q;
  mul_close : forall x y, (0 <= value x -> 0 <= value y ->
    value x * value y * (1 - roundoff) <= value (mul x y) /\
    value (mul x y) <= value x * value y * (1 + roundoff))%Q;
  div_close : forall x y, (0 <= value x -> 0 < value y ->
    value x * (1 - roundoff) <= value (div x y) * value y /\
    value (div x y) * value y <= value x * (1 + roundoff))%Q
}.

(** Exact rational arithmetic. *)
Definition exactNumber : JSNumber :=
  {| Number := Q; value := fun x => x; num := inject_Z; mul := Qmult; div := Qdiv |}.

Section Numbers.

Context {N : JSNumber}.

(** [a > b]. *)
Definition gtb (a b : Number) : bool := negb (Qle_bool (value a) (value b)).

Definition floor (x : Number) : Z := Qfloor (value x).

Definition ceil (x : Number) : Z := Qceiling (value x).

(** [Math.round]: the nearest integer, halves upward. *)
Definition round (x : Number) : Z := Qfloor (value x + (1 # 2))%Q.

(** Truncation toward zero. *)
Definition trunc (x : Number) : Z := Z.quot (Qnum (value x)) (Z.pos (Qden (value x))).

End Numbers.

(** ** Canvas elements and image data *)

(** An [HTMLCanvasElement] with the RGBA bytes of its 2d bitmap, row-major,
    four bytes per pixel.  [context2d] tells whether [getContext("2d")]
    answers a context. *)
Record Canvas := mkCanvas {
  width : Z;
  height : Z;
  context2d : bool;
  bitmap : list Z
}.

Record ImageData := mkImageData {
  img_width : Z;
  img_height : Z;
  data : list Z
}.

(** The decoded source image. *)
Record Image := mkImage {
  naturalWidth : Z;
  naturalHeight : Z;
  pixels : list Z
}.

Inductive DOMException := IndexSizeError.

Definition transparent (w h : Z) : list Z := replicate (Z.to_nat (4 * (w * h))) 0.

(** [document.createElement("canvas")]: 300 by 150, transparent. *)
Definition defaultCanvas : Canvas := mkCanvas 300 150 true (transparent 300 150).

(** The value a canvas dimension takes when a number is assigned to it: the
    number is truncated and wrapped to 32 bits, and a value above
    2147483647 falls back to the default. *)
Definition toDimension {N : JSNumber} (default : Z) (x : Number) : Z :=
  let u := trunc x mod 4294967296 in
  if u <=? 2147483647 then u else default.

(** Assigning a dimension resets the bitmap to transparent black. *)
Definition setWidth {N : JSNumber} (x : Number) (cv : Canvas) : Canvas :=
  let w := toDimension 300 x in
  mkCanvas w (height cv) (context2d cv) (transparent w (height cv)).

Definition setHeight {N : JSNumber} (x : Number) (cv : Canvas) : Canvas :=
  let h := toDimension 150 x in
  mkCanvas (width cv) h (context2d cv) (transparent (width cv) h).

(** [ctx.clearRect(0, 0, canvas.width, canvas.height)]. *)
Definition clearAll (cv : Canvas) : Canvas :=
  mkCanvas (width cv) (height cv) (context2d cv) (transparent (width cv) (height cv)).

(** [ctx.getImageData(0, 0, canvas.width, canvas.height)]: a copy of the whole
    bitmap; the call throws on an empty rectangle. *)
Definition getImageData (cv : Canvas) : DOMException + ImageData :=
  if (width cv =? 0) || (height cv =? 0) then inl IndexSizeError
  else inr (mkImageData (width cv) (height cv) (bitmap cv)).

(** [ctx.putImageData(img, 0, 0)]: every pixel of [img] that falls on the
    canvas replaces the pixel there. *)
Definition putImageData (img : ImageData) (cv : Canvas) : Canvas :=
  mkCanvas (width cv) (height cv) (context2d cv)
    (imap (fun i old =>
             let p := (Z.of_nat i / 4) in
             let x := p mod width cv in
             let y := p / width cv in
             if (x <? img_width img) && (y <? img_height img) then
               match getByte (data img) (4 * (y * img_width img + x) + Z.of_nat i mod 4) with
               | Some v => v
               | None => old
               end
             else old)
          (bitmap cv)).

(** [ctx.fillStyle = "black"; ctx.fillRect(0, 0, canvas.width, canvas.height)]. *)
Definition fillBlack (cv : Canvas) : Canvas :=
  mkCanvas (width cv) (height cv) (context2d cv)
    (imap (fun i _ => if Z.of_nat i mod 4 =? 3 then 255 else 0) (bitmap cv)).

(** ** Display sizing *)

Section Sizing.

Context {N : JSNumber}.

(** The sizing effect of the standalone [EditPage], before the assignment
    to the canvas: [clientW], [clientH] are the container's client size. *)
Definition editPageDisplaySize (naturalW naturalH clientW clientH : Z)
  : Number * Number :=
  let maxW := clientW in
  let maxH := if clientH =? 0 then 600 else clientH in
  let ratio := div (num naturalH) (num naturalW) in
  let displayW := num (Z.min maxW 900) in
  let displayH := mul displayW ratio in
  if gtb displayH (num maxH) then
    let displayH := num maxH in
    let displayW := div displayH ratio in
    (displayW, displayH)
  else (displayW, displayH).

(** The sizing effect of the embedded [ImageEditPanel]. *)
Definition editPanelDisplaySize (naturalW naturalH clientW clientH : Z)
  : Number * Number :=
  let maxW := clientW in
  let maxH := clientH in
  let imgRatio := div (num naturalW) (num naturalH) in
  let displayW := num (Z.min maxW naturalW) in
  let displayH := div displayW imgRatio in
  if gtb displayH (num maxH) then
    let displayH := num maxH in
    let displayW := mul displayH imgRatio in
    (displayW, displayH)
  else (displayW, displayH).

(** The dimensions the canvas takes from a computed display size. *)
Definition canvasSize (d : Number * Number) : Z * Z :=
  (toDimension 300 (fst d), toDimension 150 (snd d)).

End Sizing.

(** ** The editor's state *)

Inductive ToolMode := ToolPaint | ToolMove | ToolSelect.
Inductive PaintMode := PaintErase | PaintRestore.
Inductive SelectMode := Include | Exclude.

(** The updater that [saveSnapshot] hands to [setUndoStack],
    [prev => [...prev.slice(-keep), ctx.getImageData(0, 0, canvas.width, canvas.height)]]:
    the literal [keep] and the canvas element it holds.  It reads the canvas
    when React runs it. *)
Record Updater := mkUpdater {
  updaterKeep : nat;
  updaterCanvas : nat
}.

(** The refs and the React state of the component.  [document] holds the
    canvas elements by identity; a ref is the identity of an element.
    [containerRef] is the client size of the mounted container.
    [undoUpdates] holds the updaters queued on [undoStack] that React has
    not run yet. *)
Record Editor := mkEditor {
  document : gmap nat Canvas;
  canvasRef : option nat;
  selectionCanvasRef : option nat;
  containerRef : option (Z * Z);
  imgRef : option Image;
  naturalSize : Z * Z;
  selectionMaskRef : option (list Z);
  imgLoaded : bool;
  toolMode : ToolMode;
  paintMode : PaintMode;
  brushSize : Z;
  selectMode : SelectMode;
  hasSmartSelection : bool;
  drawing : bool;
  undoStack : list ImageData;
  redoStack : list ImageData;
  undoUpdates : list Updater
}.

Definition setDocument (d : gmap nat Canvas) (st : Editor) : Editor :=
  mkEditor d (canvasRef st) (selectionCanvasRef st) (containerRef st) (imgRef st)
    (naturalSize st) (selectionMaskRef st) (imgLoaded st) (toolMode st) (paintMode st)
    (brushSize st) (selectMode st) (hasSmartSelection st) (drawing st)
    (undoStack st) (redoStack st) (undoUpdates st).

Definition setSelectionMask (m : option (list Z)) (st : Editor) : Editor :=
  mkEditor (document st) (canvasRef st) (selectionCanvasRef st) (containerRef st) (imgRef st)
    (naturalSize st) m (imgLoaded st) (toolMode st) (paintMode st)
    (brushSize st) (selectMode st) (hasSmartSelection st) (drawing st)
    (undoStack st) (redoStack st) (undoUpdates st).

Definition setToolMode (t : ToolMode) (st : Editor) : Editor :=
  mkEditor (document st) (canvasRef st) (selectionCanvasRef st) (containerRef st) (imgRef st)
    (naturalSize st) (selectionMaskRef st) (imgLoaded st) t (paintMode st)
    (brushSize st) (selectMode st) (hasSmartSelection st) (drawing st)
    (undoStack st) (redoStack st) (undoUpdates st).

Definition setPaintMode (p : PaintMode) (st : Editor) : Editor :=
  mkEditor (document st) (canvasRef st) (selectionCanvasRef st) (containerRef st) (imgRef st)
    (naturalSize st) (selectionMaskRef st) (imgLoaded st) (toolMode st) p
    (brushSize st) (selectMode st) (hasSmartSelection st) (drawing st)
    (undoStack st) (redoStack st) (undoUpdates st).

Definition setBrushSize (b : Z) (st : Editor) : Editor :=
  mkEditor (document st) (canvasRef st) (selectionCanvasRef st) (containerRef st) (imgRef st)
    (naturalSize st) (selectionMaskRef st) (imgLoaded st) (toolMode st) (paintMode st)
    b (selectMode st) (hasSmartSelection st) (drawing st)
    (undoStack st) (redoStack st) (undoUpdates st).

Definition setSelectMode (m : SelectMode) (st : Editor) : Editor :=
  mkEditor (document st) (canvasRef st) (selectionCanvasRef st) (containerRef st) (imgRef st)
    (naturalSize st) (selectionMaskRef st) (imgLoaded st) (toolMode st) (paintMode st)
    (brushSize st) m (hasSmartSelection st) (drawing st)
    (undoStack st) (redoStack st) (undoUpdates st).

Definition setHasSmartSelection (b : bool) (st : Editor) : Editor :=
  mkEditor (document st) (canvasRef st) (selectionCanvasRef st) (containerRef st) (imgRef st)
    (naturalSize st) (selectionMaskRef st) (imgLoaded st) (toolMode st) (paintMode st)
    (brushSize st) (selectMode st) b (drawing st)
    (undoStack st) (redoStack st) (undoUpdates st).

Definition setDrawing (b : bool) (st : Editor) : Editor :=
  mkEditor (document st) (canvasRef st) (selectionCanvasRef st) (containerRef st) (imgRef st)
    (naturalSize st) (selectionMaskRef st) (imgLoaded st) (toolMode st) (paintMode st)
    (brushSize st) (selectMode st) (hasSmartSelection st) b
    (undoStack st) (redoStack st) (undoUpdates st).

Definition setUndoStack (u : list ImageData) (st : Editor) : Editor :=
  mkEditor (document st) (canvasRef st) (selectionCanvasRef st) (containerRef st) (imgRef st)
    (naturalSize st) (selectionMaskRef st) (imgLoaded st) (toolMode st) (paintMode st)
    (brushSize st) (selectMode st) (hasSmartSelection st) (drawing st)
    u (redoStack st) (undoUpdates st).

Definition setRedoStack (r : list ImageData) (st : Editor) : Editor :=
  mkEditor (document st) (canvasRef st) (selectionCanvasRef st) (containerRef st) (imgRef st)
    (naturalSize st) (selectionMaskRef st) (imgLoaded st) (toolMode st) (paintMode st)
    (brushSize st) (selectMode st) (hasSmartSelection st) (drawing st)
    (undoStack st) r (undoUpdates st).

Definition setUndoUpdates (q : list Updater) (st : Editor) : Editor :=
  mkEditor (document st) (canvasRef st) (selectionCanvasRef st) (containerRef st) (imgRef st)
    (naturalSize st) (selectionMaskRef st) (imgLoaded st) (toolMode st) (paintMode st)
    (brushSize st) (selectMode st) (hasSmartSelection st) (drawing st)
    (undoStack st) (redoStack st) q.

(** ** Handlers: state passing with DOM exceptions *)

(** How a handler can fail to return: a DOM call throws, or a loop is cut
    off by the iteration budget of the embedding. *)
Inductive Abruption :=
| Thrown (e : DOMException)
| Unfinished.

Inductive Completion (A : Type) :=
| Normal (a : A)
| Abrupt (r : Abruption).

Arguments Normal {A} a.
Arguments Abrupt {A} r.

Definition Handler (A : Type) : Type := Editor -> Completion A * Editor.

#[global] Instance Handler_ret : MRet Handler := fun A a st => (Normal a, st).

#[global] Instance Handler_bind : MBind Handler := fun A B k m st =>
  match m st with
  | (Normal a, st') => k a st'
  | (Abrupt r, st') => (Abrupt r, st')
  end.

Definition get : Handler Editor := fun st => (Normal st, st).

Definition modify (f : Editor -> Editor) : Handler unit := fun st => (Normal tt, f st).

Definition liftDom {A} (r : DOMException + A) : Handler A := fun st =>
  match r with
  | inl e => (Abrupt (Thrown e), st)
  | inr a => (Normal a, st)
  end.

(** [ref.current]: the element the ref holds, [None] for [null]. *)
Definition current (ref : Editor -> option nat) : Handler (option nat) := fun st =>
  match ref st with
  | Some c => if decide (c ∈ dom (document st)) then (Normal (Some c), st) else (Normal None, st)
  | None => (Normal None, st)
  end.

(** The present contents of an element. *)
Definition element (c : nat) : Handler Canvas := fun st =>
  (Normal (default defaultCanvas (document st !! c)), st).

(** A drawing operation on an element. *)
Definition onCanvas (c : nat) (f : Canvas -> Canvas) : Handler unit :=
  modify (fun st => setDocument (alter f c (document st)) st).

(** [document.createElement("canvas")]: an element that no ref holds yet. *)
Definition createCanvas : Handler nat := fun st =>
  let c := fresh (dom (document st)) in
  (Normal c, setDocument (<[c := defaultCanvas]> (document st)) st).

(** ** Flood fill *)

Section FloodFill.

Variables (w h : Z) (data : list Z) (seedR seedG seedB : option Z).

Definition tolerance : Z := 32.

(** [Math.abs(a - b)] on array reads; [None] stands for [NaN]. *)
Definition absDiff (a b : option Z) : option Z :=
  match a, b with
  | Some x, Some y => Some (Z.abs (x - y))
  | _, _ => None
  end.

(** [dr + dg + db > tolerance * 3]; a comparison with [NaN] is false. *)
Definition exceedsTolerance (pos : Z) : bool :=
  let pi := pos * 4 in
  let dr := absDiff (getByte data pi) seedR in
  let dg := absDiff (getByte data (pi + 1)) seedG in
  let db := absDiff (getByte data (pi + 2)) seedB in
  match dr, dg, db with
  | Some r, Some g, Some b => tolerance * 3 <? r + g + b
  | _, _, _ => false
  end.

Definition neighbors (pos : Z) : list Z :=
  let px := Z.rem pos w in
  let py := (pos - px) / w in
  [ if 0 <? px then pos - 1 else -1;
    if px <? w - 1 then pos + 1 else -1;
    if 0 <? py then pos - w else -1;
    if py <? h - 1 then pos + w else -1 ].

(** [!visited[n]]. *)
Definition unvisited (visited : list Z) (n : Z) : bool := falsy (getByte visited n).

(** The body of [for (const n of neighbors)]. *)
Definition pushNeighbor (vs : list Z * list Z) (n : Z) : list Z * list Z :=
  if (0 <=? n) && unvisited (fst vs) n
  then (setByte (fst vs) n 1, n :: snd vs)
  else vs.

(** One turn of the [while] loop on the popped position [pos]. *)
Definition fillStep (pos : Z) (visited stack : list Z) : list Z * list Z :=
  if exceedsTolerance pos then (visited, stack)
  else fold_left pushNeighbor (neighbors pos) (setByte visited pos 2, stack).

(** The [while (stack.length > 0)] loop.  The stack is a list whose head is
    the top.  [popped] only records the positions popped so far, latest
    first.  The loop answers [None] when [fuel] turns do not empty the
    stack. *)
Fixpoint fillLoop (fuel : nat) (visited stack popped : list Z)
  : option (list Z * list Z) :=
  match stack with
  | [] => Some (visited, popped)
  | pos :: stack' =>
    match fuel with
    | O => None
    | S fuel' =>
      let vs := fillStep pos visited stack' in
      fillLoop fuel' (fst vs) (snd vs) (pos :: popped)
    end
  end.

End FloodFill.

(** The fill from the seed [(x0, y0)]: the [visited] array at the end of the
    loop, with the positions popped. *)
Definition floodFill (fuel : nat) (w h : Z) (data : list Z) (x0 y0 : Z)
  : option (list Z * list Z) :=
  let idx := (y0 * w + x0) * 4 in
  let seedR := getByte data idx in
  let seedG := getByte data (idx + 1) in
  let seedB := getByte data (idx + 2) in
  let visited := setByte (newUint8Array (w * h)) (y0 * w + x0) 1 in
  fillLoop w h data seedR seedG seedB fuel visited [x0 + y0 * w] [].

(** The two merge loops over [visited]. *)
Definition mergeFill (mode : SelectMode) (visited mask : list Z) : list Z :=
  match mode with
  | Include =>
    fold_left (fun mask i => if equals (getByte visited i) 2 then setByte mask i 1 else mask)
              (seqZ 0 (Z.of_nat (length visited))) mask
  | Exclude =>
    fold_left (fun mask i => if equals (getByte visited i) 2 then setByte mask i 0 else mask)
              (seqZ 0 (Z.of_nat (length visited))) mask
  end.

(** [mask.some(v => v === 1)]. *)
Definition someSelected (mask : list Z) : bool := existsb (fun v => v =? 1) mask.

(** The loop of the swap-selection button. *)
Definition invertMask (mask : list Z) : list Z :=
  fold_left (fun mask i => setByte mask i (if falsy (getByte mask i) then 1 else 0))
            (seqZ 0 (Z.of_nat (length mask))) mask.

(** ** Mask export: the pixel loops *)

(** [alpha > k] on a read; a comparison with [undefined] is false. *)
Definition above (v : option Z) (k : Z) : bool :=
  match v with
  | Some x => k <? x
  | None => false
  end.

(** The two inner loops: the block of [bw] by [bh] native pixels at
    [(tx, ty)], each coordinate held inside the mask, gets alpha 0. *)
Definition clearBlock (maskW maskH tx ty bw bh : Z) (maskData : list Z) : list Z :=
  fold_left (fun md by_ =>
    fold_left (fun md bx =>
      let fx := Z.min (tx + bx) (maskW - 1) in
      let fy := Z.min (ty + by_) (maskH - 1) in
      let di := (fy * maskW + fx) * 4 in
      setByte md (di + 3) 0)
      (seqZ 0 bw) md)
    (seqZ 0 bh) maskData.

(** The two outer loops over the display pixels. *)
Definition projectMask {N : JSNumber} (canvasW canvasH : Z) (displayData : list Z)
    (maskW maskH : Z) (scaleX scaleY : Number) (maskData : list Z) : list Z :=
  fold_left (fun md dy =>
    fold_left (fun md dx =>
      let si := (dy * canvasW + dx) * 4 in
      let alpha := getByte displayData (si + 3) in
      if above alpha 10 then
        let tx := floor (mul (num dx) scaleX) in
        let ty := floor (mul (num dy) scaleY) in
        let bw := Z.max 1 (ceil scaleX) in
        let bh := Z.max 1 (ceil scaleY) in
        clearBlock maskW maskH tx ty bw bh md
      else md)
      (seqZ 0 canvasW) md)
    (seqZ 0 canvasH) maskData.

(** ** The handlers of the editor *)

Inductive CompositeOperation := SourceOver | DestinationOut.

Record Color := rgba { red : Z; green : Z; blue : Z; opacity : Q }.

Section Handlers.

Context {N : JSNumber}.

(** [keep] is the literal of [prev.slice(-keep)] in [saveSnapshot], 30 in
    [EditPage].  ([ImageEditPanel] has 20, see [Panel.saveSnapshot].) *)
Variable keep : nat.

(** The browser's rasterisers, which the repository does not contain:
    [rasterArc op style x y r w h bitmap] is the bitmap after
    [beginPath(); arc(x, y, r, 0, 2π); fill()] under the composite
    operation and fill style; [drawScaled img w h] is the bitmap of a
    transparent canvas after [drawImage(img, 0, 0, w, h)]; [hatch w h] is
    the stripe pattern filled over [w] by [h]. *)
Variable rasterArc :
  CompositeOperation -> Color -> Number -> Number -> Number -> Z -> Z -> list Z -> list Z.
Variable drawScaled : Image -> Z -> Z -> list Z.
Variable hatch : Z -> Z -> list Z.

Definition fillArc (op : CompositeOperation) (style : Color) (x y r : Number)
    (cv : Canvas) : Canvas :=
  mkCanvas (width cv) (height cv) (context2d cv)
    (rasterArc op style x y r (width cv) (height cv) (bitmap cv)).

Definition drawImage (img : Image) (cv : Canvas) : Canvas :=
  mkCanvas (width cv) (height cv) (context2d cv)
    (drawScaled img (width cv) (height cv)).

(** *** History *)

(** [saveSnapshot] of [EditPage] does not read the canvas: it hands
    [setUndoStack] an updater that does, and React queues the updater.
    ([ImageEditPanel] reads the snapshot first and hands the setter an
    updater that holds it; see [Panel.saveSnapshot].) *)
Definition saveSnapshot : Handler unit :=
  canvas ← current canvasRef;
  match canvas with
  | None => mret tt
  | Some c =>
    cv ← element c;
    if negb (context2d cv) then mret tt else
    modify (fun st => setUndoUpdates (undoUpdates st ++ [mkUpdater keep c]) st);;
    modify (setRedoStack [])
  end.

(** React runs a queued updater on the stack as it is then; the updater
    reads the canvas as it is then, and a throw of [getImageData] is a throw
    of the render. *)
Definition runUpdater (u : Updater) : Handler unit :=
  cv ← element (updaterCanvas u);
  snap ← liftDom (getImageData cv);
  modify (fun st => setUndoStack (sliceLast (updaterKeep u) (undoStack st) ++ [snap]) st).

Fixpoint runUpdaters (q : list Updater) : Handler unit :=
  match q with
  | [] => mret tt
  | u :: q => runUpdater u;; runUpdaters q
  end.

(** The render that follows a handler: the queue is taken and its updaters
    run in order. *)
Definition render : Handler unit :=
  st ← get;
  modify (setUndoUpdates []);;
  runUpdaters (undoUpdates st).

(** An event as React serves it: the handler, then the render, also when
    the handler throws. *)
Definition event {A} (m : Handler A) : Handler unit := fun st =>
  match m st with
  | (Normal _, st') => render st'
  | (Abrupt r, st') => (Abrupt r, snd (render st'))
  end.

Definition undo : Handler unit :=
  canvas ← current canvasRef;
  st ← get;
  match canvas, pop (undoStack st) with
  | Some c, Some (last, prev) =>
    cv ← element c;
    if negb (context2d cv) then mret tt else
    currentState ← liftDom (getImageData cv);
    onCanvas c (putImageData last);;
    modify (setUndoStack prev);;
    modify (fun st => setRedoStack (redoStack st ++ [currentState]) st)
  | _, _ => mret tt
  end.

Definition redo : Handler unit :=
  canvas ← current canvasRef;
  st ← get;
  match canvas, pop (redoStack st) with
  | Some c, Some (top, next) =>
    cv ← element c;
    if negb (context2d cv) then mret tt else
    currentState ← liftDom (getImageData cv);
    onCanvas c (putImageData top);;
    modify (setRedoStack next);;
    modify (fun st => setUndoStack (undoStack st ++ [currentState]) st)
  | _, _ => mret tt
  end.

Definition resetCanvas : Handler unit :=
  canvas ← current canvasRef;
  match canvas with
  | None => mret tt
  | Some c =>
    cv ← element c;
    if negb (context2d cv) then mret tt else
    saveSnapshot;;
    onCanvas c clearAll
  end.

(** *** Selection *)

(** The overlay keeps the stripes where the mask is set and is transparent
    elsewhere. *)
Definition overlay (mask : list Z) (cv : Canvas) : Canvas :=
  mkCanvas (width cv) (height cv) (context2d cv)
    (imap (fun i v => if falsy (getByte mask (Z.of_nat i / 4)) then 0 else v)
          (hatch (width cv) (height cv))).

Definition renderSelectionOverlay : Handler unit :=
  selCanvas ← current selectionCanvasRef;
  st ← get;
  match selCanvas, selectionMaskRef st with
  | Some c, Some mask =>
    cv ← element c;
    if negb (context2d cv) then mret tt else
    onCanvas c (overlay mask)
  | _, _ => mret tt
  end.

Definition floodFillSelect (clickX clickY : Number) : Handler unit :=
  canvas ← current canvasRef;
  st ← get;
  match imgRef st, canvas with
  | Some img, Some c =>
    cv ← element c;
    let w := width cv in
    let h := height cv in
    tmpCanvas ← createCanvas;
    onCanvas tmpCanvas (setWidth (num w));;
    onCanvas tmpCanvas (setHeight (num h));;
    onCanvas tmpCanvas (drawImage img);;
    tmp ← element tmpCanvas;
    imgData ← liftDom (getImageData tmp);
    let x0 := round clickX in
    let y0 := round clickY in
    if (x0 <? 0) || (w <=? x0) || (y0 <? 0) || (h <=? y0) then mret tt else
    match floodFill (Z.to_nat (w * h)) w h (data imgData) x0 y0 with
    | None => fun st => (Abrupt Unfinished, st)
    | Some (visited, _) =>
      st ← get;
      let mask :=
        match selectionMaskRef st with
        | Some mask => mask
        | None => newUint8Array (w * h)
        end in
      let mask := mergeFill (selectMode st) visited mask in
      modify (setSelectionMask (Some mask));;
      modify (setHasSmartSelection (someSelected mask));;
      renderSelectionOverlay
    end
  | _, _ => mret tt
  end.

(** The swap-selection button. *)
Definition swapSelection : Handler unit :=
  st ← get;
  match selectionMaskRef st with
  | None => mret tt
  | Some mask =>
    let mask := invertMask mask in
    modify (setSelectionMask (Some mask));;
    modify (setHasSmartSelection (someSelected mask));;
    renderSelectionOverlay
  end.

(** The erase-selection button. *)
Definition eraseSelection : Handler unit :=
  modify (setSelectionMask None);;
  modify (setHasSmartSelection false);;
  selCanvas ← current selectionCanvasRef;
  match selCanvas with
  | Some c =>
    cv ← element c;
    if negb (context2d cv) then mret tt else onCanvas c clearAll
  | None => mret tt
  end.

(** *** Painting *)

Definition marker : Color := rgba 255 50 50 (1 # 2)%Q.
Definition black : Color := rgba 0 0 0 1%Q.

Definition draw (x y : Number) : Handler unit :=
  st ← get;
  match toolMode st with
  | ToolPaint =>
    canvas ← current canvasRef;
    match canvas with
    | None => mret tt
    | Some c =>
      cv ← element c;
      if negb (context2d cv) then mret tt else
      match paintMode st with
      | PaintErase =>
        onCanvas c (fillArc SourceOver marker x y (div (num (brushSize st)) (num 2)))
      | PaintRestore =>
        onCanvas c (fillArc DestinationOut black x y (div (num (brushSize st)) (num 2)))
      end
    end
  | _ => mret tt
  end.

(** The pointer handlers take the position [getPos] computes, relative to
    the canvas. *)
Definition onPointerDown (x y : Number) : Handler unit :=
  st ← get;
  match toolMode st with
  | ToolSelect => floodFillSelect x y
  | ToolPaint =>
    saveSnapshot;;
    modify (setDrawing true);;
    draw x y
  | ToolMove => mret tt
  end.

Definition onPointerMove (x y : Number) : Handler unit :=
  st ← get;
  match drawing st, toolMode st with
  | true, ToolPaint => draw x y
  | _, _ => mret tt
  end.

Definition onPointerUp : Handler unit := modify (setDrawing false).

Definition onTouchStart (x y : Number) : Handler unit :=
  st ← get;
  match toolMode st with
  | ToolPaint =>
    saveSnapshot;;
    modify (setDrawing true);;
    draw x y
  | _ => mret tt
  end.

Definition onTouchMove (x y : Number) : Handler unit :=
  st ← get;
  match toolMode st, drawing st with
  | ToolPaint, true => draw x y
  | _, _ => mret tt
  end.

Definition onTouchEnd : Handler unit := modify (setDrawing false).

(** A stroke: the events of a pointer down at the first position, of moves
    along the path, and of a pointer up. *)
Record Stroke := mkStroke {
  start : Number * Number;
  path : list (Number * Number)
}.

Fixpoint moves (ps : list (Number * Number)) : Handler unit :=
  match ps with
  | [] => mret tt
  | p :: ps => event (onPointerMove (fst p) (snd p));; moves ps
  end.

Definition stroke (s : Stroke) : Handler unit :=
  event (onPointerDown (fst (start s)) (snd (start s)));;
  moves (path s);;
  event onPointerUp.

Fixpoint strokes (ss : list Stroke) : Handler unit :=
  match ss with
  | [] => mret tt
  | s :: ss => stroke s;; strokes ss
  end.

Fixpoint times (n : nat) (m : Handler unit) : Handler unit :=
  match n with
  | O => mret tt
  | S n => m;; times n m
  end.

(** *** Surface allocation *)

(** The sizing effect of [EditPage], run when the image has loaded. *)
Definition allocateSurfaces : Handler unit :=
  canvas ← current canvasRef;
  st ← get;
  match imgLoaded st, canvas, containerRef st with
  | true, Some c, Some (clientW, clientH) =>
    let d := editPageDisplaySize (fst (naturalSize st)) (snd (naturalSize st))
                                 clientW clientH in
    onCanvas c (setWidth (fst d));;
    onCanvas c (setHeight (snd d));;
    cv ← element c;
    (if context2d cv then onCanvas c clearAll else mret tt);;
    selCanvas ← current selectionCanvasRef;
    match selCanvas with
    | Some sc =>
      onCanvas sc (setWidth (fst d));;
      onCanvas sc (setHeight (snd d));;
      scv ← element sc;
      if context2d scv then onCanvas sc clearAll else mret tt
    | None => mret tt
    end;;
    modify (setSelectionMask None);;
    modify (setHasSmartSelection false)
  | _, _, _ => mret tt
  end.

(** *** Mask export *)

(** [exportMask] answers the PNG of the mask canvas, here its decoded
    content, or [None] for [null]. *)
Definition exportMask : Handler (option ImageData) :=
  canvas ← current canvasRef;
  match canvas with
  | None => mret None
  | Some c =>
    cv ← element c;
    if negb (context2d cv) then mret None else
    st ← get;
    maskCanvas ← createCanvas;
    onCanvas maskCanvas (setWidth (num (fst (naturalSize st))));;
    onCanvas maskCanvas (setHeight (num (snd (naturalSize st))));;
    mask ← element maskCanvas;
    if negb (context2d mask) then mret None else
    onCanvas maskCanvas fillBlack;;
    mask ← element maskCanvas;
    display ← element c;
    let scaleX := div (num (fst (naturalSize st))) (num (width display)) in
    let scaleY := div (num (snd (naturalSize st))) (num (height display)) in
    displayData ← liftDom (getImageData display);
    maskData ← liftDom (getImageData mask);
    let maskData' :=
      projectMask (width display) (height display) (data displayData)
                  (width mask) (height mask) scaleX scaleY (data maskData) in
    onCanvas maskCanvas
      (putImageData (mkImageData (img_width maskData) (img_height maskData) maskData'));;
    mask ← element maskCanvas;
    mret (Some (mkImageData (width mask) (height mask) (bitmap mask)))
  end.

End Handlers.

(** * Specification vocabulary *)

(** ** Display sizing *)

(** A canvas of [cw] by [ch] keeps the aspect of an image of [W] by [H]
    within one pixel: [ch] is within 1 of [cw * H / W], or [cw] is within 1
    of [ch * W / H]. *)
Definition withinOnePixel (W H cw ch : Z) : Prop :=
  Z.abs (ch * W - cw * H) <= W \/ Z.abs (cw * H - ch * W) <= H.

(** The canvas size fits the container and keeps the aspect of the image. *)
Definition aspectLocked (W H maxW maxH : Z) (size : Z * Z) : Prop :=
  fst size <= maxW /\ snd size <= maxH /\ withinOnePixel W H (fst size) (snd size).

(** ** Reading a run *)

(** The state a handler leaves. *)
Definition run {A} (m : Handler A) (st : Editor) : Editor := snd (m st).

(** The pixels of the element [c]. *)
Definition pixelsOf (c : nat) (st : Editor) : list Z :=
  bitmap (default defaultCanvas (document st !! c)).

(** An image data object of the canvas size [w] by [h]. *)
Definition fits (w h : Z) (img : ImageData) : Prop :=
  img_width img = w /\ img_height img = h /\
  length (data img) = Z.to_nat (4 * (w * h)).

(** The paint surface [c] is allocated at [w] by [h], the history holds
    snapshots of that size, and the component has rendered: no updater
    waits. *)
Record Ready (w h : Z) (c : nat) (st : Editor) : Prop := {
  ready_ref : canvasRef st = Some c;
  ready_canvas : exists bm, document st !! c = Some (mkCanvas w h true bm) /\
                            length bm = Z.to_nat (4 * (w * h));
  ready_width : 0 < w;
  ready_height : 0 < h;
  ready_undo : Forall (fits w h) (undoStack st);
  ready_redo : Forall (fits w h) (redoStack st);
  ready_rendered : undoUpdates st = []
}.

(** ** What the export loops write *)

(** The indices of the alpha bytes the block loops clear. *)
Definition blockWrites (maskW maskH tx ty bw bh : Z) : list Z :=
  by_ ← seqZ 0 bh;
  (fun bx => (Z.min (ty + by_) (maskH - 1) * maskW + Z.min (tx + bx) (maskW - 1)) * 4 + 3)
    <$> seqZ 0 bw.

(** The indices the whole export clears. *)
Definition maskWrites {N : JSNumber} (canvasW canvasH : Z) (displayData : list Z)
    (maskW maskH : Z) (scaleX scaleY : Number) : list Z :=
  dy ← seqZ 0 canvasH;
  dx ← seqZ 0 canvasW;
  if above (getByte displayData ((dy * canvasW + dx) * 4 + 3)) 10
  then blockWrites maskW maskH (floor (mul (num dx) scaleX)) (floor (mul (num dy) scaleY))
                   (Z.max 1 (ceil scaleX)) (Z.max 1 (ceil scaleY))
  else [].

(** The bitmap of a canvas filled with opaque black. *)
Definition opaqueBlack (w h : Z) : list Z :=
  bitmap (fillBlack (mkCanvas w h true (transparent w h))).

(** The alpha byte of the pixel [(x, y)]. *)
Definition alphaAt (img : ImageData) (x y : Z) : option Z :=
  getByte (data img) ((y * img_width img + x) * 4 + 3).

(** The display pixel [(dx, dy)] of the paint canvas carries paint. *)
Definition paintedAt (cv : Canvas) (dx dy : Z) : Prop :=
  0 <= dx < width cv /\ 0 <= dy < height cv /\
  above (getByte (bitmap cv) ((dy * width cv + dx) * 4 + 3)) 10 = true.

(** The native pixel [(fx, fy)] lies in the block of the display pixel
    [(dx, dy)]: the block starts at [(floor (dx * scaleX), floor (dy * scaleY))],
    is [max 1 (ceil scaleX)] wide and [max 1 (ceil scaleY)] high, and each
    coordinate is held inside the mask. *)
Definition inBlock {N : JSNumber} (cv : Canvas) (natW natH dx dy fx fy : Z) : Prop :=
  let scaleX := div (num natW) (num (width cv)) in
  let scaleY := div (num natH) (num (height cv)) in
  exists bx by_,
    0 <= bx < Z.max 1 (ceil scaleX) /\ 0 <= by_ < Z.max 1 (ceil scaleY) /\
    fx = Z.min (floor (mul (num dx) scaleX) + bx) (natW - 1) /\
    fy = Z.min (floor (mul (num dy) scaleY) + by_) (natH - 1).

(** The native pixel lies in the block of some painted display pixel. *)
Definition cleared {N : JSNumber} (cv : Canvas) (natW natH fx fy : Z) : Prop :=
  exists dx dy, paintedAt cv dx dy /\ inBlock cv natW natH dx dy fx fy.

(** The pixels [exportMask] answers for the paint canvas [cv] and the image
    size [natW] by [natH]. *)
Definition maskPixels {N : JSNumber} (cv : Canvas) (natW natH : Z) : list Z :=
  projectMask (width cv) (height cv) (bitmap cv) natW natH
    (div (num natW) (num (width cv))) (div (num natH) (num (height cv)))
    (opaqueBlack natW natH).

(** ** The invariant of the fill loop *)

Section FillInvariant.

Variables (w h : Z) (data : list Z) (seedR seedG seedB : option Z) (seed : Z).

(** What the loop keeps true of [visited], the stack and the positions
    popped so far: the marked positions are those on the stack (marked 1)
    and those popped (2 when within tolerance, 1 otherwise), no position
    occurs twice, the neighbours of a popped position within tolerance are
    marked, and every marked position but the seed was reached from one. *)
Record FillInv (visited stack popped : list Z) : Prop := {
  inv_length : length visited = Z.to_nat (w * h);
  inv_range : forall p, p ∈ stack ++ popped -> 0 <= p < w * h;
  inv_nodup : NoDup (stack ++ popped);
  inv_stack : forall p, p ∈ stack -> getByte visited p = Some 1;
  inv_rest : forall p, 0 <= p < w * h -> p ∉ stack ++ popped -> getByte visited p = Some 0;
  inv_popped : forall p, p ∈ popped ->
    getByte visited p =
      Some (if exceedsTolerance data seedR seedG seedB p then 1 else 2);
  inv_neighbors : forall p n, p ∈ popped ->
    exceedsTolerance data seedR seedG seedB p = false ->
    n ∈ neighbors w h p -> 0 <= n -> n ∈ stack ++ popped;
  inv_reached : forall p, p ∈ stack ++ popped ->
    p = seed \/
    exists q, q ∈ popped /\ exceedsTolerance data seedR seedG seedB q = false /\
              p ∈ neighbors w h q;
  inv_seed : seed ∈ stack ++ popped
}.

(** The core of the invariant, for the loop over the neighbours. *)
Record PushInv (popped visited stack : list Z) : Prop := {
  push_length : length visited = Z.to_nat (w * h);
  push_range : forall p, p ∈ stack ++ popped -> 0 <= p < w * h;
  push_nodup : NoDup (stack ++ popped);
  push_stack : forall p, p ∈ stack -> getByte visited p = Some 1;
  push_rest : forall p, 0 <= p < w * h -> p ∉ stack ++ popped -> getByte visited p = Some 0;
  push_popped : forall p, p ∈ popped ->
    getByte visited p = Some (if exceedsTolerance data seedR seedG seedB p then 1 else 2)
}.

End FillInvariant.

(** ** The fill region *)

(** Two positions of a row-major grid of width [w] that are next to each
    other in a row or in a column. *)
Definition adjacent4 (w p q : Z) : Prop :=
  (p / w = q / w /\ Z.abs (p mod w - q mod w) = 1) \/
  (p mod w = q mod w /\ Z.abs (p / w - q / w) = 1).

(** The sum of the absolute channel differences between the pixels at the
    positions [p] and [q]. *)
Definition colorDistance (data : list Z) (p q : Z) : option Z :=
  match absDiff (getByte data (p * 4)) (getByte data (q * 4)),
        absDiff (getByte data (p * 4 + 1)) (getByte data (q * 4 + 1)),
        absDiff (getByte data (p * 4 + 2)) (getByte data (q * 4 + 2)) with
  | Some r, Some g, Some b => Some (r + g + b)
  | _, _, _ => None
  end.

(** The position is in the fill region: [visited[p] === 2]. *)
Definition inRegion (visited : list Z) (p : Z) : Prop := getByte visited p = Some 2.

(** ** The selection mask *)

(** The bit a merge writes. *)
Definition mergeBit (mode : SelectMode) : Z :=
  match mode with
  | Include => 1
  | Exclude => 0
  end.

(** No pixel is selected: the mask is absent or holds no 1. *)
Definition nothingSelected (st : Editor) : Prop :=
  match selectionMaskRef st with
  | Some mask => someSelected mask = false
  | None => True
  end.

(** The mask a fill merges into: the present one, or a new one. *)
Definition maskOrNew (st : Editor) (w h : Z) : list Z :=
  match selectionMaskRef st with
  | Some mask => mask
  | None => newUint8Array (w * h)
  end.

(** ** Projections *)

(** The native column [fx] meets the projection of the display column [dx]:
    the interval [fx, fx + 1) meets [dx * natW / cw, (dx + 1) * natW / cw). *)
Definition meetsProjection (natW cw dx fx : Z) : Prop :=
  dx * natW < (fx + 1) * cw /\ fx * cw < (dx + 1) * natW.

(** The transparent region of [art] contains the projection of every painted
    display pixel of [cv]. *)
Definition coversProjections (cv : Canvas) (natW natH : Z) (art : ImageData) : Prop :=
  forall dx dy fx fy,
    paintedAt cv dx dy -> 0 <= fx < natW -> 0 <= fy < natH ->
    meetsProjection natW (width cv) dx fx -> meetsProjection natH (height cv) dy fy ->
    alphaAt art fx fy = Some 0.

(** ** Samples to run the handlers on *)

(** A brush of one pixel: it marks, or clears, the pixel under the pointer. *)
Definition dotBrush (op : CompositeOperation) (style : Color) (x y r : Q) (w h : Z)
    (bm : list Z) : list Z :=
  let px := Qfloor x in
  let py := Qfloor y in
  if (0 <=? px) && (px <? w) && (0 <=? py) && (py <? h) then
    let i := (py * w + px) * 4 in
    match op with
    | SourceOver =>
      setByte (setByte (setByte (setByte bm i (red style)) (i + 1) (green style))
                       (i + 2) (blue style))
              (i + 3) (Qfloor (255 * opacity style + (1 # 2))%Q)
    | DestinationOut =>
      setByte (setByte (setByte (setByte bm i 0) (i + 1) 0) (i + 2) 0) (i + 3) 0
    end
  else bm.

(** An image drawn pixel for pixel, for a canvas of the image's size. *)
Definition drawUnscaled (img : Image) (w h : Z) : list Z := pixels img.

(** Stripes of one colour. *)
Definition plainHatch (w h : Z) : list Z := replicate (Z.to_nat (4 * (w * h))) 255.

(** An editor on an image of [natW] by [natH] with the paint canvas (element
    0, of [w] by [h] with the pixels [bm]) and the selection canvas (element
    1) mounted, the paint tool chosen and no history. *)
Definition sampleEditor (w h natW natH : Z) (bm : list Z) (img : Image) : Editor :=
  mkEditor (<[0%nat := mkCanvas w h true bm]>
              (<[1%nat := mkCanvas w h true (transparent w h)]> ∅))
    (Some 0%nat) (Some 1%nat) (Some (w, h)) (Some img) (natW, natH) None true
    ToolPaint PaintErase 1 Include false false [] [] [].

(** The editor before an image is loaded: nothing is mounted. *)
Definition emptyEditor : Editor :=
  mkEditor ∅ None None None None (0, 0) None false
    ToolPaint PaintErase 78 Include false false [] [] [].

(** One opaque black pixel. *)
Definition onePixel : Image := mkImage 1 1 [0; 0; 0; 255].

(** A stroke that is a single stamp at the origin. *)
Definition tap : Stroke (N := exactNumber) := mkStroke (N := exactNumber) (0%Q, 0%Q) [].

(** Two pixels in a row whose colours are 96 apart. *)
Definition twoPixels : Image := mkImage 2 1 [10; 20; 30; 255; 42; 52; 62; 255].

(** A row of ten display pixels of which the fourth carries paint. *)
Definition paintedRow : list Z :=
  transparent 3 1 ++ [255; 50; 50; 128] ++ transparent 6 1.

(** * Vocabulary of the further properties *)

(** ** Editing sessions *)

(** What the user does to the paint surface: a stroke, the undo and redo
    buttons (or their shortcuts), the reset button.  Each is served as an
    event. *)
Inductive Gesture {N : JSNumber} :=
| Paint (s : Stroke)
| Undo
| Redo
| Reset.

Section Sessions.

Context {N : JSNumber}.
Variable keep : nat.
Variable rasterArc :
  CompositeOperation -> Color -> Number -> Number -> Number -> Z -> Z -> list Z -> list Z.
Variable drawScaled : Image -> Z -> Z -> list Z.
Variable hatch : Z -> Z -> list Z.

Definition perform (g : Gesture) : Handler unit :=
  match g with
  | Paint s => stroke keep rasterArc drawScaled hatch s
  | Undo => event undo
  | Redo => event redo
  | Reset => event (resetCanvas keep)
  end.

Fixpoint session (gs : list Gesture) : Handler unit :=
  match gs with
  | [] => mret tt
  | g :: gs => perform g;; session gs
  end.

End Sessions.

(** ** Connected components *)

(** The pixels at [p] and [q] are within the tolerance of each other. *)
Definition similar (data : list Z) (p q : Z) : Prop :=
  exists d, colorDistance data p q = Some d /\ d <= 96.

(** The component of the seed: the positions of the canvas joined to it
    by a path of positions next to each other in a row or a column, each
    similar to the seed. *)
Inductive Connected (w h : Z) (data : list Z) (seed : Z) : Z -> Prop :=
| connected_seed : Connected w h data seed seed
| connected_step p n :
    Connected w h data seed p -> adjacent4 w p n -> 0 <= n < w * h ->
    similar data n seed -> Connected w h data seed n.

(** ** Frames *)

(** [st'] differs from [st] at most in the selection: the mask, the flag,
    the pixels of the selection canvas and elements that are new to the
    document. *)
Record SelectFrame (st st' : Editor) : Prop := {
  select_others : forall c, c ∈ dom (document st) -> selectionCanvasRef st <> Some c ->
    document st' !! c = document st !! c;
  select_dom : dom (document st) ⊆ dom (document st');
  select_canvasRef : canvasRef st' = canvasRef st;
  select_selectionCanvasRef : selectionCanvasRef st' = selectionCanvasRef st;
  select_containerRef : containerRef st' = containerRef st;
  select_imgRef : imgRef st' = imgRef st;
  select_naturalSize : naturalSize st' = naturalSize st;
  select_imgLoaded : imgLoaded st' = imgLoaded st;
  select_toolMode : toolMode st' = toolMode st;
  select_paintMode : paintMode st' = paintMode st;
  select_brushSize : brushSize st' = brushSize st;
  select_selectMode : selectMode st' = selectMode st;
  select_drawing : drawing st' = drawing st;
  select_undoStack : undoStack st' = undoStack st;
  select_redoStack : redoStack st' = redoStack st;
  select_undoUpdates : undoUpdates st' = undoUpdates st
}.

(** [st'] differs from [st] at most in the pixels of the paint canvas, the
    drawing flag and the history: every element keeps its size, every
    other element its pixels, and the selection is as it was. *)
Record PaintFrame (st st' : Editor) : Prop := {
  paint_others : forall c, canvasRef st <> Some c -> document st' !! c = document st !! c;
  paint_size : forall c cv, document st !! c = Some cv ->
    exists cv', document st' !! c = Some cv' /\ width cv' = width cv /\
                height cv' = height cv /\ context2d cv' = context2d cv;
  paint_canvasRef : canvasRef st' = canvasRef st;
  paint_selectionCanvasRef : selectionCanvasRef st' = selectionCanvasRef st;
  paint_containerRef : containerRef st' = containerRef st;
  paint_imgRef : imgRef st' = imgRef st;
  paint_naturalSize : naturalSize st' = naturalSize st;
  paint_selectionMaskRef : selectionMaskRef st' = selectionMaskRef st;
  paint_imgLoaded : imgLoaded st' = imgLoaded st;
  paint_toolMode : toolMode st' = toolMode st;
  paint_paintMode : paintMode st' = paintMode st;
  paint_brushSize : brushSize st' = brushSize st;
  paint_selectMode : selectMode st' = selectMode st;
  paint_hasSmartSelection : hasSmartSelection st' = hasSmartSelection st
}.

(** ** Thumbnails *)

Section Thumbnails.

Context {N : JSNumber}.
Variable drawScaled : Image -> Z -> Z -> list Z.

(** The [onload] handler of [createThumb], for the loaded image: it answers
    the canvas that [toDataURL] then encodes. *)
Definition createThumb (img : Image) (size : Z) : Handler Canvas :=
  canvas ← createCanvas;
  let ratio := div (num (naturalHeight img)) (num (naturalWidth img)) in
  onCanvas canvas (setWidth (num size));;
  onCanvas canvas (setHeight (mul (num size) ratio));;
  cv ← element canvas;
  (if context2d cv then onCanvas canvas (drawImage drawScaled img) else mret tt);;
  element canvas.

End Thumbnails.

(** The bytes of the pixel [i] of a bitmap. *)
Definition pixelAt (bm : list Z) (i : Z) : list (option Z) :=
  [getByte bm (i * 4); getByte bm (i * 4 + 1); getByte bm (i * 4 + 2); getByte bm (i * 4 + 3)].

(** No pixel of the paint canvas carries paint above the threshold. *)
Definition unpainted (cv : Canvas) : Prop :=
  forall dx dy, ~ paintedAt cv dx dy.

(** ** The age of an image *)

(** Times are milliseconds since the epoch; [None] is [NaN], the time of a
    date string that does not parse.  The quotients that [timeAgo] floors
    have integer operands below 2^53, for which the floor of the double
    quotient is the integer quotient. *)

(** [Math.max(0, x)]. *)
Definition atLeastZero (x : option Z) : option Z := Z.max 0 <$> x.

(** [Math.floor(x / k)]. *)
Definition floorDiv (x : option Z) (k : Z) : option Z := (fun v => v / k) <$> x.

(** [x < k]; a comparison with [NaN] is false. *)
Definition below (x : option Z) (k : Z) : bool :=
  match x with
  | Some v => v <? k
  | None => false
  end.

(** The number in a template literal. *)
Definition shown (x : option Z) : string :=
  match x with
  | Some v => pretty v
  | None => "NaN"
  end.

(** [timeAgo(dateStr)] at the time [now], for [then_] the time of the date
    string. *)
Definition timeAgo (now : Z) (then_ : option Z) : string :=
  let diff := atLeastZero ((fun t => now - t) <$> then_) in
  let seconds := floorDiv diff 1000 in
  if below seconds 60 then "just now" else
  let minutes := floorDiv seconds 60 in
  if below minutes 60 then shown minutes +:+ "m" else
  let hours := floorDiv minutes 60 in
  if below hours 24 then shown hours +:+ "h" else
  let days := floorDiv hours 24 in
  if below days 7 then shown days +:+ "d" else
  let weeks := floorDiv days 7 in
  if below weeks 4 then shown weeks +:+ "w" else
  let months := floorDiv days 30 in
  shown months +:+ "mo".

(** The label the nested quotients amount to, by the age in milliseconds. *)
Definition ageLabel (age : Z) : string :=
  if age <? 60000 then "just now"
  else if age <? 3600000 then pretty (age / 60000) +:+ "m"
  else if age <? 86400000 then pretty (age / 3600000) +:+ "h"
  else if age <? 604800000 then pretty (age / 86400000) +:+ "d"
  else if age <? 2419200000 then pretty (age / 604800000) +:+ "w"
  else pretty (age / 2592000000) +:+ "mo".

(** ** The layer list of [EditPage] *)

Module Layers.

Record LayerEntry := mkLayer {
  id : string;
  name : string;
  dataUrl : string;
  thumbUrl : string;
  visible : bool
}.

(** The layer state of the component: [layers], [activeLayerId] and the ref
    [layerCounter]. *)
Record State := mkState {
  layers : list LayerEntry;
  activeLayerId : option string;
  layerCounter : Z
}.

Definition setVisible (v : bool) (l : LayerEntry) : LayerEntry :=
  mkLayer (id l) (name l) (dataUrl l) (thumbUrl l) v.

(** [prev.map(l => l.id === layerId ? { ...l, visible: !l.visible } : l)]. *)
Definition toggleLayerVisibility (layerId : string) (st : State) : State :=
  mkState
    ((fun l => if String.eqb (id l) layerId then setVisible (negb (visible l)) l else l)
       <$> layers st)
    (activeLayerId st) (layerCounter st).

(** [activeLayerId === layerId]. *)
Definition isActive (st : State) (layerId : string) : bool :=
  match activeLayerId st with
  | Some a => String.eqb a layerId
  | None => false
  end.

Definition removeLayer (layerId : string) (st : State) : State :=
  let next := filter (fun l => negb (String.eqb (id l) layerId)) (layers st) in
  mkState next
    (match next with
     | first :: _ => if isActive st layerId then Some (id first) else activeLayerId st
     | [] => activeLayerId st
     end)
    (layerCounter st).

(** The layer [enterEditor], [selectVersion] and [addLayerFromDataUrl] build
    for the counter value [n]. *)
Definition newLayer (n : Z) (url thumb : string) : LayerEntry :=
  mkLayer ("layer-" +:+ pretty n) ("Layer " +:+ pretty n) url thumb true.

(** The layer part of [enterEditor] and of [selectVersion]. *)
Definition enterEditor (url thumb : string) : State :=
  mkState [newLayer 1 url thumb] (Some (id (newLayer 1 url thumb))) 1.

(** [addLayerFromDataUrl] with an image open, once the thumbnail is there. *)
Definition addLayer (url thumb : string) (st : State) : State :=
  let n := layerCounter st + 1 in
  let layer := newLayer n url thumb in
  mkState (layer :: layers st) (Some (id layer)) n.

(** The layer part of [startNew]. *)
Definition startNew : State := mkState [] None 0.

(** Every layer has the id of a counter value already used, and no two
    layers share an id. *)
Record WellFormed (st : State) : Prop := {
  wf_counter : 0 <= layerCounter st;
  wf_ids : Forall (fun l => exists n, 1 <= n <= layerCounter st /\ id l = "layer-" +:+ pretty n)
             (layers st);
  wf_nodup : NoDup (id <$> layers st)
}.

(** The user's actions on the layer list. *)
Inductive Action :=
| Add (url thumb : string)
| Toggle (layerId : string)
| Remove (layerId : string)
| Select (layerId : string).

Definition act (a : Action) (st : State) : State :=
  match a with
  | Add url thumb => addLayer url thumb st
  | Toggle layerId => toggleLayerVisibility layerId st
  | Remove layerId => removeLayer layerId st
  | Select layerId => mkState (layers st) (Some layerId) (layerCounter st)
  end.

End Layers.

(** ** The embedded [ImageEditPanel] *)

Module Panel.

Inductive Tool := Erase | Restore.

(** The refs and the React state of the component. *)
Record State := mkState {
  document : gmap nat Canvas;
  canvasRef : option nat;
  containerRef : option (Z * Z);
  imgRef : option Image;
  naturalSize : Z * Z;
  drawing : bool;
  brushSize : Z;
  tool : Tool;
  imgLoaded : bool;
  history : list ImageData;
  redoStack : list ImageData;
  hasInteracted : bool
}.

Definition setDocument (d : gmap nat Canvas) (st : State) : State :=
  mkState d (canvasRef st) (containerRef st) (imgRef st) (naturalSize st) (drawing st)
    (brushSize st) (tool st) (imgLoaded st) (history st) (redoStack st) (hasInteracted st).

Definition setDrawing (b : bool) (st : State) : State :=
  mkState (document st) (canvasRef st) (containerRef st) (imgRef st) (naturalSize st) b
    (brushSize st) (tool st) (imgLoaded st) (history st) (redoStack st) (hasInteracted st).

Definition setHistory (u : list ImageData) (st : State) : State :=
  mkState (document st) (canvasRef st) (containerRef st) (imgRef st) (naturalSize st)
    (drawing st) (brushSize st) (tool st) (imgLoaded st) u (redoStack st) (hasInteracted st).

Definition setRedoStack (r : list ImageData) (st : State) : State :=
  mkState (document st) (canvasRef st) (containerRef st) (imgRef st) (naturalSize st)
    (drawing st) (brushSize st) (tool st) (imgLoaded st) (history st) r (hasInteracted st).

Definition setHasInteracted (b : bool) (st : State) : State :=
  mkState (document st) (canvasRef st) (containerRef st) (imgRef st) (naturalSize st)
    (drawing st) (brushSize st) (tool st) (imgLoaded st) (history st) (redoStack st) b.

Definition PanelHandler (A : Type) : Type := State -> Completion A * State.

#[global] Instance PanelHandler_ret : MRet PanelHandler := fun A a st => (Normal a, st).

#[global] Instance PanelHandler_bind : MBind PanelHandler := fun A B k m st =>
  match m st with
  | (Normal a, st') => k a st'
  | (Abrupt r, st') => (Abrupt r, st')
  end.

Definition get : PanelHandler State := fun st => (Normal st, st).

Definition modify (f : State -> State) : PanelHandler unit := fun st => (Normal tt, f st).

Definition liftDom {A} (r : DOMException + A) : PanelHandler A := fun st =>
  match r with
  | inl e => (Abrupt (Thrown e), st)
  | inr a => (Normal a, st)
  end.

(** [canvasRef.current]. *)
Definition current : PanelHandler (option nat) := fun st =>
  match canvasRef st with
  | Some c => if decide (c ∈ dom (document st)) then (Normal (Some c), st) else (Normal None, st)
  | None => (Normal None, st)
  end.

Definition element (c : nat) : PanelHandler Canvas := fun st =>
  (Normal (default defaultCanvas (document st !! c)), st).

Definition onCanvas (c : nat) (f : Canvas -> Canvas) : PanelHandler unit :=
  modify (fun st => setDocument (alter f c (document st)) st).

Definition createCanvas : PanelHandler nat := fun st =>
  let c := fresh (dom (document st)) in
  (Normal c, setDocument (<[c := defaultCanvas]> (document st)) st).

Section Handlers.

Context {N : JSNumber}.
Variable rasterArc :
  CompositeOperation -> Color -> Number -> Number -> Number -> Z -> Z -> list Z -> list Z.

(** [saveSnapshot] of the panel reads the snapshot itself, before it calls
    the setter; the updater [prev => [...prev.slice(-20), snap]] reads
    nothing but its argument. *)
Definition saveSnapshot : PanelHandler unit :=
  canvas ← current;
  match canvas with
  | None => mret tt
  | Some c =>
    cv ← element c;
    if negb (context2d cv) then mret tt else
    snap ← liftDom (getImageData cv);
    modify (fun st => setHistory (sliceLast 20 (history st) ++ [snap]) st);;
    modify (setRedoStack [])
  end.

Definition undo : PanelHandler unit :=
  canvas ← current;
  st ← get;
  match canvas, pop (history st) with
  | Some c, Some (last, prev) =>
    cv ← element c;
    if negb (context2d cv) then mret tt else
    currentSnap ← liftDom (getImageData cv);
    onCanvas c (putImageData last);;
    modify (setHistory prev);;
    modify (fun st => setRedoStack (redoStack st ++ [currentSnap]) st)
  | _, _ => mret tt
  end.

Definition redo : PanelHandler unit :=
  canvas ← current;
  st ← get;
  match canvas, pop (redoStack st) with
  | Some c, Some (next, stack) =>
    cv ← element c;
    if negb (context2d cv) then mret tt else
    currentSnap ← liftDom (getImageData cv);
    onCanvas c (putImageData next);;
    modify (setRedoStack stack);;
    modify (fun st => setHistory (history st ++ [currentSnap]) st)
  | _, _ => mret tt
  end.

Definition drawStroke (x y : Number) : PanelHandler unit :=
  canvas ← current;
  match canvas with
  | None => mret tt
  | Some c =>
    cv ← element c;
    if negb (context2d cv) then mret tt else
    st ← get;
    match tool st with
    | Erase =>
      onCanvas c (fillArc rasterArc SourceOver marker x y (div (num (brushSize st)) (num 2)))
    | Restore =>
      onCanvas c (fillArc rasterArc DestinationOut black x y (div (num (brushSize st)) (num 2)))
    end
  end.

Definition onPointerDown (x y : Number) : PanelHandler unit :=
  saveSnapshot;;
  modify (setDrawing true);;
  modify (setHasInteracted true);;
  drawStroke x y.

Definition onPointerMove (x y : Number) : PanelHandler unit :=
  st ← get;
  if negb (drawing st) then mret tt else drawStroke x y.

Definition onPointerUp : PanelHandler unit := modify (setDrawing false).

Definition onTouchStart (x y : Number) : PanelHandler unit :=
  saveSnapshot;;
  modify (setDrawing true);;
  modify (setHasInteracted true);;
  drawStroke x y.

Definition onTouchMove (x y : Number) : PanelHandler unit :=
  st ← get;
  if negb (drawing st) then mret tt else drawStroke x y.

Definition onTouchEnd : PanelHandler unit := modify (setDrawing false).

(** A stroke with the mouse: button down, moves along the path, button up. *)
Fixpoint moves (ps : list (Number * Number)) : PanelHandler unit :=
  match ps with
  | [] => mret tt
  | p :: ps => onPointerMove (fst p) (snd p);; moves ps
  end.

Definition stroke (s : Stroke) : PanelHandler unit :=
  onPointerDown (fst (start s)) (snd (start s));;
  moves (path s);;
  onPointerUp.

Fixpoint strokes (ss : list Stroke) : PanelHandler unit :=
  match ss with
  | [] => mret tt
  | s :: ss => stroke s;; strokes ss
  end.

Fixpoint times (n : nat) (m : PanelHandler unit) : PanelHandler unit :=
  match n with
  | O => mret tt
  | S n => m;; times n m
  end.

Definition exportMask : PanelHandler (option ImageData) :=
  canvas ← current;
  match canvas with
  | None => mret None
  | Some c =>
    cv ← element c;
    if negb (context2d cv) then mret None else
    st ← get;
    maskCanvas ← createCanvas;
    onCanvas maskCanvas (setWidth (num (fst (naturalSize st))));;
    onCanvas maskCanvas (setHeight (num (snd (naturalSize st))));;
    mask ← element maskCanvas;
    if negb (context2d mask) then mret None else
    onCanvas maskCanvas fillBlack;;
    mask ← element maskCanvas;
    display ← element c;
    let scaleX := div (num (fst (naturalSize st))) (num (width display)) in
    let scaleY := div (num (snd (naturalSize st))) (num (height display)) in
    displayData ← liftDom (getImageData display);
    maskData ← liftDom (getImageData mask);
    let maskData' :=
      projectMask (width display) (height display) (data displayData)
                  (width mask) (height mask) scaleX scaleY (data maskData) in
    onCanvas maskCanvas
      (putImageData (mkImageData (img_width maskData) (img_height maskData) maskData'));;
    mask ← element maskCanvas;
    mret (Some (mkImageData (width mask) (height mask) (bitmap mask)))
  end.

(** [handleSubmit]: the arguments of the call of [onSubmitEdit], or [None]
    when it is not called. *)
Definition handleSubmit (imageId : Z) (prompt : string)
  : PanelHandler (option (Z * ImageData * string)) :=
  maskData ← exportMask;
  match maskData with
  | None => mret None
  | Some mask => mret (Some (imageId, mask, prompt))
  end.

(** The sizing effect. *)
Definition allocateSurface : PanelHandler unit :=
  canvas ← current;
  st ← get;
  match imgLoaded st, canvas, containerRef st with
  | true, Some c, Some (clientW, clientH) =>
    let d := editPanelDisplaySize (fst (naturalSize st)) (snd (naturalSize st))
                                  clientW clientH in
    onCanvas c (setWidth (fst d));;
    onCanvas c (setHeight (snd d));;
    cv ← element c;
    if context2d cv then onCanvas c clearAll else mret tt
  | _, _, _ => mret tt
  end.

End Handlers.

(** The state of an [EditPage] that holds what the panel holds, with the
    paint tool chosen, nothing selected and no updater waiting. *)
Definition toEditor (st : State) : Editor :=
  mkEditor (document st) (canvasRef st) None (containerRef st) (imgRef st) (naturalSize st)
    None (imgLoaded st) ToolPaint
    (match tool st with Erase => PaintErase | Restore => PaintRestore end)
    (brushSize st) Include false (drawing st) (history st) (redoStack st) [].

(** The panel handler [m] acts on the panel as [m'] acts on the editor. *)
Definition simulates {A} (m : PanelHandler A) (m' : Handler A) : Prop :=
  forall st, fst (m st) = fst (m' (toEditor st)) /\
             toEditor (snd (m st)) = snd (m' (toEditor st)).


(** The state a handler leaves, the pixels of an element and the allocated
    surface, as for the editor. *)
Definition run {A} (m : PanelHandler A) (st : State) : State := snd (m st).

Definition pixelsOf (c : nat) (st : State) : list Z :=
  bitmap (default defaultCanvas (document st !! c)).

Record Ready (w h : Z) (c : nat) (st : State) : Prop := {
  ready_ref : canvasRef st = Some c;
  ready_canvas : exists bm, document st !! c = Some (mkCanvas w h true bm) /\
                            length bm = Z.to_nat (4 * (w * h));
  ready_width : 0 < w;
  ready_height : 0 < h;
  ready_history : Forall (fits w h) (history st);
  ready_redo : Forall (fits w h) (redoStack st)
}.

(** A panel with a canvas of [w] by [h] over an image of [natW] by [natH],
    before the first stroke. *)
Definition samplePanel (w h natW natH : Z) (bm : list Z) (img : Image) : State :=
  mkState (<[0%nat := mkCanvas w h true bm]> ∅) (Some 0%nat) (Some (w, h)) (Some img)
    (natW, natH) false 40 Erase true [] [] false.

End Panel.

(** ** The image picker of the moodboards page *)

Module Moodboards.

(** A JavaScript [Set] of image ids is the list of its elements in the
    order they were added, each once. *)
Definition has (s : list Z) (id : Z) : bool := bool_decide (id ∈ s).

Definition delete (s : list Z) (id : Z) : list Z := filter (fun x => x <> id) s.

Definition add (s : list Z) (id : Z) : list Z := if has s id then s else s ++ [id].

(** The updater [togglePickerImage] hands to [setPickerSelected]. *)
Definition togglePickerImage (id : Z) (prev : list Z) : list Z :=
  let next := prev in
  if has next id then delete next id else add next id.

End Moodboards.

(** The sample editor after two taps and one undo: both history stacks
    hold a snapshot. *)
Definition midSession : Editor :=
  run (session (N := exactNumber) 30 dotBrush drawUnscaled plainHatch
         [Paint tap; Paint tap; Undo])
      (sampleEditor 1 1 1 1 (transparent 1 1) onePixel).

(** An editor whose paint canvas has no rows. *)
Definition flatEditor : Editor := sampleEditor 3 0 2000 1 [] onePixel.

(** An editor with the first of two pixels selected. *)
Definition halfSelected : Editor :=
  setSelectionMask (Some [1; 0]) (sampleEditor 2 1 2 1 (transparent 2 1) twoPixels).

(** * Theorems *)

(** ** Display sizing *)

Section SizingFacts.

Context {N : JSNumber} {SM : StandardModel N}.

Lemma value_num z : 0 <= z <= 9007199254740992 -> (value (num z) == inject_Z z)%Q.
Proof. intros Hz. apply num_exact. lia. Qed.

Lemma inject_Z_nonneg z : 0 <= z -> (0 <= inject_Z z)%Q.
Proof. intros Hz. change 0%Q with (inject_Z 0). rewrite <- Zle_Qle. assumption. Qed.

Lemma inject_Z_pos z : 0 < z -> (0 < inject_Z z)%Q.
Proof. intros Hz. change 0%Q with (inject_Z 0). rewrite <- Zlt_Qlt. assumption. Qed.

(** The quotient of two pixel counts. *)
Lemma ratio_close n d :
  0 <= n <= 9007199254740992 -> 0 < d <= 9007199254740992 ->
  let r := value (div (num n) (num d)) in
  (0 <= r /\ inject_Z n * (1 - roundoff) <= r * inject_Z d /\
   r * inject_Z d <= inject_Z n * (1 + roundoff))%Q.
Proof.
  intros Hn Hd r.
  pose proof (inject_Z_nonneg n ltac:(lia)) as Hn0.
  pose proof (inject_Z_pos d ltac:(lia)) as Hd0.
  destruct (div_close (num n) (num d)) as [Hlo Hhi].
  { rewrite value_num by lia. assumption. }
  { rewrite value_num by lia. assumption. }
  rewrite !value_num in Hlo, Hhi by lia. fold r in Hlo, Hhi.
  split; [|split; assumption].
  unfold roundoff in *.
  destruct (Qlt_le_dec r 0) as [Hneg|]; [|assumption].
  exfalso. nra.
Qed.

(** [a * (n / d)] as computed, against the exact [a * n / d]. *)
Lemma mul_ratio_close a n d :
  0 <= a <= 9007199254740992 -> 0 <= n <= 9007199254740992 ->
  0 < d <= 9007199254740992 -> a * n <= 1125899906842624 ->
  let v := value (mul (num a) (div (num n) (num d))) in
  (0 <= v /\ inject_Z (a * n) - 1 < v * inject_Z d /\
   v * inject_Z d < inject_Z (a * n) + 1)%Q.
Proof.
  intros Ha Hn Hd Han v.
  destruct (ratio_close n d Hn Hd) as (Hr0 & Hrlo & Hrhi).
  set (r := value (div (num n) (num d))) in *.
  pose proof (inject_Z_nonneg a ltac:(lia)) as Ha0.
  pose proof (inject_Z_nonneg n ltac:(lia)) as Hn0.
  pose proof (inject_Z_pos d ltac:(lia)) as Hd0.
  destruct (mul_close (num a) (div (num n) (num d))) as [Hlo Hhi].
  { rewrite value_num by lia. assumption. }
  { assumption. }
  rewrite !value_num in Hlo, Hhi by lia. fold r v in Hlo, Hhi.
  assert (HP : (inject_Z (a * n) <= 1125899906842624)%Q).
  { change 1125899906842624%Q with (inject_Z 1125899906842624).
    rewrite <- Zle_Qle. assumption. }
  rewrite inject_Z_mult in *.
  unfold roundoff in *.
  set (A := inject_Z a) in *. set (B := inject_Z n) in *. set (D := inject_Z d) in *.
  assert (Hv0 : (0 <= v)%Q) by nra.
  assert (H1 : (A * B * (1 - (1 # 9007199254740992)) * (1 - (1 # 9007199254740992)) <= v * D)%Q) by nra.
  assert (H2 : (v * D <= A * B * (1 + (1 # 9007199254740992)) * (1 + (1 # 9007199254740992)))%Q) by nra.
  assert (HAB : (0 <= A * B)%Q) by nra.
  set (P := (A * B)%Q) in *.
  split; [assumption|]. split; lra.
Qed.

(** [a / (n / d)] as computed, against the exact [a * d / n]. *)
Lemma div_ratio_close a n d :
  0 <= a <= 9007199254740992 -> 0 < n <= 9007199254740992 ->
  0 < d <= 9007199254740992 -> a * d <= 1125899906842624 ->
  let v := value (div (num a) (div (num n) (num d))) in
  (0 <= v /\ inject_Z (a * d) - 1 < v * inject_Z n /\
   v * inject_Z n < inject_Z (a * d) + 1)%Q.
Proof.
  intros Ha Hn Hd Had v.
  destruct (ratio_close n d ltac:(lia) Hd) as (Hr0 & Hrlo & Hrhi).
  set (r := value (div (num n) (num d))) in *.
  pose proof (inject_Z_nonneg a ltac:(lia)) as Ha0.
  pose proof (inject_Z_pos n ltac:(lia)) as Hn0.
  pose proof (inject_Z_pos d ltac:(lia)) as Hd0.
  assert (Hrpos : (0 < r)%Q).
  { unfold roundoff in *. destruct (Qlt_le_dec 0 r); [assumption|exfalso; nra]. }
  destruct (div_close (num a) (div (num n) (num d))) as [Hlo Hhi].
  { rewrite value_num by lia. assumption. }
  { assumption. }
  rewrite !value_num in Hlo, Hhi by lia. fold r v in Hlo, Hhi.
  assert (HP : (inject_Z (a * d) <= 1125899906842624)%Q).
  { change 1125899906842624%Q with (inject_Z 1125899906842624).
    rewrite <- Zle_Qle. assumption. }
  rewrite inject_Z_mult in *.
  unfold roundoff in *.
  set (A := inject_Z a) in *. set (B := inject_Z n) in *. set (D := inject_Z d) in *.
  assert (Hv0 : (0 <= v)%Q).
  { destruct (Qlt_le_dec v 0); [exfalso; nra|assumption]. }
  assert (H1 : (v * B * (1 - (1 # 9007199254740992)) <= A * D * (1 + (1 # 9007199254740992)))%Q) by nra.
  assert (H2 : (A * D * (1 - (1 # 9007199254740992)) <= v * B * (1 + (1 # 9007199254740992)))%Q) by nra.
  assert (HAD : (0 <= A * D)%Q) by nra.
  set (P := (A * D)%Q) in *. set (X := (v * B)%Q) in *.
  split; [assumption|]. split; lra.
Qed.

(** An integer count read off a number that is within one unit of [p / q]
    after scaling by [q]. *)
Lemma floor_close (v : Q) p q :
  0 < q -> (0 <= v)%Q ->
  (inject_Z p - 1 < v * inject_Z q)%Q -> (v * inject_Z q < inject_Z p + 1)%Q ->
  0 <= Qfloor v /\ p - q <= Qfloor v * q /\ Qfloor v * q <= p.
Proof.
  intros Hq Hv Hlo Hhi.
  pose proof (Qfloor_le v) as Hfl. pose proof (Qlt_floor v) as Hfu.
  pose proof (inject_Z_pos q Hq) as Hq0.
  rewrite inject_Z_plus in Hfu. change (inject_Z 1) with 1%Q in Hfu.
  assert (H0 : 0 <= Qfloor v).
  { change 0 with (Qfloor 0). apply Qfloor_resp_le. assumption. }
  split; [assumption|].
  assert (H1 : (inject_Z (Qfloor v * q) < inject_Z (p + 1))%Q).
  { rewrite inject_Z_mult, inject_Z_plus. change (inject_Z 1) with 1%Q.
    set (C := inject_Z (Qfloor v)) in *. nra. }
  assert (H2 : (inject_Z p < inject_Z (Qfloor v * q + q + 1))%Q).
  { rewrite !inject_Z_plus, inject_Z_mult. change (inject_Z 1) with 1%Q.
    set (C := inject_Z (Qfloor v)) in *. nra. }
  rewrite <- Zlt_Qlt in H1, H2. lia.
Qed.

Lemma trunc_nonneg (x : Number) : (0 <= value x)%Q -> trunc x = floor x.
Proof.
  unfold trunc, floor. destruct (value x) as [n d]. unfold Qle, Qfloor. simpl.
  intros H. apply Z.quot_div_nonneg; lia.
Qed.

Lemma toDimension_floor dflt (x : Number) :
  (0 <= value x)%Q -> 0 <= floor x <= 2147483647 -> toDimension dflt x = floor x.
Proof.
  intros H0 Hle. unfold toDimension. rewrite trunc_nonneg by assumption.
  rewrite Z.mod_small by lia.
  destruct (Z.leb_spec (floor x) 2147483647); [reflexivity | lia].
Qed.

Lemma toDimension_num dflt z :
  0 <= z <= 2147483647 -> toDimension dflt (num z) = z.
Proof.
  intros Hz.
  assert (Hv : (value (num z) == inject_Z z)%Q) by (apply value_num; lia).
  assert (Hf : floor (num z) = z).
  { unfold floor. rewrite Hv. apply Qfloor_Z. }
  rewrite toDimension_floor; [assumption | | lia].
  rewrite Hv. apply inject_Z_nonneg. lia.
Qed.

(** [x > m] for an integer [m], when [x] is within one unit of [p / q]
    after scaling. *)
Lemma gtb_close (x : Number) m p q :
  0 <= m <= 9007199254740992 -> 0 < q ->
  (inject_Z p - 1 < value x * inject_Z q)%Q -> (value x * inject_Z q < inject_Z p + 1)%Q ->
  if gtb x (num m) then m * q <= p else p <= m * q.
Proof.
  intros Hm Hq Hlo Hhi. unfold gtb.
  pose proof (inject_Z_pos q Hq) as Hq0.
  assert (Hv : (value (num m) == inject_Z m)%Q) by (apply value_num; lia).
  destruct (Qle_bool (value x) (value (num m))) eqn:E; simpl.
  - apply Qle_bool_iff in E. rewrite Hv in E.
    assert (H1 : (inject_Z p < inject_Z (m * q + 1))%Q).
    { rewrite inject_Z_plus, inject_Z_mult. change (inject_Z 1) with 1%Q. nra. }
    rewrite <- Zlt_Qlt in H1. lia.
  - assert (Hgt : (inject_Z m < value x)%Q).
    { apply Qnot_le_lt. intros Hle. rewrite <- Hv in Hle.
      apply Qle_bool_iff in Hle. congruence. }
    assert (H1 : (inject_Z (m * q) < inject_Z (p + 1))%Q).
    { rewrite inject_Z_mult, inject_Z_plus. change (inject_Z 1) with 1%Q. nra. }
    rewrite <- Zlt_Qlt in H1. lia.
Qed.

(** The shape the two sizing effects share.  [a] is the capped width, [f]
    the height it implies and [g] the width that [maxH] implies. *)
Lemma sized_aspect_locked W H maxW maxH a (f g : Number) :
  0 < W -> 0 < H -> 0 < maxH <= 2147483647 -> 0 < a <= maxW -> maxW <= 2147483647 ->
  maxH <= 9007199254740992 ->
  (0 <= value f /\ inject_Z (a * H) - 1 < value f * inject_Z W /\
   value f * inject_Z W < inject_Z (a * H) + 1)%Q ->
  (0 <= value g /\ inject_Z (maxH * W) - 1 < value g * inject_Z H /\
   value g * inject_Z H < inject_Z (maxH * W) + 1)%Q ->
  aspectLocked W H maxW maxH
    (canvasSize (if gtb f (num maxH) then (g, num maxH) else (num a, f))).
Proof.
  intros HW HH HmaxH Ha HmaxW Hbig (Hf0 & Hflo & Hfhi) (Hg0 & Hglo & Hghi).
  pose proof (gtb_close f maxH (a * H) W ltac:(lia) HW Hflo Hfhi) as Hcmp.
  unfold aspectLocked, withinOnePixel, canvasSize.
  destruct (gtb f (num maxH)); simpl.
  - destruct (floor_close (value g) (maxH * W) H HH Hg0 Hglo Hghi) as (Hc0 & Hclo & Hchi).
    fold (floor g) in *.
    assert (Hca : floor g <= a) by nia.
    rewrite toDimension_floor by (try assumption; lia).
    rewrite toDimension_num by lia.
    split; [lia|]. split; [lia|]. right. lia.
  - destruct (floor_close (value f) (a * H) W HW Hf0 Hflo Hfhi) as (Hc0 & Hclo & Hchi).
    fold (floor f) in *.
    assert (Hcm : floor f <= maxH) by nia.
    rewrite toDimension_num by lia.
    rewrite toDimension_floor by (try assumption; lia).
    split; [lia|]. split; [lia|]. left. lia.
Qed.


End SizingFacts.

(** Exact rational arithmetic is a standard model. *)
Lemma exactNumber_standard : StandardModel exactNumber.
Proof.
  split; simpl.
  - intros z _. reflexivity.
  - intros x y Hx Hy. unfold roundoff. split; nra.
  - intros x y Hx Hy. unfold roundoff.
    assert (E : (x / y * y == x)%Q) by (field; lra).
    rewrite E. split; nra.
Qed.


(** ** History *)

(** [putImageData] of a snapshot of the canvas size replaces the bitmap. *)
Lemma putImageData_fits w h ctx bm img :
  0 < w -> fits w h img -> length bm = Z.to_nat (4 * (w * h)) ->
  putImageData img (mkCanvas w h ctx bm) = mkCanvas w h ctx (data img).
Proof.
  intros Hw (Hiw & Hih & Hlen) Hbm. unfold putImageData. simpl. f_equal.
  apply list_eq. intros i. rewrite list_lookup_imap.
  destruct (bm !! i) as [old|] eqn:E; simpl.
  - apply lookup_lt_Some in E.
    assert (Hi : Z.of_nat i < 4 * (w * h)) by lia.
    rewrite Hiw, Hih.
    assert (Hp : 0 <= Z.of_nat i / 4 < w * h).
    { split; [apply Z.div_pos; lia | apply Z.div_lt_upper_bound; lia]. }
    set (p := Z.of_nat i / 4) in *.
    pose proof (Z.mod_pos_bound p w Hw) as Hx.
    assert (Hy : p / w < h) by (apply Z.div_lt_upper_bound; nia).
    destruct (Z.ltb_spec (p mod w) w); [|lia].
    destruct (Z.ltb_spec (p / w) h); [|lia]. simpl.
    assert (Hidx : 4 * (p / w * w + p mod w) + Z.of_nat i mod 4 = Z.of_nat i).
    { pose proof (Z.div_mod p w ltac:(lia)). pose proof (Z.div_mod (Z.of_nat i) 4 ltac:(lia)).
      subst p. lia. }
    rewrite Hidx. unfold getByte.
    destruct (Z.ltb_spec (Z.of_nat i) 0); [lia|]. rewrite Nat2Z.id.
    destruct (data img !! i) eqn:E'; [reflexivity|].
    apply lookup_ge_None in E'. lia.
  - apply lookup_ge_None in E. symmetry. apply lookup_ge_None. lia.
Qed.

#[local] Arguments putImageData : simpl never.

Section HistoryFacts.

Context {N : JSNumber}.
Variable keep : nat.
Variable rasterArc :
  CompositeOperation -> Color -> Number -> Number -> Number -> Z -> Z -> list Z -> list Z.
Variable drawScaled : Image -> Z -> Z -> list Z.
Variable hatch : Z -> Z -> list Z.
Hypothesis rasterArc_length : forall op style x y r w h bm,
  length (rasterArc op style x y r w h bm) = length bm.

Lemma current_ready w h c st :
  Ready w h c st -> current canvasRef st = (Normal (Some c), st).
Proof.
  intros [Href (bm & Hbm & _) _ _ _ _]. unfold current. rewrite Href.
  destruct (decide (c ∈ dom (document st))) as [|Hn]; [reflexivity|].
  exfalso. apply Hn. apply elem_of_dom. eauto.
Qed.

(** *** The queue of updaters *)

Lemma setUndoUpdates_idle st : undoUpdates st = [] -> setUndoUpdates [] st = st.
Proof. destruct st. simpl. intros ->. reflexivity. Qed.

Lemma render_idle st : undoUpdates st = [] -> render st = (Normal tt, st).
Proof.
  intros Hq. unfold render, mbind, Handler_bind, get, modify. cbn beta iota.
  rewrite Hq, (setUndoUpdates_idle st Hq). reflexivity.
Qed.

(** With nothing queued once the handler is through, the event is the
    handler. *)
Lemma event_idle (m : Handler unit) st :
  undoUpdates (snd (m st)) = [] -> event m st = m st.
Proof.
  intros Hq. unfold event. destruct (m st) as [[[]|r] st']; simpl in Hq;
    rewrite (render_idle st' Hq); reflexivity.
Qed.

(** [saveSnapshot] queues the updater and empties the redo stack. *)
Lemma saveSnapshot_ready w h c st :
  Ready w h c st ->
  saveSnapshot keep st =
    (Normal tt, setRedoStack [] (setUndoUpdates [mkUpdater keep c] st)).
Proof.
  intros HR. pose proof (current_ready _ _ _ _ HR) as Hcur.
  destruct HR as [Href (bm & Hbm & Hlen) Hw Hh _ _ Hq].
  unfold saveSnapshot, mbind, Handler_bind. rewrite Hcur.
  unfold element. rewrite Hbm. simpl. unfold modify. rewrite Hq. reflexivity.
Qed.

(** The render with one snapshot updater waiting: the snapshot is read
    then. *)
Lemma render_snapshot w h c k st :
  Ready w h c st ->
  render (setUndoUpdates [mkUpdater k c] st) =
    (Normal tt,
     setUndoStack (sliceLast k (undoStack st) ++ [mkImageData w h (pixelsOf c st)]) st).
Proof.
  intros [Href (bm & Hbm & Hlen) Hw Hh _ _ Hq].
  unfold render, mbind, Handler_bind, get, modify. cbn beta iota.
  change (setUndoUpdates [] (setUndoUpdates [mkUpdater k c] st))
    with (setUndoUpdates [] st).
  rewrite (setUndoUpdates_idle st Hq).
  cbn [undoUpdates setUndoUpdates runUpdaters].
  unfold runUpdater, mbind, mret, Handler_bind, Handler_ret, element, pixelsOf, modify.
  cbn [updaterCanvas updaterKeep]. rewrite Hbm. simpl.
  unfold liftDom, getImageData. simpl.
  destruct (Z.eqb_spec w 0); [lia|]. destruct (Z.eqb_spec h 0); [lia|]. simpl.
  reflexivity.
Qed.

(** A snapshot of the surface fits it. *)
Lemma Ready_snapshot w h c k st :
  Ready w h c st ->
  Ready w h c
    (setUndoStack (sliceLast k (undoStack st) ++ [mkImageData w h (pixelsOf c st)]) st).
Proof.
  intros [Href (bm & Hbm & Hlen) Hw Hh Hu Hr Hq].
  split; simpl; try assumption.
  - exists bm. split; assumption.
  - apply Forall_app. split.
    + unfold sliceLast. apply Forall_drop. assumption.
    + constructor; [|constructor]. unfold pixelsOf. rewrite Hbm.
      repeat split; simpl; assumption.
Qed.

Lemma pop_snoc {A} (l : list A) (x : A) : pop (l ++ [x]) = Some (x, l).
Proof. unfold pop. rewrite last_snoc, removelast_last. reflexivity. Qed.

Lemma pop_nil {A} : pop (@nil A) = None.
Proof. reflexivity. Qed.

Lemma fits_eta w h img : fits w h img -> mkImageData w h (data img) = img.
Proof. destruct img. intros (? & ? & _). simpl in *. subst. reflexivity. Qed.

Lemma Ready_setDocument w h c st bm bm' :
  Ready w h c st ->
  document st !! c = Some (mkCanvas w h true bm) ->
  length bm' = Z.to_nat (4 * (w * h)) ->
  Ready w h c (setDocument (alter (fun _ => mkCanvas w h true bm') c (document st)) st).
Proof.
  intros [Href _ Hw Hh Hu Hr] Hbm Hlen. split; simpl; try assumption.
  exists bm'. split; [|assumption]. rewrite lookup_alter_eq, Hbm. reflexivity.
Qed.

(** [undo] on a non-empty history: the last snapshot comes back and the
    present pixels go to the redo stack. *)
Lemma undo_ready w h c st U s :
  Ready w h c st -> undoStack st = U ++ [s] ->
  let st' := run undo st in
  fst (undo st) = Normal tt /\ Ready w h c st' /\
  pixelsOf c st' = data s /\ undoStack st' = U /\
  redoStack st' = redoStack st ++ [mkImageData w h (pixelsOf c st)] /\
  toolMode st' = toolMode st.
Proof.
  intros HR HU. pose proof (current_ready _ _ _ _ HR) as Hcur.
  destruct HR as [Href (bm & Hbm & Hlen) Hw Hh Hu Hr].
  assert (Hs : fits w h s).
  { rewrite HU in Hu. apply Forall_app in Hu as [_ Hu]. inversion Hu; assumption. }
  unfold run, undo, mbind, Handler_bind. rewrite Hcur. unfold get. simpl.
  rewrite HU, pop_snoc. unfold element, pixelsOf. rewrite Hbm. simpl.
  unfold liftDom, getImageData. simpl.
  destruct (Z.eqb_spec w 0); [lia|]. destruct (Z.eqb_spec h 0); [lia|]. simpl.
  assert (Hnew : alter (putImageData s) c (document st) !! c =
                 Some (mkCanvas w h true (data s))).
  { rewrite lookup_alter_eq, Hbm. simpl.
    rewrite (putImageData_fits w h true bm s Hw Hs Hlen). reflexivity. }
  rewrite Hnew. simpl.
  repeat split; try reflexivity; try assumption.
  - exists (data s). split; [assumption|apply Hs].
  - rewrite HU in Hu. apply Forall_app in Hu as [Hu _]. assumption.
  - apply Forall_app. split; [assumption|]. constructor; [|constructor].
    repeat split; simpl; assumption.
Qed.

Lemma undo_empty st : undoStack st = [] -> undo st = (Normal tt, st).
Proof.
  intros HU. unfold undo, mbind, Handler_bind, current.
  destruct (canvasRef st) as [c|]; [destruct (decide (c ∈ dom (document st)))|];
    unfold get; cbn beta iota; rewrite ?HU; reflexivity.
Qed.

Lemma redo_ready w h c st R s :
  Ready w h c st -> redoStack st = R ++ [s] ->
  let st' := run redo st in
  fst (redo st) = Normal tt /\ Ready w h c st' /\
  pixelsOf c st' = data s /\ redoStack st' = R /\
  undoStack st' = undoStack st ++ [mkImageData w h (pixelsOf c st)] /\
  toolMode st' = toolMode st.
Proof.
  intros HR HU. pose proof (current_ready _ _ _ _ HR) as Hcur.
  destruct HR as [Href (bm & Hbm & Hlen) Hw Hh Hu Hr].
  assert (Hs : fits w h s).
  { rewrite HU in Hr. apply Forall_app in Hr as [_ Hr]. inversion Hr; assumption. }
  unfold run, redo, mbind, Handler_bind. rewrite Hcur. unfold get. simpl.
  rewrite HU, pop_snoc. unfold element, pixelsOf. rewrite Hbm. simpl.
  unfold liftDom, getImageData. simpl.
  destruct (Z.eqb_spec w 0); [lia|]. destruct (Z.eqb_spec h 0); [lia|]. simpl.
  assert (Hnew : alter (putImageData s) c (document st) !! c =
                 Some (mkCanvas w h true (data s))).
  { rewrite lookup_alter_eq, Hbm. simpl.
    rewrite (putImageData_fits w h true bm s Hw Hs Hlen). reflexivity. }
  rewrite Hnew. simpl.
  repeat split; try reflexivity; try assumption.
  - exists (data s). split; [assumption|apply Hs].
  - apply Forall_app. split; [assumption|]. constructor; [|constructor].
    repeat split; simpl; assumption.
  - rewrite HU in Hr. apply Forall_app in Hr as [Hr _]. assumption.
Qed.

(** A stamp changes the pixels of the paint canvas and nothing else of
    the history. *)
Lemma draw_ready w h c st x y :
  Ready w h c st ->
  fst (draw rasterArc x y st) = Normal tt /\
  Ready w h c (run (draw rasterArc x y) st) /\
  undoStack (run (draw rasterArc x y) st) = undoStack st /\
  redoStack (run (draw rasterArc x y) st) = redoStack st /\
  toolMode (run (draw rasterArc x y) st) = toolMode st /\
  drawing (run (draw rasterArc x y) st) = drawing st.
Proof.
  intros HR. pose proof (current_ready _ _ _ _ HR) as Hcur.
  unfold run, draw, mbind, mret, Handler_bind, Handler_ret, get. cbn beta iota.
  destruct (toolMode st) eqn:Htool.
  2, 3: simpl; split; [reflexivity|]; split; [assumption|];
    repeat split; solve [reflexivity | assumption].
  rewrite Hcur. cbn beta iota.
  pose proof HR as [Href (bm & Hbm & Hlen) Hw Hh Hu Hr].
  unfold element. rewrite Hbm. simpl.
  destruct (paintMode st); simpl; (split; [reflexivity|]);
    (split; [|repeat split; solve [reflexivity | assumption]]);
    (split; simpl; try assumption);
    (eexists; split; [rewrite lookup_alter_eq, Hbm; reflexivity|]);
    simpl; rewrite rasterArc_length; assumption.
Qed.

Lemma onPointerMove_ready w h c st x y :
  Ready w h c st ->
  fst (onPointerMove rasterArc x y st) = Normal tt /\
  Ready w h c (run (onPointerMove rasterArc x y) st) /\
  undoStack (run (onPointerMove rasterArc x y) st) = undoStack st /\
  redoStack (run (onPointerMove rasterArc x y) st) = redoStack st /\
  toolMode (run (onPointerMove rasterArc x y) st) = toolMode st /\
  drawing (run (onPointerMove rasterArc x y) st) = drawing st.
Proof.
  intros HR. unfold run, onPointerMove, mbind, mret, Handler_bind, Handler_ret, get.
  cbn beta iota.
  destruct (drawing st) eqn:Hd, (toolMode st) eqn:Ht;
    try (simpl; split; [reflexivity|]; split; [assumption|];
         repeat split; solve [reflexivity | assumption]).
  destruct (draw_ready w h c st x y HR) as (H1 & H2 & H3 & H4 & H5 & H6).
  unfold run in *. split; [assumption|]. split; [assumption|].
  repeat split; congruence.
Qed.

Lemma moves_ready w h c ps : forall st,
  Ready w h c st ->
  fst (moves rasterArc ps st) = Normal tt /\
  Ready w h c (run (moves rasterArc ps) st) /\
  undoStack (run (moves rasterArc ps) st) = undoStack st /\
  redoStack (run (moves rasterArc ps) st) = redoStack st /\
  toolMode (run (moves rasterArc ps) st) = toolMode st.
Proof.
  induction ps as [|p ps IH]; intros st HR.
  - simpl. split; [reflexivity|]. split; [assumption|]. repeat split; reflexivity.
  - destruct (onPointerMove_ready w h c st (fst p) (snd p) HR) as (H1 & H2 & H3 & H4 & H5 & H6).
    unfold run in *. simpl. unfold mbind, Handler_bind.
    rewrite event_idle by apply H2.
    destruct (onPointerMove rasterArc p.1 p.2 st) as [[[]|r] st1]; simpl in *; [|discriminate].
    destruct (IH st1 H2) as (I1 & I2 & I3 & I4 & I5).
    split; [assumption|]. split; [assumption|]. repeat split; congruence.
Qed.

(** [draw] does not look at the queue. *)
Lemma draw_queue x y q st :
  draw rasterArc x y (setUndoUpdates q st) =
    (fst (draw rasterArc x y st), setUndoUpdates q (snd (draw rasterArc x y st))).
Proof.
  unfold draw, mbind, mret, Handler_bind, Handler_ret, get, current, element, onCanvas, modify.
  simpl.
  destruct (toolMode st); simpl; try reflexivity.
  destruct (canvasRef st) as [c|]; simpl; [|reflexivity].
  destruct (decide (c ∈ dom (document st))); simpl; [|reflexivity].
  destruct (negb _); simpl; [reflexivity|].
  destruct (paintMode st); reflexivity.
Qed.

(** The pixels a stamp leaves depend on the canvas and the tool alone. *)
Lemma draw_document x y st1 st2 :
  document st1 = document st2 -> canvasRef st1 = canvasRef st2 ->
  toolMode st1 = toolMode st2 -> paintMode st1 = paintMode st2 ->
  brushSize st1 = brushSize st2 ->
  document (run (draw rasterArc x y) st1) = document (run (draw rasterArc x y) st2).
Proof.
  intros Hd Hc Ht Hp Hb.
  unfold run, draw, mbind, mret, Handler_bind, Handler_ret, get, current, element, onCanvas,
    modify. simpl.
  rewrite Ht. destruct (toolMode st2); simpl; try assumption.
  rewrite Hc. destruct (canvasRef st2) as [c|]; simpl; [|assumption].
  rewrite Hd. destruct (decide (c ∈ dom (document st2))); simpl; [|assumption].
  rewrite Hd. destruct (negb _); simpl; [assumption|].
  rewrite Hp, Hb. destruct (paintMode st2); simpl; rewrite Hd; reflexivity.
Qed.

(** The pointer-down event of the paint tool: the stamp is on the canvas
    when the render reads the snapshot. *)
Lemma press_ready w h c st x y :
  Ready w h c st -> toolMode st = ToolPaint ->
  let st' := run (event (onPointerDown keep rasterArc drawScaled hatch x y)) st in
  fst (event (onPointerDown keep rasterArc drawScaled hatch x y) st) = Normal tt /\
  Ready w h c st' /\
  undoStack st' = sliceLast keep (undoStack st) ++ [mkImageData w h (pixelsOf c st')] /\
  redoStack st' = [] /\
  toolMode st' = ToolPaint /\
  pixelsOf c st' = pixelsOf c (run (draw rasterArc x y) st).
Proof.
  intros HR Htool st'. subst st'.
  pose proof (saveSnapshot_ready w h c st HR) as Hsave.
  set (sta := setDrawing true (setRedoStack [] st)).
  assert (HRa : Ready w h c sta).
  { destruct HR. split; simpl; try assumption. constructor. }
  destruct (draw_ready w h c sta x y HRa) as (D1 & D2 & D3 & D4 & D5 & D6).
  assert (Hdown : onPointerDown keep rasterArc drawScaled hatch x y st =
                  (Normal tt,
                   setUndoUpdates [mkUpdater keep c] (run (draw rasterArc x y) sta))).
  { unfold onPointerDown, mbind, Handler_bind, get. cbn beta iota.
    rewrite Htool, Hsave. cbn beta iota. unfold modify. cbn beta iota.
    change (setDrawing true (setRedoStack [] (setUndoUpdates [mkUpdater keep c] st)))
      with (setUndoUpdates [mkUpdater keep c] sta).
    rewrite draw_queue, D1. reflexivity. }
  unfold run, event. rewrite Hdown.
  rewrite (render_snapshot w h c keep _ D2). cbn [fst snd].
  set (stb := run (draw rasterArc x y) sta) in *.
  split; [reflexivity|].
  split; [apply Ready_snapshot; assumption|].
  cbn [undoStack redoStack toolMode setUndoStack].
  rewrite D3, D4, D5. subst sta. cbn [undoStack redoStack toolMode setDrawing setRedoStack].
  split; [reflexivity|]. split; [reflexivity|]. split; [assumption|].
  unfold pixelsOf. cbn [document setUndoStack]. subst stb.
  rewrite (draw_document x y (setDrawing true (setRedoStack [] st)) st); reflexivity.
Qed.

(** A stroke of the paint tool clears the redo stack and paints; the
    snapshot it records holds its first stamp. *)
Lemma stroke_ready w h c st s :
  Ready w h c st -> toolMode st = ToolPaint ->
  let st' := run (stroke keep rasterArc drawScaled hatch s) st in
  fst (stroke keep rasterArc drawScaled hatch s st) = Normal tt /\
  Ready w h c st' /\
  undoStack st' =
    sliceLast keep (undoStack st) ++
    [mkImageData w h (pixelsOf c (run (draw rasterArc (fst (start s)) (snd (start s))) st))] /\
  redoStack st' = [] /\
  toolMode st' = ToolPaint.
Proof.
  intros HR Htool st'. subst st'.
  destruct (press_ready w h c st (fst (start s)) (snd (start s)) HR Htool)
    as (P1 & P2 & P3 & P4 & P5 & P6).
  unfold run, stroke, mbind, Handler_bind in *.
  destruct (event (onPointerDown keep rasterArc drawScaled hatch (start s).1 (start s).2) st)
    as [[[]|r] st2]; simpl in P1, P2, P3, P4, P5, P6; [|discriminate].
  destruct (moves_ready w h c (path s) st2 P2) as (M1 & M2 & M3 & M4 & M5).
  unfold run in *.
  destruct (moves rasterArc (path s) st2) as [[[]|r] st3]; simpl in M1, M2, M3, M4, M5;
    [|discriminate].
  assert (HR3 : Ready w h c (setDrawing false st3)).
  { destruct M2. split; simpl; assumption. }
  rewrite event_idle by apply HR3.
  unfold onPointerUp, modify. simpl.
  split; [reflexivity|]. split; [assumption|].
  rewrite M3, M4, M5, P3, P4, P5, P6.
  repeat split; reflexivity.
Qed.


Lemma sliceLast_length {A} (k : nat) (U : list A) :
  length (sliceLast k U) = Nat.min (length U) k.
Proof. unfold sliceLast. rewrite length_drop. lia. Qed.


(** As many [undo]s as the entries [L] on top of the history: they are all
    popped, and the surface shows the oldest of them. *)
Lemma undos_ready w h c L : forall st U,
  Ready w h c st -> undoStack st = U ++ L ->
  let st' := run (times (length L) undo) st in
  fst (times (length L) undo st) = Normal tt /\
  Ready w h c st' /\ undoStack st' = U /\
  length (redoStack st') = (length (redoStack st) + length L)%nat /\
  toolMode st' = toolMode st /\
  (forall s L', L = s :: L' -> pixelsOf c st' = data s).
Proof.
  induction L as [|x L IH] using rev_ind; intros st U HR HU st'; subst st'.
  - unfold run. simpl. unfold mret, Handler_ret. simpl.
    split; [reflexivity|]. split; [assumption|].
    rewrite app_nil_r in HU. split; [assumption|]. split; [lia|].
    split; [reflexivity|]. intros s L' HL. discriminate HL.
  - rewrite app_assoc in HU.
    destruct (undo_ready w h c st (U ++ L) x HR HU) as (U1 & U2 & U3 & U4 & U5 & U6).
    rewrite length_app, Nat.add_1_r. unfold run in *.
    change (times (S (length L)) undo st) with ((undo ;; times (length L) undo) st).
    unfold mbind, Handler_bind.
    destruct (undo st) as [[[]|r] st1]; simpl in U1, U2, U3, U4, U5, U6; [|discriminate].
    destruct (IH st1 U U2 U4) as (I1 & I2 & I3 & I4 & I5 & I6).
    split; [assumption|]. split; [assumption|]. split; [assumption|].
    split; [rewrite I4, U5, length_app; simpl; lia|].
    split; [congruence|].
    intros s L' HL. destruct L as [|y L0].
    + simpl in HL. inversion HL; subst. simpl in *. congruence.
    + simpl in HL. inversion HL; subst. apply (I6 s L0). reflexivity.
Qed.


Lemma strokes_length w h c ss : forall st,
  Ready w h c st -> toolMode st = ToolPaint ->
  let st' := run (strokes keep rasterArc drawScaled hatch ss) st in
  fst (strokes keep rasterArc drawScaled hatch ss st) = Normal tt /\
  Ready w h c st' /\
  (ss <> [] ->
   length (undoStack st') = Nat.min (length (undoStack st) + length ss) (S keep)).
Proof.
  induction ss as [|s ss IH]; intros st HR Htool st'; subst st'.
  - unfold run. simpl. unfold mret, Handler_ret. simpl.
    split; [reflexivity|]. split; [assumption|]. congruence.
  - destruct (stroke_ready w h c st s HR Htool) as (S1 & S2 & S3 & S4 & S5).
    unfold run in *.
    change (strokes keep rasterArc drawScaled hatch (s :: ss) st)
      with ((stroke keep rasterArc drawScaled hatch s ;;
             strokes keep rasterArc drawScaled hatch ss) st).
    unfold mbind, Handler_bind.
    destruct (stroke keep rasterArc drawScaled hatch s st) as [[[]|r] st1];
      simpl in S1, S2, S3, S4, S5; [|discriminate].
    destruct (IH st1 S2 S5) as (I1 & I2 & I3).
    split; [assumption|]. split; [assumption|]. intros _.
    assert (H1 : length (undoStack st1) = S (Nat.min (length (undoStack st)) keep)).
    { rewrite S3, length_app, sliceLast_length. simpl. lia. }
    destruct ss as [|s' ss'].
    + unfold strokes, mret, Handler_ret. simpl. lia.
    + rewrite I3 by discriminate. simpl length. lia.
Qed.

(** C1.  After more than [keep] recorded strokes the undo stack holds
    [keep + 1] snapshots, and each of [keep + 1] successive [undo]s returns
    and pops one: with [keep = 30] and 40 strokes, 31 [undo]s succeed. *)
Theorem history_holds_one_more_than_keep w h c st ss :
  Ready w h c st -> toolMode st = ToolPaint -> (keep < length ss)%nat ->
  let st1 := run (strokes keep rasterArc drawScaled hatch ss) st in
  fst (strokes keep rasterArc drawScaled hatch ss st) = Normal tt /\
  length (undoStack st1) = S keep /\
  forall k, (k <= S keep)%nat ->
    fst (times k undo st1) = Normal tt /\
    length (undoStack (run (times k undo) st1)) = (S keep - k)%nat.
Proof.
  intros HR Htool Hlen st1.
  destruct (strokes_length w h c ss st HR Htool) as (S1 & S2 & S3).
  fold st1 in S2, S3.
  assert (Hss : ss <> []) by (destruct ss; [simpl in Hlen; lia | discriminate]).
  specialize (S3 Hss).
  assert (Hl : length (undoStack st1) = S keep) by lia.
  split; [assumption|]. split; [assumption|].
  intros k Hk.
  pose proof (take_drop (S keep - k) (undoStack st1)) as Hsplit. symmetry in Hsplit.
  assert (Hd : length (drop (S keep - k) (undoStack st1)) = k).
  { rewrite length_drop. lia. }
  destruct (undos_ready w h c _ st1 _ S2 Hsplit) as (U1 & U2 & U3 & _).
  rewrite Hd in U1, U3. split; [assumption|].
  rewrite U3, length_take. lia.
Qed.

End HistoryFacts.

(** ** Handlers with nothing to work on *)

Section FrameFacts.

Context {N : JSNumber}.
Variable rasterArc :
  CompositeOperation -> Color -> Number -> Number -> Number -> Z -> Z -> list Z -> list Z.
Variable hatch : Z -> Z -> list Z.

Lemma current_none ref st : ref st = None -> current ref st = (Normal None, st).
Proof. intros H. unfold current. rewrite H. reflexivity. Qed.

(** C8.  With no paint canvas mounted, [exportMask] answers [null] and a
    stamp does nothing; neither throws, and the state is left as it was. *)
Theorem unready_surface_is_noop (st : Editor) :
  canvasRef st = None ->
  exportMask st = (Normal None, st) /\
  forall x y, draw rasterArc x y st = (Normal tt, st).
Proof.
  intros Hnone. split.
  - unfold exportMask, mbind, Handler_bind. rewrite (current_none canvasRef st Hnone).
    reflexivity.
  - intros x y. unfold draw, mbind, Handler_bind, get. cbn beta iota.
    destruct (toolMode st); try reflexivity.
    rewrite (current_none canvasRef st Hnone). reflexivity.
Qed.

(** C7.  With no selection mask, the swap-selection button returns without
    a change: the mask stays absent and the selection flag stays false. *)
Theorem invert_without_selection_is_noop (st : Editor) :
  selectionMaskRef st = None ->
  swapSelection hatch st = (Normal tt, st) /\
  selectionMaskRef (run (swapSelection hatch) st) = None /\
  (hasSmartSelection st = false ->
   hasSmartSelection (run (swapSelection hatch) st) = false).
Proof.
  intros Hnone.
  assert (E : swapSelection hatch st = (Normal tt, st)).
  { unfold swapSelection, mbind, Handler_bind, get. cbn beta iota. rewrite Hnone.
    reflexivity. }
  unfold run. rewrite E. simpl. split; [reflexivity|]. split; [assumption|]. tauto.
Qed.

End FrameFacts.

(** ** What the export leaves alone *)

Section ExportFrame.

Context {N : JSNumber}.

(** Whatever [exportMask] does (answer a mask, answer [null] or throw), it
    changes no element of the document and no ref or state of the editor;
    it only adds an element. *)
Lemma exportMask_frame (st : Editor) :
  let st' := run exportMask st in
  (forall c, c ∈ dom (document st) -> document st' !! c = document st !! c) /\
  canvasRef st' = canvasRef st /\
  selectionCanvasRef st' = selectionCanvasRef st /\
  selectionMaskRef st' = selectionMaskRef st /\
  hasSmartSelection st' = hasSmartSelection st /\
  undoStack st' = undoStack st /\
  redoStack st' = redoStack st /\
  naturalSize st' = naturalSize st /\
  toolMode st' = toolMode st /\
  drawing st' = drawing st.
Proof.
  intros st'. subst st'. unfold run, exportMask, mbind, mret, Handler_bind, Handler_ret.
  unfold current.
  assert (Hfresh : forall c, c ∈ dom (document st) -> fresh (dom (document st)) <> c).
  { intros c Hc E. subst c. exact (is_fresh _ Hc). }
  set (m := fresh (dom (document st))) in *.
  destruct (canvasRef st) as [c|] eqn:Href;
    [|simpl; repeat split; solve [reflexivity | assumption]].
  destruct (decide (c ∈ dom (document st)));
    [|simpl; repeat split; solve [reflexivity | assumption]].
  unfold element, get, createCanvas, onCanvas, modify, liftDom. cbn beta iota zeta.
  destruct (negb (context2d (default defaultCanvas (document st !! c))));
    [simpl; repeat split; solve [reflexivity | assumption]|].
  cbn [document setDocument fst snd].
  repeat match goal with
  | |- context [if ?b then _ else _] => destruct b
  | |- context [match getImageData ?cv with _ => _ end] => destruct (getImageData cv)
  end; cbn [fst snd document setDocument canvasRef selectionCanvasRef selectionMaskRef
            hasSmartSelection undoStack redoStack naturalSize toolMode drawing];
  (split; [|repeat split; solve [reflexivity | assumption]]);
  intros c' Hc'; rewrite ?lookup_alter_ne, ?lookup_insert_ne by (apply Hfresh; assumption);
  reflexivity.
Qed.

(** C10.  Whatever [exportMask] does (answer a mask, answer [null] or
    throw), the pixels of the paint canvas, every canvas element of the
    document, the selection mask, both history stacks and every other ref
    and state are after the call what they were before it; the mask is
    built on an element that is new to the document. *)
Theorem exportMask_read_only (st : Editor) :
  let st' := run exportMask st in
  (forall c, canvasRef st = Some c -> pixelsOf c st' = pixelsOf c st) /\
  (forall c, c ∈ dom (document st) -> document st' !! c = document st !! c) /\
  dom (document st) ⊆ dom (document st') /\
  canvasRef st' = canvasRef st /\
  selectionCanvasRef st' = selectionCanvasRef st /\
  selectionMaskRef st' = selectionMaskRef st /\
  hasSmartSelection st' = hasSmartSelection st /\
  undoStack st' = undoStack st /\
  redoStack st' = redoStack st /\
  naturalSize st' = naturalSize st /\
  toolMode st' = toolMode st /\
  drawing st' = drawing st.
Proof.
  intros st'. destruct (exportMask_frame st) as (Hdoc & Hrest). fold st' in Hdoc, Hrest.
  split; [|split; [assumption|split; [|assumption]]].
  - intros c Href. unfold pixelsOf.
    destruct (decide (c ∈ dom (document st))) as [Hin|Hout].
    + rewrite (Hdoc c Hin). reflexivity.
    + assert (E : exportMask st = (Normal None, st)).
      { unfold exportMask, mbind, Handler_bind, current. rewrite Href.
        destruct (decide (c ∈ dom (document st))); [contradiction|reflexivity]. }
      unfold st', run. rewrite E. reflexivity.
  - intros c Hc. apply elem_of_dom. rewrite (Hdoc c Hc). apply elem_of_dom. assumption.
Qed.

End ExportFrame.

(** ** Loops of point writes *)

Lemma setByte_length a i v : length (setByte a i v) = length a.
Proof. unfold setByte. destruct (i <? 0); [reflexivity | apply length_insert]. Qed.

Lemma getByte_setByte_eq a i v :
  0 <= i -> (Z.to_nat i < length a)%nat -> getByte (setByte a i v) i = Some v.
Proof.
  intros Hi Hlen. unfold getByte, setByte.
  destruct (Z.ltb_spec i 0); [lia|]. apply list_lookup_insert_eq. assumption.
Qed.

Lemma getByte_setByte_ne a i j v :
  i <> j -> getByte (setByte a i v) j = getByte a j.
Proof.
  intros Hne. unfold getByte, setByte.
  destruct (Z.ltb_spec j 0); [reflexivity|].
  destruct (Z.ltb_spec i 0); [reflexivity|].
  apply list_lookup_insert_ne. lia.
Qed.

(** A loop that writes [v] at each index of [ws], read back at [j]. *)
Lemma writes_lookup (v : Z) (ws : list Z) : forall (a : list Z) (j : Z),
  let a' := fold_left (fun a i => setByte a i v) ws a in
  length a' = length a /\
  (0 <= j -> (Z.to_nat j < length a)%nat ->
   getByte a' j = if decide (j ∈ ws) then Some v else getByte a j).
Proof.
  induction ws as [|i ws IH]; intros a j a'; subst a'.
  - simpl. split; [reflexivity|]. intros _ _. reflexivity.
  - simpl. destruct (IH (setByte a i v) j) as [Hlen Hget].
    rewrite setByte_length in Hlen, Hget. split; [assumption|].
    intros Hj Hin. rewrite (Hget Hj Hin).
    destruct (decide (j ∈ ws)) as [Hws|Hws].
    + rewrite decide_True by (right; assumption). reflexivity.
    + destruct (decide (i = j)) as [->|Hne].
      * rewrite decide_True by left. apply getByte_setByte_eq; assumption.
      * rewrite decide_False.
        -- apply getByte_setByte_ne. assumption.
        -- intros Hc. apply elem_of_cons in Hc as [Hc|Hc]; [congruence|contradiction].
Qed.

(** A nested loop is one loop over the concatenated work lists. *)
Lemma fold_left_bind {A B C} (f : A -> C -> A) (g : B -> list C) (l : list B) :
  forall a, fold_left (fun a x => fold_left f (g x) a) l a = fold_left f (l ≫= g) a.
Proof.
  induction l as [|x l IH]; intros a.
  - reflexivity.
  - rewrite bind_cons, fold_left_app. simpl. apply IH.
Qed.

Lemma fold_left_ext {A B} (f g : A -> B -> A) (l : list B) :
  (forall a x, f a x = g a x) -> forall a, fold_left f l a = fold_left g l a.
Proof.
  intros H. induction l as [|x l IH]; intros a; simpl; [reflexivity|].
  rewrite H. apply IH.
Qed.

Lemma fold_left_fmap {A B C} (f : A -> C -> A) (h : B -> C) (l : list B) :
  forall a, fold_left (fun a x => f a (h x)) l a = fold_left f (h <$> l) a.
Proof. induction l as [|x l IH]; intros a; simpl; [reflexivity|apply IH]. Qed.

Lemma clearBlock_writes maskW maskH tx ty bw bh md :
  clearBlock maskW maskH tx ty bw bh md =
  fold_left (fun md i => setByte md i 0) (blockWrites maskW maskH tx ty bw bh) md.
Proof.
  unfold clearBlock, blockWrites. rewrite <- fold_left_bind.
  apply fold_left_ext. intros a by_. cbn beta zeta.
  rewrite <- fold_left_fmap. reflexivity.
Qed.

Lemma projectMask_writes {N : JSNumber} cw ch dd mw mh sx sy md :
  projectMask cw ch dd mw mh sx sy md =
  fold_left (fun md i => setByte md i 0) (maskWrites cw ch dd mw mh sx sy) md.
Proof.
  unfold projectMask, maskWrites. rewrite <- fold_left_bind.
  apply fold_left_ext. intros a dy. cbn beta zeta.
  rewrite <- fold_left_bind.
  apply fold_left_ext. intros a' dx. cbn beta zeta.
  destruct (above _ 10); [apply clearBlock_writes | reflexivity].
Qed.

(** ** The exported mask *)

#[local] Arguments toDimension : simpl never.
#[local] Arguments transparent : simpl never.
#[local] Arguments projectMask : simpl never.
#[local] Arguments fillBlack : simpl never.

Section ExportFacts.

Context {N : JSNumber} {SM : StandardModel N}.

Lemma setWidth_num z cv :
  0 <= z <= 2147483647 ->
  setWidth (num z) cv = mkCanvas z (height cv) (context2d cv) (transparent z (height cv)).
Proof. intros Hz. unfold setWidth. rewrite toDimension_num by assumption. reflexivity. Qed.

Lemma setHeight_num z cv :
  0 <= z <= 2147483647 ->
  setHeight (num z) cv = mkCanvas (width cv) z (context2d cv) (transparent (width cv) z).
Proof. intros Hz. unfold setHeight. rewrite toDimension_num by assumption. reflexivity. Qed.

Lemma transparent_length w h : length (transparent w h) = Z.to_nat (4 * (w * h)).
Proof. unfold transparent. apply length_replicate. Qed.

Lemma opaqueBlack_length w h : length (opaqueBlack w h) = Z.to_nat (4 * (w * h)).
Proof.
  unfold opaqueBlack, fillBlack. simpl. rewrite length_imap. apply transparent_length.
Qed.

Lemma projectMask_length cw ch dd mw mh (sx sy : Number) md :
  length (projectMask cw ch dd mw mh sx sy md) = length md.
Proof. rewrite projectMask_writes. apply (writes_lookup 0 _ md 0). Qed.

Lemma maskPixels_length cv natW natH :
  length (maskPixels cv natW natH) = Z.to_nat (4 * (natW * natH)).
Proof. unfold maskPixels. rewrite projectMask_length. apply opaqueBlack_length. Qed.

(** With the surface allocated and the image size known, [exportMask]
    returns the mask bitmap. *)
Lemma exportMask_result st c cv natW natH :
  canvasRef st = Some c -> document st !! c = Some cv -> context2d cv = true ->
  width cv <> 0 -> height cv <> 0 ->
  naturalSize st = (natW, natH) ->
  0 < natW <= 2147483647 -> 0 < natH <= 2147483647 ->
  fst (exportMask st) = Normal (Some (mkImageData natW natH (maskPixels cv natW natH))).
Proof.
  intros Href Hcv Hctx Hw Hh Hnat HnatW HnatH.
  assert (Hdom : c ∈ dom (document st)) by (apply elem_of_dom; eauto).
  assert (Hm : fresh (dom (document st)) <> c).
  { intros E. rewrite <- E in Hdom. exact (is_fresh _ Hdom). }
  unfold exportMask, mbind, mret, Handler_bind, Handler_ret, current.
  rewrite Href. rewrite decide_True by assumption.
  unfold element, get, createCanvas, onCanvas, modify. cbn beta iota zeta.
  set (m := fresh (dom (document st))) in *.
  repeat (cbn beta iota zeta;
          cbn [document setDocument fst snd naturalSize default from_option id fmap
               option_fmap option_map negb orb width height context2d data img_width
               img_height bitmap defaultCanvas];
          rewrite ?Hnat;
          rewrite ?lookup_alter_eq, ?lookup_insert_eq;
          rewrite ?lookup_alter_ne, ?lookup_insert_ne by assumption;
          rewrite ?Hcv, ?Hctx;
          rewrite ?(setWidth_num natW), ?(setHeight_num natH) by lia).
  change (fillBlack (mkCanvas natW natH true (transparent natW natH)))
    with (mkCanvas natW natH true (opaqueBlack natW natH)).
  unfold liftDom, getImageData.
  destruct (Z.eqb_spec (width cv) 0); [contradiction|].
  destruct (Z.eqb_spec (height cv) 0); [contradiction|].
  cbn [width height].
  destruct (Z.eqb_spec natW 0); [lia|]. destruct (Z.eqb_spec natH 0); [lia|].
  repeat (cbn beta iota zeta;
          cbn [document setDocument fst snd naturalSize default from_option id fmap
               option_fmap option_map negb orb width height context2d data img_width
               img_height bitmap defaultCanvas];
          rewrite ?lookup_alter_eq, ?lookup_insert_eq;
          rewrite ?(setWidth_num natW), ?(setHeight_num natH) by lia).
  change (fillBlack (mkCanvas natW natH true (transparent natW natH)))
    with (mkCanvas natW natH true (opaqueBlack natW natH)).
  rewrite (putImageData_fits natW natH true (opaqueBlack natW natH)).
  - reflexivity.
  - lia.
  - split; [reflexivity|]. split; [reflexivity|]. cbn [data bitmap].
    apply maskPixels_length.
  - apply opaqueBlack_length.
Qed.

(** A second export answers the mask the first one answered. *)
Lemma exportMask_repeatable st c cv natW natH :
  canvasRef st = Some c -> document st !! c = Some cv -> context2d cv = true ->
  width cv <> 0 -> height cv <> 0 ->
  naturalSize st = (natW, natH) ->
  0 < natW <= 2147483647 -> 0 < natH <= 2147483647 ->
  fst (exportMask (run exportMask st)) = fst (exportMask st).
Proof.
  intros Href Hcv Hctx Hw Hh Hnat HnatW HnatH.
  pose proof (exportMask_frame st) as F. cbv zeta in F.
  destruct F as (Hdoc & Href' & _ & _ & _ & _ & _ & Hnat' & _).
  rewrite (exportMask_result st c cv natW natH) by assumption.
  apply (exportMask_result _ c cv natW natH); try assumption.
  - rewrite Href'. assumption.
  - rewrite Hdoc; [assumption | apply elem_of_dom; eauto].
  - rewrite Hnat'. assumption.
Qed.

Lemma value_nonneg_floor (x : Number) : (0 <= value x)%Q -> 0 <= floor x.
Proof. intros H. unfold floor. change 0 with (Qfloor 0). apply Qfloor_resp_le. assumption. Qed.

(** The anchor of a block is never negative. *)
Lemma anchor_nonneg d n c :
  0 <= d <= 2147483647 -> 0 <= n <= 2147483647 -> 0 < c <= 2147483647 ->
  0 <= floor (mul (num d) (div (num n) (num c))).
Proof.
  intros Hd Hn Hc. apply value_nonneg_floor.
  destruct (ratio_close n c ltac:(lia) ltac:(lia)) as (Hr0 & _ & _).
  destruct (mul_close (num d) (div (num n) (num c))) as [Hlo _].
  { rewrite value_num by lia. apply inject_Z_nonneg. lia. }
  { assumption. }
  pose proof (inject_Z_nonneg d ltac:(lia)) as Hd0.
  rewrite value_num in Hlo by lia. unfold roundoff in Hlo.
  set (r := value (div (num n) (num c))) in *.
  set (v := value (mul (num d) (div (num n) (num c)))) in *.
  set (D := inject_Z d) in *. nra.
Qed.

Lemma index_injective w x y x' y' :
  0 <= x < w -> 0 <= x' < w -> y * w + x = y' * w + x' -> x = x' /\ y = y'.
Proof. intros Hx Hx' E. assert (y = y') by nia. subst. lia. Qed.

Lemma elem_of_blockWrites maskW maskH tx ty bw bh j :
  j ∈ blockWrites maskW maskH tx ty bw bh <->
  exists bx by_, 0 <= bx < bw /\ 0 <= by_ < bh /\
    j = (Z.min (ty + by_) (maskH - 1) * maskW + Z.min (tx + bx) (maskW - 1)) * 4 + 3.
Proof.
  unfold blockWrites. rewrite list_elem_of_bind. split.
  - intros (by_ & Hj & Hby). apply list_elem_of_fmap in Hj as (bx & -> & Hbx).
    apply elem_of_seqZ in Hby, Hbx. exists bx, by_. repeat split; lia.
  - intros (bx & by_ & Hbx & Hby & ->). exists by_. split.
    + apply list_elem_of_fmap. exists bx. split; [reflexivity|].
      apply elem_of_seqZ. lia.
    + apply elem_of_seqZ. lia.
Qed.

Lemma elem_of_maskWrites cv natW natH j :
  j ∈ maskWrites (width cv) (height cv) (bitmap cv) natW natH
        (div (num natW) (num (width cv))) (div (num natH) (num (height cv))) <->
  exists dx dy fx fy, paintedAt cv dx dy /\ inBlock cv natW natH dx dy fx fy /\
    j = (fy * natW + fx) * 4 + 3.
Proof.
  unfold maskWrites. rewrite list_elem_of_bind. split.
  - intros (dy & Hj & Hdy). apply list_elem_of_bind in Hj as (dx & Hj & Hdx).
    apply elem_of_seqZ in Hdy, Hdx.
    destruct (above _ 10) eqn:Hp; [|apply elem_of_nil in Hj; contradiction].
    apply elem_of_blockWrites in Hj as (bx & by_ & Hbx & Hby & ->).
    exists dx, dy. eexists. eexists. split; [|split; [|reflexivity]].
    + repeat split; try lia. assumption.
    + exists bx, by_. repeat split; try lia.
  - intros (dx & dy & fx & fy & (Hdx & Hdy & Hp) & (bx & by_ & Hbx & Hby & -> & ->) & ->).
    exists dy. split; [|apply elem_of_seqZ; lia].
    apply list_elem_of_bind. exists dx. split; [|apply elem_of_seqZ; lia].
    rewrite Hp. apply elem_of_blockWrites. exists bx, by_. repeat split; lia.
Qed.

Lemma opaqueBlack_alpha w h j :
  0 <= j < w * h -> getByte (opaqueBlack w h) (j * 4 + 3) = Some 255.
Proof.
  intros Hj. unfold opaqueBlack, fillBlack, getByte. cbn [bitmap].
  destruct (Z.ltb_spec (j * 4 + 3) 0); [lia|].
  rewrite list_lookup_imap.
  destruct (transparent w h !! Z.to_nat (j * 4 + 3)) eqn:E.
  - simpl. rewrite Z2Nat.id by lia.
    replace ((j * 4 + 3) mod 4) with 3 by (rewrite Z.add_comm, Z.mod_add by lia; reflexivity).
    reflexivity.
  - apply lookup_ge_None in E. rewrite transparent_length in E. lia.
Qed.

(** C2.  With the surface allocated and the image size known, [exportMask]
    returns a bitmap of the image size in which a pixel has alpha 0 when it
    lies in the block of a painted display pixel, and alpha 255 otherwise. *)
Theorem exportMask_clears_blocks st c cv natW natH :
  canvasRef st = Some c -> document st !! c = Some cv -> context2d cv = true ->
  0 < width cv <= 2147483647 -> 0 < height cv <= 2147483647 ->
  naturalSize st = (natW, natH) ->
  0 < natW <= 2147483647 -> 0 < natH <= 2147483647 ->
  exists art,
    fst (exportMask st) = Normal (Some art) /\
    img_width art = natW /\ img_height art = natH /\
    forall fx fy, 0 <= fx < natW -> 0 <= fy < natH ->
      (cleared cv natW natH fx fy -> alphaAt art fx fy = Some 0) /\
      (~ cleared cv natW natH fx fy -> alphaAt art fx fy = Some 255).
Proof.
  intros Href Hcv Hctx Hw Hh Hnat HnatW HnatH.
  exists (mkImageData natW natH (maskPixels cv natW natH)).
  split; [apply (exportMask_result st c cv natW natH); (assumption || lia)|].
  split; [reflexivity|]. split; [reflexivity|].
  intros fx fy Hfx Hfy. unfold alphaAt. cbn [data img_width].
  set (j := (fy * natW + fx) * 4 + 3).
  assert (Hj : 0 <= fy * natW + fx < natW * natH) by nia.
  unfold maskPixels. rewrite projectMask_writes.
  destruct (writes_lookup 0 (maskWrites (width cv) (height cv) (bitmap cv) natW natH
              (div (num natW) (num (width cv))) (div (num natH) (num (height cv))))
              (opaqueBlack natW natH) j) as [_ Hget].
  rewrite Hget by (rewrite ?opaqueBlack_length; subst j; lia).
  split.
  - intros (dx & dy & Hp & Hb).
    rewrite decide_True; [reflexivity|].
    apply elem_of_maskWrites. exists dx, dy, fx, fy.
    split; [assumption|]. split; [assumption|reflexivity].
  - intros Hnot. rewrite decide_False.
    + subst j. apply opaqueBlack_alpha. assumption.
    + intros Hin. apply elem_of_maskWrites in Hin
        as (dx & dy & fx' & fy' & Hp & Hb & E).
      apply Hnot. exists dx, dy.
      split; [assumption|].
      pose proof Hb as (bx & by_ & Hbx & Hby & Ex & Ey).
      destruct Hp as (Hdx & Hdy & _).
      pose proof (anchor_nonneg dx natW (width cv) ltac:(lia) ltac:(lia) ltac:(lia)) as Hax.
      pose proof (anchor_nonneg dy natH (height cv) ltac:(lia) ltac:(lia) ltac:(lia)) as Hay.
      cbv zeta in Ex, Ey.
      destruct (index_injective natW fx fy fx' fy') as [-> ->];
        [lia | lia | subst j; lia | assumption].
Qed.

End ExportFacts.

(** ** The flood fill *)

Section FillFacts.

Variables (w h : Z) (data : list Z) (seedR seedG seedB : option Z) (seed : Z).
Hypothesis w_pos : 0 < w.
Hypothesis h_pos : 0 < h.

#[local] Abbreviation exceeds := (exceedsTolerance data seedR seedG seedB).
#[local] Abbreviation Inv := (FillInv w h data seedR seedG seedB seed).
#[local] Abbreviation Push := (PushInv w h data seedR seedG seedB).

Lemma neighbors_range pos n :
  0 <= pos < w * h -> n ∈ neighbors w h pos -> n = -1 \/ 0 <= n < w * h.
Proof.
  intros Hpos Hn. unfold neighbors in Hn.
  rewrite Z.rem_mod_nonneg in Hn by lia.
  pose proof (Z.mod_pos_bound pos w w_pos) as Hpx.
  pose proof (Z.div_mod pos w ltac:(lia)) as Hdm.
  assert (Hq : (pos - pos mod w) / w = pos / w).
  { replace (pos - pos mod w) with (pos / w * w) by lia. apply Z.div_mul. lia. }
  rewrite Hq in Hn.
  assert (Hpy : 0 <= pos / w < h).
  { split; [apply Z.div_pos; lia | apply Z.div_lt_upper_bound; lia]. }
  set (py := pos / w) in *. set (px := pos mod w) in *.
  repeat (apply elem_of_cons in Hn as [Hn|Hn]); [| | | |apply elem_of_nil in Hn; contradiction];
    subst n.
  - destruct (Z.ltb_spec 0 px); [right; lia | left; reflexivity].
  - destruct (Z.ltb_spec px (w - 1)); [right; nia | left; reflexivity].
  - destruct (Z.ltb_spec 0 py); [right; nia | left; reflexivity].
  - destruct (Z.ltb_spec py (h - 1)); [right; nia | left; reflexivity].
Qed.

Lemma getByte_in_range (a : list Z) p :
  0 <= p -> (Z.to_nat p < length a)%nat -> exists v, getByte a p = Some v.
Proof.
  intros Hp Hl. unfold getByte. destruct (Z.ltb_spec p 0); [lia|].
  destruct (a !! Z.to_nat p) eqn:E; [eauto|]. apply lookup_ge_None in E. lia.
Qed.

(** The marked positions are exactly those on the stack or popped. *)
Lemma marked_tracked visited stack popped p :
  Inv visited stack popped -> 0 <= p < w * h ->
  getByte visited p <> Some 0 -> p ∈ stack ++ popped.
Proof.
  intros HI Hp Hne. destruct (decide (p ∈ stack ++ popped)) as [Hin|Hout]; [assumption|].
  exfalso. apply Hne. apply (inv_rest _ _ _ _ _ _ _ _ _ _ HI); assumption.
Qed.

Lemma tracked_marked visited stack popped p :
  Inv visited stack popped -> p ∈ stack ++ popped ->
  getByte visited p = Some 1 \/ getByte visited p = Some 2.
Proof.
  intros HI Hin. apply elem_of_app in Hin as [Hin|Hin].
  - left. apply (inv_stack _ _ _ _ _ _ _ _ _ _ HI). assumption.
  - rewrite (inv_popped _ _ _ _ _ _ _ _ _ _ HI p Hin).
    destruct (exceeds p); [left|right]; reflexivity.
Qed.

Lemma pushNeighbor_inv popped visited stack n :
  Push popped visited stack -> n = -1 \/ 0 <= n < w * h ->
  let vs := pushNeighbor (visited, stack) n in
  Push popped (fst vs) (snd vs) /\
  (0 <= n -> n ∈ snd vs ++ popped) /\
  (forall p, p ∈ snd vs -> p ∈ stack \/ p = n) /\
  (forall p, p ∈ stack -> p ∈ snd vs).
Proof.
  intros [Hlen Hrange Hnodup Hstack Hrest Hpopped] Hn vs. subst vs.
  unfold pushNeighbor, unvisited. cbn [fst snd].
  destruct (Z.leb_spec 0 n) as [Hn0|Hneg]; cbn [andb].
  2: { split; [split; assumption|]. split; [lia|]. split; [tauto|tauto]. }
  destruct Hn as [-> | Hn]; [lia|].
  destruct (getByte_in_range visited n ltac:(lia) ltac:(lia)) as [v Hv].
  rewrite Hv. cbn [falsy].
  destruct (Z.eqb_spec v 0) as [-> | Hv0].
  - assert (Hout : n ∉ stack ++ popped).
    { intros Hin. apply elem_of_app in Hin as [Hin|Hin].
      - rewrite (Hstack n Hin) in Hv. discriminate.
      - rewrite (Hpopped n Hin) in Hv. destruct (exceeds n); discriminate. }
    cbn [fst snd]. split; [split|].
    + rewrite setByte_length. assumption.
    + intros p Hp. apply elem_of_cons in Hp as [-> | Hp]; [lia|auto].
    + simpl. apply NoDup_cons. split; assumption.
    + intros p Hp. apply elem_of_cons in Hp as [-> | Hp].
      * apply getByte_setByte_eq; lia.
      * rewrite getByte_setByte_ne; [auto|].
        intros ->. apply Hout. apply elem_of_app. left. assumption.
    + intros p Hp Hp'. rewrite getByte_setByte_ne.
      * apply Hrest; [assumption|]. intros Hin. apply Hp'. right. assumption.
      * intros ->. apply Hp'. left.
    + intros p Hp. rewrite getByte_setByte_ne; [auto|].
      intros ->. apply Hout. apply elem_of_app. right. assumption.
    + split; [intros _; left|]. split.
      * intros p Hp. apply elem_of_cons in Hp as [-> | Hp]; [right; reflexivity|left; assumption].
      * intros p Hp. right. assumption.
  - split; [split; assumption|]. split; [|split; [tauto|tauto]].
    intros _. destruct (decide (n ∈ stack ++ popped)) as [Hin|Hout]; [assumption|].
    rewrite (Hrest n Hn Hout) in Hv. congruence.
Qed.

Lemma pushNeighbors_inv popped ns : forall visited stack,
  Push popped visited stack -> (forall n, n ∈ ns -> n = -1 \/ 0 <= n < w * h) ->
  let vs := fold_left pushNeighbor ns (visited, stack) in
  Push popped (fst vs) (snd vs) /\
  (forall n, n ∈ ns -> 0 <= n -> n ∈ snd vs ++ popped) /\
  (forall p, p ∈ snd vs -> p ∈ stack \/ p ∈ ns) /\
  (forall p, p ∈ stack -> p ∈ snd vs).
Proof.
  induction ns as [|n ns IH]; intros visited stack HI Hns vs; subst vs.
  - simpl. split; [assumption|]. split; [|split; [tauto|tauto]].
    intros n Hn. apply elem_of_nil in Hn. contradiction.
  - simpl.
    destruct (pushNeighbor_inv popped visited stack n HI) as (H1 & H2 & H3 & H4).
    { apply Hns. left. }
    destruct (pushNeighbor (visited, stack) n) as [v1 s1] eqn:E. cbn [fst snd] in *.
    destruct (IH v1 s1 H1) as (I1 & I2 & I3 & I4).
    { intros k Hk. apply Hns. right. assumption. }
    split; [assumption|]. split; [|split].
    + intros k Hk Hk0. apply elem_of_cons in Hk as [-> | Hk]; [|auto].
      specialize (H2 Hk0). apply elem_of_app in H2 as [H2|H2].
      * apply elem_of_app. left. auto.
      * apply elem_of_app. right. assumption.
    + intros p Hp. destruct (I3 p Hp) as [Hp'|Hp'].
      * destruct (H3 p Hp') as [? | ->]; [left; assumption|right; left].
      * right. right. assumption.
    + intros p Hp. auto.
Qed.

Lemma fillStep_inv visited pos stack popped :
  Inv visited (pos :: stack) popped ->
  let vs := fillStep w h data seedR seedG seedB pos visited stack in
  Inv (fst vs) (snd vs) (pos :: popped).
Proof.
  intros [Hlen Hrange Hnodup Hstack Hrest Hpopped Hneigh Hreach Hseed] vs. subst vs.
  assert (Hperm : forall l : list Z, l ++ pos :: popped ≡ₚ pos :: l ++ popped).
  { intros l. symmetry. apply Permutation_middle. }
  assert (Hpos : 0 <= pos < w * h) by (apply Hrange; left).
  assert (Hnodup' : NoDup (stack ++ pos :: popped)) by (rewrite Hperm; assumption).
  assert (Hfresh : pos ∉ stack ++ popped) by (apply NoDup_cons in Hnodup as [? _]; assumption).
  assert (Hmem : forall p l, p ∈ l ++ pos :: popped <-> p = pos \/ p ∈ l ++ popped).
  { intros p l. rewrite Hperm. apply elem_of_cons. }
  unfold fillStep. destruct (exceeds pos) eqn:Hex; cbn [fst snd].
  - split; try assumption.
    + intros p Hp. apply Hrange. apply Hmem in Hp as [-> | Hp]; [left|right; assumption].
    + intros p Hp. apply Hstack. right. assumption.
    + intros p Hp Hout. apply Hrest; [assumption|]. intros Hin. apply Hout.
      apply Hmem. apply elem_of_cons in Hin. assumption.
    + intros p Hp. apply elem_of_cons in Hp as [-> | Hp].
      * rewrite Hex. apply Hstack. left.
      * apply Hpopped. assumption.
    + intros p n Hp Hexp Hn Hn0. apply elem_of_cons in Hp as [-> | Hp]; [congruence|].
      apply Hmem. apply elem_of_cons. apply (Hneigh p n); assumption.
    + intros p Hp. apply Hmem in Hp.
      assert (Hin : p ∈ (pos :: stack) ++ popped) by (apply elem_of_cons; assumption).
      destruct (Hreach p Hin) as [? | (q & Hq & Hexq & Hpq)]; [left; assumption|].
      right. exists q. split; [right; assumption|]. split; assumption.
    + apply Hmem. apply elem_of_cons in Hseed. assumption.
  - assert (HP : Push (pos :: popped) (setByte visited pos 2) stack).
    { split.
      - rewrite setByte_length. assumption.
      - intros p Hp. apply Hrange. apply Hmem in Hp as [-> | Hp]; [left|right; assumption].
      - assumption.
      - intros p Hp. rewrite getByte_setByte_ne.
        + apply Hstack. right. assumption.
        + intros ->. apply Hfresh. apply elem_of_app. left. assumption.
      - intros p Hp Hout. rewrite getByte_setByte_ne.
        + apply Hrest; [assumption|]. intros Hin. apply Hout. apply Hmem.
          apply elem_of_cons in Hin. assumption.
        + intros ->. apply Hout. apply Hmem. left. reflexivity.
      - intros p Hp. apply elem_of_cons in Hp as [-> | Hp].
        + rewrite Hex. apply getByte_setByte_eq; lia.
        + rewrite getByte_setByte_ne; [apply Hpopped; assumption|].
          intros ->. apply Hfresh. apply elem_of_app. right. assumption. }
    destruct (pushNeighbors_inv (pos :: popped) (neighbors w h pos) _ _ HP)
      as ([Jlen Jrange Jnodup Jstack Jrest Jpopped] & I2 & I3 & I4).
    { intros n Hn. apply (neighbors_range pos n Hpos Hn). }
    destruct (fold_left pushNeighbor (neighbors w h pos) (setByte visited pos 2, stack))
      as [v' s'] eqn:E. cbn [fst snd] in *.
    split; try assumption.
    + intros p n Hp Hexp Hn Hn0. apply elem_of_cons in Hp as [-> | Hp]; [auto|].
      specialize (Hneigh p n Hp Hexp Hn Hn0).
      apply elem_of_cons in Hneigh as [-> | Hneigh].
      * apply elem_of_app. right. left.
      * apply elem_of_app in Hneigh as [Hs | Hp'].
        -- apply elem_of_app. left. auto.
        -- apply elem_of_app. right. right. assumption.
    + intros p Hp. apply elem_of_app in Hp as [Hp | Hp].
      * destruct (I3 p Hp) as [Hs | Hn].
        -- destruct (Hreach p) as [? | (q & Hq & Hexq & Hpq)].
           { right. apply elem_of_app. left. assumption. }
           { left. assumption. }
           right. exists q. split; [right; assumption|]. split; assumption.
        -- right. exists pos. split; [left|]. split; assumption.
      * destruct (Hreach p) as [? | (q & Hq & Hexq & Hpq)].
        { apply elem_of_cons in Hp as [-> | Hp]; [left|].
          right. apply elem_of_app. right. assumption. }
        { left. assumption. }
        right. exists q. split; [right; assumption|]. split; assumption.
    + apply elem_of_cons in Hseed as [-> | Hseed].
      * apply elem_of_app. right. left.
      * apply elem_of_app in Hseed as [Hs | Hp'].
        -- apply elem_of_app. left. auto.
        -- apply elem_of_app. right. right. assumption.
Qed.

Lemma nodup_bounded (l : list Z) (n : Z) :
  NoDup l -> (forall p, p ∈ l -> 0 <= p < n) -> (length l <= Z.to_nat n)%nat.
Proof.
  intros Hnd Hr.
  assert (Hsub : l ⊆+ seqZ 0 n).
  { apply NoDup_submseteq; [assumption|]. intros p Hp. apply elem_of_seqZ.
    specialize (Hr p Hp). lia. }
  apply submseteq_length in Hsub. rewrite length_seqZ in Hsub. assumption.
Qed.

(** With one turn of fuel for every position not yet popped, the loop runs
    until the stack is empty. *)
Lemma fillLoop_inv fuel : forall visited stack popped,
  Inv visited stack popped -> (Z.to_nat (w * h) <= fuel + length popped)%nat ->
  exists visited' popped',
    fillLoop w h data seedR seedG seedB fuel visited stack popped = Some (visited', popped') /\
    Inv visited' [] popped'.
Proof.
  induction fuel as [|fuel IH]; intros visited stack popped HI Hfuel.
  - destruct stack as [|pos stack].
    + exists visited, popped. split; [reflexivity|assumption].
    + exfalso.
      pose proof (nodup_bounded _ (w * h) (inv_nodup _ _ _ _ _ _ _ _ _ _ HI)
                    (inv_range _ _ _ _ _ _ _ _ _ _ HI)) as Hb.
      rewrite length_app in Hb. simpl in Hb, Hfuel. lia.
  - destruct stack as [|pos stack].
    + exists visited, popped. split; [reflexivity|assumption].
    + cbn [fillLoop]. apply IH.
      * apply fillStep_inv. assumption.
      * simpl. lia.
Qed.


End FillFacts.

Lemma neighbors_adjacent w h pos n :
  0 < w -> 0 <= pos < w * h -> n ∈ neighbors w h pos -> 0 <= n -> adjacent4 w pos n.
Proof.
  intros Hw Hpos Hn Hn0. unfold neighbors in Hn.
  rewrite Z.rem_mod_nonneg in Hn by lia.
  pose proof (Z.mod_pos_bound pos w Hw) as Hpx.
  pose proof (Z.div_mod pos w ltac:(lia)) as Hdm.
  assert (Hq : (pos - pos mod w) / w = pos / w).
  { replace (pos - pos mod w) with (pos / w * w) by lia. apply Z.div_mul. lia. }
  rewrite Hq in Hn. unfold adjacent4.
  set (py := pos / w) in *. set (px := pos mod w) in *.
  assert (Hdiv : forall y x, 0 <= x < w -> (y * w + x) / w = y /\ (y * w + x) mod w = x).
  { intros y x Hx. split.
    - symmetry. apply (Z.div_unique _ _ _ x); lia.
    - symmetry. apply (Z.mod_unique _ _ y); lia. }
  repeat (apply elem_of_cons in Hn as [Hn|Hn]); [| | | |apply elem_of_nil in Hn; contradiction];
    subst n.
  - destruct (Z.ltb_spec 0 px); [|lia].
    destruct (Hdiv py (px - 1) ltac:(lia)) as [E1 E2].
    replace (pos - 1) with (py * w + (px - 1)) by lia. rewrite E1, E2. left. lia.
  - destruct (Z.ltb_spec px (w - 1)); [|lia].
    destruct (Hdiv py (px + 1) ltac:(lia)) as [E1 E2].
    replace (pos + 1) with (py * w + (px + 1)) by lia. rewrite E1, E2. left. lia.
  - destruct (Z.ltb_spec 0 py); [|lia].
    destruct (Hdiv (py - 1) px ltac:(lia)) as [E1 E2].
    replace (pos - w) with ((py - 1) * w + px) by lia. rewrite E1, E2. right. lia.
  - destruct (Z.ltb_spec py (h - 1)); [|lia].
    destruct (Hdiv (py + 1) px ltac:(lia)) as [E1 E2].
    replace (pos + w) with ((py + 1) * w + px) by lia. rewrite E1, E2. right. lia.
Qed.

Lemma exceeds_distance data p q d :
  colorDistance data p q = Some d ->
  exceedsTolerance data (getByte data (q * 4)) (getByte data (q * 4 + 1))
    (getByte data (q * 4 + 2)) p = (96 <? d).
Proof.
  unfold colorDistance, exceedsTolerance. cbv zeta.
  destruct (absDiff (getByte data (p * 4)) (getByte data (q * 4))) as [r|]; [|discriminate].
  destruct (absDiff (getByte data (p * 4 + 1)) (getByte data (q * 4 + 1))) as [g|];
    [|discriminate].
  destruct (absDiff (getByte data (p * 4 + 2)) (getByte data (q * 4 + 2))) as [b|];
    [|discriminate].
  intros [= <-]. reflexivity.
Qed.

Lemma seed_within_tolerance data q :
  exceedsTolerance data (getByte data (q * 4)) (getByte data (q * 4 + 1))
    (getByte data (q * 4 + 2)) q = false.
Proof.
  unfold exceedsTolerance, absDiff. cbv zeta.
  destruct (getByte data (q * 4)) as [r|]; [|reflexivity].
  destruct (getByte data (q * 4 + 1)) as [g|]; [|reflexivity].
  destruct (getByte data (q * 4 + 2)) as [b|]; [|reflexivity].
  rewrite !Z.sub_diag. reflexivity.
Qed.

(** The loop starts within its invariant. *)
Lemma floodFill_start w h data x0 y0 :
  0 < w -> 0 < h -> 0 <= x0 < w -> 0 <= y0 < h ->
  let seed := y0 * w + x0 in
  FillInv w h data (getByte data (seed * 4)) (getByte data (seed * 4 + 1))
    (getByte data (seed * 4 + 2)) seed
    (setByte (newUint8Array (w * h)) seed 1) [seed] [].
Proof.
  intros Hw Hh Hx Hy seed.
  assert (Hseed : 0 <= seed < w * h) by (subst seed; nia).
  assert (Hlen : length (newUint8Array (w * h)) = Z.to_nat (w * h))
    by apply length_replicate.
  split.
  - rewrite setByte_length. assumption.
  - intros p Hp. apply elem_of_cons in Hp as [-> | Hp]; [assumption|].
    apply elem_of_nil in Hp. contradiction.
  - apply NoDup_singleton.
  - intros p Hp. apply elem_of_cons in Hp as [-> | Hp];
      [|apply elem_of_nil in Hp; contradiction].
    apply getByte_setByte_eq; lia.
  - intros p Hp Hout. rewrite getByte_setByte_ne.
    + unfold getByte, newUint8Array. destruct (Z.ltb_spec p 0); [lia|].
      apply lookup_replicate_2. lia.
    + intros ->. apply Hout. left.
  - intros p Hp. apply elem_of_nil in Hp. contradiction.
  - intros p n Hp. apply elem_of_nil in Hp. contradiction.
  - intros p Hp. left. apply elem_of_cons in Hp as [-> | Hp]; [reflexivity|].
    apply elem_of_nil in Hp. contradiction.
  - left.
Qed.

(** The fill returns, with the invariant at an empty stack. *)
Lemma floodFill_inv w h data x0 y0 fuel :
  0 < w -> 0 < h -> 0 <= x0 < w -> 0 <= y0 < h -> (Z.to_nat (w * h) <= fuel)%nat ->
  let seed := y0 * w + x0 in
  exists visited popped,
    floodFill fuel w h data x0 y0 = Some (visited, popped) /\
    FillInv w h data (getByte data (seed * 4)) (getByte data (seed * 4 + 1))
      (getByte data (seed * 4 + 2)) seed visited [] popped.
Proof.
  intros Hw Hh Hx Hy Hfuel seed. unfold floodFill. cbv zeta.
  replace (x0 + y0 * w) with seed by (subst seed; lia). fold seed.
  apply (fillLoop_inv w h data _ _ _ seed Hw Hh).
  - apply floodFill_start; assumption.
  - simpl. lia.
Qed.


(** C4.  The seed is in the fill region; a position in the region is within
    96 of the seed colour; and a neighbour of a position in the region is in
    the region exactly when its distance to the seed colour is at most 96. *)
Theorem floodFill_tolerance_boundary w h data x0 y0 :
  0 < w -> 0 < h -> 0 <= x0 < w -> 0 <= y0 < h ->
  exists visited popped,
    floodFill (Z.to_nat (w * h)) w h data x0 y0 = Some (visited, popped) /\
    let seed := y0 * w + x0 in
    inRegion visited seed /\
    (forall p d, inRegion visited p -> colorDistance data p seed = Some d -> d <= 96) /\
    (forall p n d, inRegion visited p -> n ∈ neighbors w h p -> 0 <= n ->
       colorDistance data n seed = Some d -> (inRegion visited n <-> d <= 96)).
Proof.
  intros Hw Hh Hx Hy.
  destruct (floodFill_inv w h data x0 y0 (Z.to_nat (w * h)) Hw Hh Hx Hy ltac:(lia))
    as (visited & popped & Hrun & HI).
  exists visited, popped. split; [assumption|]. intros seed.
  pose proof (inv_popped _ _ _ _ _ _ _ _ _ _ HI) as Hpop.
  pose proof (inv_length _ _ _ _ _ _ _ _ _ _ HI) as Hlen.
  assert (Hin : forall p, inRegion visited p ->
            p ∈ popped /\
            exceedsTolerance data (getByte data (seed * 4)) (getByte data (seed * 4 + 1))
              (getByte data (seed * 4 + 2)) p = false).
  { intros p Hp. unfold inRegion in Hp.
    assert (Hr : 0 <= p < w * h).
    { unfold getByte in Hp. destruct (Z.ltb_spec p 0); [discriminate|].
      apply lookup_lt_Some in Hp. lia. }
    assert (Hpp : p ∈ popped).
    { apply (marked_tracked w h data _ _ _ seed visited [] popped p HI Hr).
      rewrite Hp. discriminate. }
    split; [assumption|]. specialize (Hpop p Hpp). rewrite Hp in Hpop.
    fold seed in Hpop.
    destruct (exceedsTolerance _ _ _ _ p); [discriminate|reflexivity]. }
  split; [|split].
  - unfold inRegion.
    pose proof (inv_seed _ _ _ _ _ _ _ _ _ _ HI) as Hseed. simpl in Hseed.
    rewrite (Hpop seed Hseed). fold seed. rewrite seed_within_tolerance. reflexivity.
  - intros p d Hp Hd. destruct (Hin p Hp) as [_ Hex].
    rewrite (exceeds_distance data p seed d Hd) in Hex.
    destruct (Z.ltb_spec 96 d); [discriminate|assumption].
  - intros p n d Hp Hn Hn0 Hd. destruct (Hin p Hp) as [Hpp Hex].
    pose proof (inv_neighbors _ _ _ _ _ _ _ _ _ _ HI p n Hpp Hex Hn Hn0) as Hnp.
    simpl in Hnp. unfold inRegion. rewrite (Hpop n Hnp). fold seed.
    rewrite (exceeds_distance data n seed d Hd).
    destruct (Z.ltb_spec 96 d); split; intros Hd'; try lia; try reflexivity; discriminate.
Qed.

(** ** The merge into the selection mask *)

(** A loop of guarded writes is a loop of writes over the guarded indices. *)
Lemma fold_left_guarded (c : Z -> bool) (v : Z) (l : list Z) : forall a,
  fold_left (fun a i => if c i then setByte a i v else a) l a =
  fold_left (fun a i => setByte a i v) (filter (fun i => c i = true) l) a.
Proof.
  induction l as [|i l IH]; intros a; [reflexivity|].
  simpl. rewrite filter_cons. destruct (c i) eqn:E.
  - rewrite decide_True by reflexivity. simpl. apply IH.
  - rewrite decide_False by discriminate. apply IH.
Qed.

Lemma getByte_Some_range (a : list Z) j v :
  getByte a j = Some v -> 0 <= j < Z.of_nat (length a).
Proof.
  unfold getByte. destruct (Z.ltb_spec j 0); [discriminate|].
  intros Hl. apply lookup_lt_Some in Hl. lia.
Qed.

Lemma getByte_lookup (a : list Z) (i : nat) : getByte a (Z.of_nat i) = a !! i.
Proof.
  unfold getByte. destruct (Z.ltb_spec (Z.of_nat i) 0); [lia|]. rewrite Nat2Z.id. reflexivity.
Qed.

(** The merged mask, read at [j]. *)
Lemma mergeFill_lookup mode visited mask j :
  length (mergeFill mode visited mask) = length mask /\
  (0 <= j -> (Z.to_nat j < length mask)%nat ->
   getByte (mergeFill mode visited mask) j =
     if equals (getByte visited j) 2 then Some (mergeBit mode) else getByte mask j).
Proof.
  assert (H : forall v,
    let m' := fold_left (fun mask i => if equals (getByte visited i) 2
                                       then setByte mask i v else mask)
                        (seqZ 0 (Z.of_nat (length visited))) mask in
    length m' = length mask /\
    (0 <= j -> (Z.to_nat j < length mask)%nat ->
     getByte m' j = if equals (getByte visited j) 2 then Some v else getByte mask j)).
  { intros v m'. subst m'. rewrite fold_left_guarded.
    destruct (writes_lookup v
                (filter (fun i => equals (getByte visited i) 2 = true)
                        (seqZ 0 (Z.of_nat (length visited)))) mask j) as [Hlen Hget].
    split; [assumption|]. intros Hj Hl. rewrite (Hget Hj Hl).
    destruct (equals (getByte visited j) 2) eqn:E.
    - rewrite decide_True; [reflexivity|].
      apply list_elem_of_filter. split; [assumption|].
      apply elem_of_seqZ. unfold equals in E.
      destruct (getByte visited j) eqn:G; [|discriminate].
      apply getByte_Some_range in G. lia.
    - rewrite decide_False; [reflexivity|].
      intros Hin. apply list_elem_of_filter in Hin as [Hin _]. congruence. }
  destruct mode; apply H.
Qed.

Lemma list_eq_getByte (a b : list Z) :
  length a = length b ->
  (forall j, 0 <= j -> (Z.to_nat j < length a)%nat -> getByte a j = getByte b j) ->
  a = b.
Proof.
  intros Hlen H. apply list_eq. intros i.
  destruct (decide (i < length a)%nat) as [Hi|Hi].
  - rewrite <- !getByte_lookup. apply H; lia.
  - rewrite !lookup_ge_None_2 by lia. reflexivity.
Qed.

(** Merging the same region twice is merging it once. *)
Lemma mergeFill_idempotent mode visited mask :
  mergeFill mode visited (mergeFill mode visited mask) = mergeFill mode visited mask.
Proof.
  destruct (mergeFill_lookup mode visited mask 0) as [Hlen _].
  apply list_eq_getByte.
  - apply (mergeFill_lookup mode visited (mergeFill mode visited mask) 0).
  - intros j Hj Hl.
    destruct (mergeFill_lookup mode visited (mergeFill mode visited mask) j) as [Hlen2 Hget2].
    rewrite Hlen2 in Hl. rewrite (Hget2 Hj Hl).
    destruct (mergeFill_lookup mode visited mask j) as [_ Hget].
    rewrite Hlen in Hl. rewrite (Hget Hj Hl).
    destruct (equals (getByte visited j) 2); reflexivity.
Qed.

(** Excluding a region after including it is excluding it. *)
Lemma mergeFill_exclude_include visited mask :
  mergeFill Exclude visited (mergeFill Include visited mask) = mergeFill Exclude visited mask.
Proof.
  destruct (mergeFill_lookup Include visited mask 0) as [Hlen _].
  destruct (mergeFill_lookup Exclude visited mask 0) as [Hlen' _].
  apply list_eq_getByte.
  - rewrite Hlen'. rewrite <- Hlen.
    apply (mergeFill_lookup Exclude visited (mergeFill Include visited mask) 0).
  - intros j Hj Hl.
    destruct (mergeFill_lookup Exclude visited (mergeFill Include visited mask) j)
      as [Hlen2 Hget2].
    rewrite Hlen2 in Hl. rewrite (Hget2 Hj Hl).
    destruct (mergeFill_lookup Include visited mask j) as [_ Hget].
    rewrite Hlen in Hl. rewrite (Hget Hj Hl).
    destruct (mergeFill_lookup Exclude visited mask j) as [_ Hget'].
    rewrite (Hget' Hj Hl).
    destruct (equals (getByte visited j) 2); reflexivity.
Qed.

Lemma someSelected_false mask :
  someSelected mask = false <-> forall j, getByte mask j <> Some 1.
Proof.
  unfold someSelected. split.
  - intros H j Hj. 
    assert (Hin : 1 ∈ mask).
    { unfold getByte in Hj. destruct (j <? 0); [discriminate|].
      apply list_elem_of_lookup. eauto. }
    assert (existsb (fun v => v =? 1) mask = true).
    { apply existsb_exists. exists 1. split; [apply list_elem_of_In; assumption|reflexivity]. }
    congruence.
  - intros H. destruct (existsb (fun v => v =? 1) mask) eqn:E; [|reflexivity].
    exfalso. apply existsb_exists in E as (x & Hx & Hx1).
    apply Z.eqb_eq in Hx1. subst x. apply list_elem_of_In in Hx.
    apply list_elem_of_lookup in Hx as [i Hi].
    apply (H (Z.of_nat i)). rewrite getByte_lookup. assumption.
Qed.

(** Excluding a region from a mask with no set pixel outside it leaves no
    set pixel. *)
Lemma mergeFill_exclude_empty visited mask :
  someSelected mask = false -> someSelected (mergeFill Exclude visited mask) = false.
Proof.
  intros H. apply someSelected_false. intros j Hj.
  destruct (mergeFill_lookup Exclude visited mask j) as [Hlen Hget].
  pose proof (getByte_Some_range _ _ _ Hj) as Hr.
  rewrite Hget in Hj by lia.
  destruct (equals (getByte visited j) 2); [discriminate|].
  apply someSelected_false in Hj; [assumption|assumption].
Qed.

(** ** Smart select *)

#[local] Arguments floodFill : simpl never.
#[local] Arguments mergeFill : simpl never.
#[local] Arguments newUint8Array : simpl never.

Section SelectFacts.

Context {N : JSNumber} {SM : StandardModel N}.
Variable drawScaled : Image -> Z -> Z -> list Z.
Variable hatch : Z -> Z -> list Z.

(** [renderSelectionOverlay] returns and changes pixels only: every canvas
    keeps its size, and the refs and the state stay as they are. *)
Lemma renderSelectionOverlay_frame st :
  let st' := run (renderSelectionOverlay hatch) st in
  fst (renderSelectionOverlay hatch st) = Normal tt /\
  (forall c cv, document st !! c = Some cv ->
     exists cv', document st' !! c = Some cv' /\ width cv' = width cv /\
                 height cv' = height cv /\ context2d cv' = context2d cv) /\
  canvasRef st' = canvasRef st /\ imgRef st' = imgRef st /\
  selectionMaskRef st' = selectionMaskRef st /\
  hasSmartSelection st' = hasSmartSelection st /\
  selectMode st' = selectMode st.
Proof.
  intros st'. subst st'. unfold run, renderSelectionOverlay.
  unfold mbind, mret, Handler_bind, Handler_ret, current, get, element, onCanvas, modify.
  assert (Hsame : forall c cv, document st !! c = Some cv ->
     exists cv', document st !! c = Some cv' /\ width cv' = width cv /\
                 height cv' = height cv /\ context2d cv' = context2d cv).
  { intros c cv H. exists cv. repeat split; (assumption || reflexivity). }
  destruct (selectionCanvasRef st) as [sc|];
    [|cbn; repeat split; solve [reflexivity | assumption]].
  destruct (decide (sc ∈ dom (document st)));
    [|cbn; repeat split; solve [reflexivity | assumption]].
  cbn beta iota zeta.
  destruct (selectionMaskRef st) as [mask|] eqn:Hmask;
    [|cbn; repeat split; solve [reflexivity | assumption]].
  destruct (negb (context2d (default defaultCanvas (document st !! sc))));
    [cbn; repeat split; solve [reflexivity | assumption]|].
  cbn [fst snd document setDocument canvasRef imgRef selectionMaskRef hasSmartSelection
       selectMode].
  split; [reflexivity|]. split; [|repeat split; solve [reflexivity | assumption]].
  intros c cv Hc. destruct (decide (sc = c)) as [->|Hne].
  - rewrite lookup_alter_eq, Hc. eexists. split; [reflexivity|]. repeat split.
  - rewrite lookup_alter_ne by assumption. eauto.
Qed.

(** A click inside the canvas: the fill runs on the image drawn at the
    canvas size and is merged into the mask. *)
Lemma floodFillSelect_result st c cv img x y visited popped :
  imgRef st = Some img -> canvasRef st = Some c -> document st !! c = Some cv ->
  0 < width cv <= 2147483647 -> 0 < height cv <= 2147483647 ->
  0 <= round x < width cv -> 0 <= round y < height cv ->
  floodFill (Z.to_nat (width cv * height cv)) (width cv) (height cv)
    (drawScaled img (width cv) (height cv)) (round x) (round y) = Some (visited, popped) ->
  let st' := run (floodFillSelect drawScaled hatch x y) st in
  let mask' := mergeFill (selectMode st) visited (maskOrNew st (width cv) (height cv)) in
  fst (floodFillSelect drawScaled hatch x y st) = Normal tt /\
  selectionMaskRef st' = Some mask' /\
  hasSmartSelection st' = someSelected mask' /\
  imgRef st' = Some img /\ canvasRef st' = Some c /\ selectMode st' = selectMode st /\
  exists cv', document st' !! c = Some cv' /\ width cv' = width cv /\
              height cv' = height cv.
Proof.
  intros Himg Href Hcv Hw Hh Hx Hy Hfill st' mask'. subst st'.
  assert (Hdom : c ∈ dom (document st)) by (apply elem_of_dom; eauto).
  assert (Hm : fresh (dom (document st)) <> c).
  { intros E. rewrite <- E in Hdom. exact (is_fresh _ Hdom). }
  set (m := fresh (dom (document st))) in *.
  set (D := alter (drawImage drawScaled img) m
              (alter (setHeight (num (height cv))) m
                 (alter (setWidth (num (width cv))) m
                    (<[m := defaultCanvas]> (document st))))).
  assert (E : floodFillSelect drawScaled hatch x y st =
              renderSelectionOverlay hatch
                (setHasSmartSelection (someSelected mask')
                   (setSelectionMask (Some mask') (setDocument D st)))).
  { unfold floodFillSelect.
    unfold mbind, mret, Handler_bind, Handler_ret, current. rewrite Href.
    rewrite decide_True by assumption.
    unfold element, get, createCanvas, onCanvas, modify. cbn beta iota zeta.
    rewrite Himg. fold m.
    repeat (cbn beta iota zeta;
            cbn [document setDocument fst snd default from_option id fmap
                 option_fmap option_map negb orb width height context2d data img_width
                 img_height bitmap defaultCanvas drawImage selectionMaskRef selectMode];
            rewrite ?lookup_alter_eq, ?lookup_insert_eq;
            rewrite ?lookup_alter_ne, ?lookup_insert_ne by assumption;
            rewrite ?Hcv;
            rewrite ?(setWidth_num (width cv)), ?(setHeight_num (height cv)) by lia).
    unfold liftDom, getImageData, drawImage. cbn [width height bitmap].
    destruct (Z.eqb_spec (width cv) 0); [lia|].
    destruct (Z.eqb_spec (height cv) 0); [lia|].
    cbn [orb data].
    destruct (Z.ltb_spec (round x) 0); [lia|].
    destruct (Z.leb_spec (width cv) (round x)); [lia|].
    destruct (Z.ltb_spec (round y) 0); [lia|].
    destruct (Z.leb_spec (height cv) (round y)); [lia|].
    cbn [orb]. rewrite Hfill. reflexivity. }
  unfold run. rewrite E.
  destruct (renderSelectionOverlay_frame
              (setHasSmartSelection (someSelected mask')
                 (setSelectionMask (Some mask') (setDocument D st))))
    as (R1 & R2 & R3 & R4 & R5 & R6 & R7).
  unfold run in *.
  split; [assumption|]. split; [rewrite R5; reflexivity|].
  split; [rewrite R6; reflexivity|]. split; [rewrite R4; assumption|].
  split; [rewrite R3; assumption|]. split; [rewrite R7; reflexivity|].
  destruct (R2 c cv) as (cv' & Hc' & Hw' & Hh' & _).
  { cbn [document setHasSmartSelection setSelectionMask setDocument]. subst D.
    rewrite !lookup_alter_ne, lookup_insert_ne by assumption. assumption. }
  exists cv'. repeat split; assumption.
Qed.

Lemma newUint8Array_none_selected n : someSelected (newUint8Array n) = false.
Proof.
  apply someSelected_false. intros j Hj. unfold getByte, newUint8Array in Hj.
  destruct (j <? 0); [discriminate|].
  apply lookup_replicate in Hj as [Hj _]. discriminate.
Qed.

(** C6.  For a click inside the canvas: the same fill twice in include mode
    leaves the mask of the first fill; and from a state with no selected
    pixel, the fill in include mode and then in exclude mode leaves a mask
    with no set pixel and the selection flag false. *)
Theorem fill_merge_idempotent_and_cancelling st c cv img x y :
  imgRef st = Some img -> canvasRef st = Some c -> document st !! c = Some cv ->
  0 < width cv <= 2147483647 -> 0 < height cv <= 2147483647 ->
  0 <= round x < width cv -> 0 <= round y < height cv ->
  selectMode st = Include ->
  let fill := floodFillSelect drawScaled hatch x y in
  let once := run fill st in
  (fst (fill st) = Normal tt /\ fst (fill once) = Normal tt /\
   selectionMaskRef (run fill once) = selectionMaskRef once) /\
  (nothingSelected st ->
   let excluded := run fill (setSelectMode Exclude once) in
   fst (fill (setSelectMode Exclude once)) = Normal tt /\
   (exists mask, selectionMaskRef excluded = Some mask /\ someSelected mask = false) /\
   hasSmartSelection excluded = false).
Proof.
  intros Himg Href Hcv Hw Hh Hx Hy Hmode fill once.
  destruct (floodFill_inv (width cv) (height cv) (drawScaled img (width cv) (height cv))
              (round x) (round y) (Z.to_nat (width cv * height cv))
              ltac:(lia) ltac:(lia) Hx Hy ltac:(lia))
    as (visited & popped & Hfill & _).
  destruct (floodFillSelect_result st c cv img x y visited popped
              Himg Href Hcv Hw Hh Hx Hy Hfill)
    as (A1 & A2 & A3 & A4 & A5 & A6 & cv' & A7 & A8 & A9).
  fold fill in A1, A2, A3, A4, A5, A6, A7. fold once in A2, A3, A4, A5, A6, A7.
  rewrite Hmode in A2, A3.
  set (mask0 := maskOrNew st (width cv) (height cv)) in *.
  assert (Hfill' : floodFill (Z.to_nat (width cv' * height cv')) (width cv') (height cv')
                     (drawScaled img (width cv') (height cv')) (round x) (round y) =
                   Some (visited, popped)) by (rewrite A8, A9; assumption).
  split.
  - destruct (floodFillSelect_result once c cv' img x y visited popped
                A4 A5 A7 ltac:(lia) ltac:(lia) ltac:(lia) ltac:(lia) Hfill')
      as (B1 & B2 & _).
    fold fill in B1, B2.
    split; [assumption|]. split; [assumption|].
    rewrite B2, A2, A6, Hmode. unfold maskOrNew. rewrite A2.
    f_equal. apply mergeFill_idempotent.
  - intros Hnone excluded.
    destruct (floodFillSelect_result (setSelectMode Exclude once) c cv' img x y visited popped
                A4 A5 A7 ltac:(lia) ltac:(lia) ltac:(lia) ltac:(lia) Hfill')
      as (B1 & B2 & B3 & _).
    fold fill in B1, B2, B3. fold excluded in B2, B3.
    cbn [selectMode setSelectMode] in B2, B3.
    unfold maskOrNew in B2, B3. cbn [selectionMaskRef setSelectMode] in B2, B3.
    rewrite A2 in B2, B3. rewrite mergeFill_exclude_include in B2, B3.
    assert (Hempty : someSelected (mergeFill Exclude visited mask0) = false).
    { apply mergeFill_exclude_empty. subst mask0. unfold maskOrNew, nothingSelected in *.
      destruct (selectionMaskRef st); [assumption|apply newUint8Array_none_selected]. }
    split; [assumption|]. split; [eauto|]. rewrite B3. assumption.
Qed.

End SelectFacts.

(** ** Runs on sample editors *)

Lemma dotBrush_length op style x y r w h bm :
  length (dotBrush op style x y r w h bm) = length bm.
Proof.
  unfold dotBrush. cbv zeta.
  destruct ((0 <=? Qfloor x) && (Qfloor x <? w) && (0 <=? Qfloor y) && (Qfloor y <? h));
    [|reflexivity].
  destruct op; rewrite !setByte_length; reflexivity.
Qed.

(** Forty taps with [prev.slice(-30)]: 31 snapshots are held and 31 [undo]s
    succeed. *)
Lemma history_holds_one_more_than_keep_witness :
  let st := sampleEditor 1 1 1 1 (transparent 1 1) onePixel in
  let run_strokes :=
    strokes (N := exactNumber) 30 dotBrush drawUnscaled plainHatch (replicate 40 tap) in
  let st1 := run run_strokes st in
  fst (run_strokes st) = Normal tt /\
  length (undoStack st1) = 31%nat /\
  forall k, (k <= 31)%nat ->
    fst (times k undo st1) = Normal tt /\
    length (undoStack (run (times k undo) st1)) = (31 - k)%nat.
Proof.
  apply (history_holds_one_more_than_keep (N := exactNumber) 30 dotBrush drawUnscaled
           plainHatch dotBrush_length 1 1 0
           (sampleEditor 1 1 1 1 (transparent 1 1) onePixel) (replicate 40 tap)).
  - split; [reflexivity | | lia | lia | constructor | constructor | reflexivity].
    exists (transparent 1 1). split; reflexivity.
  - reflexivity.
  - vm_compute. lia.
Defined.

(** A canvas 10 wide over an image 13 wide, with one painted pixel. *)
Lemma exportMask_clears_blocks_witness :
  let cv := mkCanvas 10 1 true paintedRow in
  exists art,
    fst (exportMask (N := exactNumber) (sampleEditor 10 1 13 1 paintedRow onePixel))
      = Normal (Some art) /\
    img_width art = 13 /\ img_height art = 1 /\
    forall fx fy, 0 <= fx < 13 -> 0 <= fy < 1 ->
      (cleared (N := exactNumber) cv 13 1 fx fy -> alphaAt art fx fy = Some 0) /\
      (~ cleared (N := exactNumber) cv 13 1 fx fy -> alphaAt art fx fy = Some 255).
Proof.
  apply (exportMask_clears_blocks (N := exactNumber) (SM := exactNumber_standard)
           (sampleEditor 10 1 13 1 paintedRow onePixel) 0%nat
           (mkCanvas 10 1 true paintedRow) 13 1);
    try reflexivity; simpl; lia.
Defined.

(** With an image 13 wide on a canvas 10 wide, the display pixel 3 projects
    onto [3.9, 5.2); its block is the native pixels 3 and 4, and the native
    pixel 5 stays opaque. *)
Lemma exportMask_misses_projection :
  exists art,
    fst (exportMask (N := exactNumber) (sampleEditor 10 1 13 1 paintedRow onePixel))
      = Normal (Some art) /\
    ~ coversProjections (mkCanvas 10 1 true paintedRow) 13 1 art.
Proof.
  eexists. split; [vm_compute; reflexivity|].
  intros Hcov. specialize (Hcov 3 0 5 0).
  assert (H : alphaAt
    {| img_width := 13; img_height := 1;
       data := [0; 0; 0; 255; 0; 0; 0; 255; 0; 0; 0; 255; 0; 0; 0; 0; 0; 0; 0; 0;
                0; 0; 0; 255; 0; 0; 0; 255; 0; 0; 0; 255; 0; 0; 0; 255; 0; 0; 0; 255;
                0; 0; 0; 255; 0; 0; 0; 255; 0; 0; 0; 255; 0; 0; 0; 255] |} 5 0 = Some 0).
  { apply Hcov.
    - unfold paintedAt. simpl. repeat split; lia.
    - lia.
    - lia.
    - unfold meetsProjection. simpl. lia.
    - unfold meetsProjection. simpl. lia. }
  vm_compute in H. discriminate H.
Qed.


(** The same fill: the second pixel is 96 from the seed colour. *)
Lemma floodFill_tolerance_boundary_witness :
  exists visited popped,
    floodFill (Z.to_nat (2 * 1)) 2 1 (pixels twoPixels) 0 0 = Some (visited, popped) /\
    let seed := 0 * 2 + 0 in
    inRegion visited seed /\
    (forall p d, inRegion visited p -> colorDistance (pixels twoPixels) p seed = Some d ->
       d <= 96) /\
    (forall p n d, inRegion visited p -> n ∈ neighbors 2 1 p -> 0 <= n ->
       colorDistance (pixels twoPixels) n seed = Some d -> (inRegion visited n <-> d <= 96)).
Proof.
  apply (floodFill_tolerance_boundary 2 1 (pixels twoPixels) 0 0); lia.
Defined.

(** The boundary itself: a neighbour of the seed at distance 96 is in the
    region, one at distance 97 is not. *)
Example tolerance_96_is_included :
  colorDistance [10; 20; 30; 255; 42; 52; 62; 255] 1 0 = Some 96 /\
  exists visited popped,
    floodFill 2 2 1 [10; 20; 30; 255; 42; 52; 62; 255] 0 0 = Some (visited, popped) /\
    inRegion visited 1.
Proof. split; [reflexivity|]. eexists. eexists. split; reflexivity. Qed.

Example tolerance_97_is_excluded :
  colorDistance [10; 20; 30; 255; 42; 52; 63; 255] 1 0 = Some 97 /\
  exists visited popped,
    floodFill 2 2 1 [10; 20; 30; 255; 42; 52; 63; 255] 0 0 = Some (visited, popped) /\
    ~ inRegion visited 1.
Proof. split; [reflexivity|]. eexists. eexists. split; [reflexivity|]. discriminate. Qed.

(** A click on the first pixel of a canvas of two pixels, drawn pixel for
    pixel from an image of two pixels. *)
Lemma fill_merge_idempotent_and_cancelling_witness :
  let st := sampleEditor 2 1 2 1 (transparent 2 1) twoPixels in
  let fill := floodFillSelect (N := exactNumber) drawUnscaled plainHatch 0%Q 0%Q in
  let once := run fill st in
  (fst (fill st) = Normal tt /\ fst (fill once) = Normal tt /\
   selectionMaskRef (run fill once) = selectionMaskRef once) /\
  (nothingSelected st ->
   let excluded := run fill (setSelectMode Exclude once) in
   fst (fill (setSelectMode Exclude once)) = Normal tt /\
   (exists mask, selectionMaskRef excluded = Some mask /\ someSelected mask = false) /\
   hasSmartSelection excluded = false).
Proof.
  apply (fill_merge_idempotent_and_cancelling (N := exactNumber) (SM := exactNumber_standard)
           drawUnscaled plainHatch (sampleEditor 2 1 2 1 (transparent 2 1) twoPixels)
           0%nat (mkCanvas 2 1 true (transparent 2 1)) twoPixels 0%Q 0%Q);
    try reflexivity; vm_compute; split; congruence.
Defined.

(** The swap-selection button on an editor that has no mask yet. *)
Lemma invert_without_selection_is_noop_witness :
  let st := sampleEditor 2 1 2 1 (transparent 2 1) twoPixels in
  swapSelection plainHatch st = (Normal tt, st) /\
  selectionMaskRef (run (swapSelection plainHatch) st) = None /\
  (hasSmartSelection st = false ->
   hasSmartSelection (run (swapSelection plainHatch) st) = false).
Proof.
  apply (invert_without_selection_is_noop plainHatch
           (sampleEditor 2 1 2 1 (transparent 2 1) twoPixels)).
  reflexivity.
Defined.

(** Export and a stamp before anything is mounted. *)
Lemma unready_surface_is_noop_witness :
  exportMask (N := exactNumber) emptyEditor = (Normal None, emptyEditor) /\
  forall x y, draw (N := exactNumber) dotBrush x y emptyEditor = (Normal tt, emptyEditor).
Proof.
  apply (unready_surface_is_noop (N := exactNumber) dotBrush emptyEditor). reflexivity.
Defined.

(** * Further properties of the editor *)

(** ** Sessions of strokes, undo, redo and reset *)

#[local] Arguments putImageData : simpl never.

Section SessionFacts.

Context {N : JSNumber}.
Variable keep : nat.
Variable rasterArc :
  CompositeOperation -> Color -> Number -> Number -> Number -> Z -> Z -> list Z -> list Z.
Variable drawScaled : Image -> Z -> Z -> list Z.
Variable hatch : Z -> Z -> list Z.
Hypothesis rasterArc_length : forall op style x y r w h bm,
  length (rasterArc op style x y r w h bm) = length bm.

Lemma redo_empty st : redoStack st = [] -> redo st = (Normal tt, st).
Proof.
  intros E. unfold redo, mbind, Handler_bind, current.
  destruct (canvasRef st) as [c|]; [destruct (decide (c ∈ dom (document st)))|];
    unfold get; cbn beta iota; rewrite ?E; reflexivity.
Qed.

Lemma list_snoc_inv {A} (l : list A) : l <> [] -> exists l' x, l = l' ++ [x].
Proof.
  intros Hl. destruct (exists_last Hl) as (l' & x & ->). eauto.
Qed.

Lemma Ready_fits_last w h c st U s :
  Ready w h c st -> undoStack st = U ++ [s] -> fits w h s.
Proof.
  intros HR E. pose proof (ready_undo _ _ _ _ HR) as F. rewrite E in F.
  apply Forall_app in F as [_ F]. inversion F; assumption.
Qed.

Lemma pixelsOf_length w h c st :
  Ready w h c st -> length (pixelsOf c st) = Z.to_nat (4 * (w * h)).
Proof.
  intros HR. destruct (ready_canvas _ _ _ _ HR) as (bm & E & L).
  unfold pixelsOf. rewrite E. assumption.
Qed.

(** X1.  On an allocated surface one undo followed by one redo, and one redo
    followed by one undo, return and bring back the pixels of the paint
    canvas and both history stacks. *)
Theorem undo_and_redo_are_inverse w h c st :
  Ready w h c st ->
  (undoStack st <> [] ->
   let st' := run redo (run undo st) in
   fst (undo st) = Normal tt /\ fst (redo (run undo st)) = Normal tt /\
   pixelsOf c st' = pixelsOf c st /\
   undoStack st' = undoStack st /\ redoStack st' = redoStack st) /\
  (redoStack st <> [] ->
   let st' := run undo (run redo st) in
   fst (redo st) = Normal tt /\ fst (undo (run redo st)) = Normal tt /\
   pixelsOf c st' = pixelsOf c st /\
   undoStack st' = undoStack st /\ redoStack st' = redoStack st).
Proof.
  intros HR. split.
  - intros Hne st'.
    destruct (list_snoc_inv _ Hne) as (U & s & E).
    destruct (undo_ready w h c st U s HR E) as (U1 & U2 & U3 & U4 & U5 & _).
    destruct (redo_ready w h c (run undo st) (redoStack st) _ U2 U5)
      as (R1 & R2 & R3 & R4 & R5 & _).
    fold st' in R2, R3, R4, R5.
    split; [assumption|]. split; [assumption|].
    split; [rewrite R3; reflexivity|]. split; [|assumption].
    rewrite R5, U4, U3, E.
    pose proof (ready_undo _ _ _ _ HR) as F. rewrite E in F.
    apply Forall_app in F as [_ F]. inversion F as [|? ? Fs _]; subst.
    rewrite (fits_eta w h s Fs). reflexivity.
  - intros Hne st'.
    destruct (list_snoc_inv _ Hne) as (R & s & E).
    destruct (redo_ready w h c st R s HR E) as (R1 & R2 & R3 & R4 & R5 & _).
    destruct (undo_ready w h c (run redo st) (undoStack st) _ R2 R5)
      as (U1 & U2 & U3 & U4 & U5 & _).
    fold st' in U2, U3, U4, U5.
    split; [assumption|]. split; [assumption|].
    split; [rewrite U3; reflexivity|]. split; [assumption|].
    rewrite U5, R4, R3, E.
    pose proof (ready_redo _ _ _ _ HR) as F. rewrite E in F.
    apply Forall_app in F as [_ F]. inversion F as [|? ? Fs _]; subst.
    rewrite (fits_eta w h s Fs). reflexivity.
Qed.

(** The reset handler queues the snapshot updater and clears the canvas. *)
Lemma resetCanvas_returns w h c st :
  Ready w h c st ->
  resetCanvas keep st =
    (Normal tt,
     setUndoUpdates [mkUpdater keep c]
       (setDocument (alter clearAll c (document st)) (setRedoStack [] st))).
Proof.
  intros HR.
  pose proof (current_ready _ _ _ _ HR) as Hcur.
  pose proof (saveSnapshot_ready keep w h c st HR) as Hsave.
  pose proof HR as [Href (bm & Hbm & Hlen) Hw Hh Hu Hr Hq].
  unfold resetCanvas, mbind, mret, Handler_bind, Handler_ret. rewrite Hcur.
  unfold element. cbn beta iota. rewrite Hbm. cbn [default from_option id context2d negb].
  cbn beta iota. rewrite Hsave. reflexivity.
Qed.

(** The reset event: the render reads the snapshot off the cleared
    canvas. *)
Lemma resetCanvas_ready w h c st :
  Ready w h c st ->
  let st' := run (event (resetCanvas keep)) st in
  fst (event (resetCanvas keep) st) = Normal tt /\ Ready w h c st' /\
  pixelsOf c st' = transparent w h /\
  undoStack st' = sliceLast keep (undoStack st) ++ [mkImageData w h (transparent w h)] /\
  redoStack st' = [] /\ toolMode st' = toolMode st.
Proof.
  intros HR st'. subst st'.
  pose proof HR as [Href (bm & Hbm & Hlen) Hw Hh Hu Hr Hq].
  set (stc := setDocument (alter clearAll c (document st)) (setRedoStack [] st)).
  assert (Hnew : document stc !! c = Some (mkCanvas w h true (transparent w h))).
  { subst stc. simpl. rewrite lookup_alter_eq, Hbm. reflexivity. }
  assert (HRc : Ready w h c stc).
  { split; try assumption; try (subst stc; simpl; assumption).
    - exists (transparent w h). split; [assumption|]. unfold transparent.
      apply length_replicate.
    - subst stc. simpl. constructor. }
  assert (Hpix : pixelsOf c stc = transparent w h).
  { unfold pixelsOf. rewrite Hnew. reflexivity. }
  unfold run, event. rewrite (resetCanvas_returns w h c st HR). fold stc.
  rewrite (render_snapshot w h c keep stc HRc). cbn [fst snd].
  split; [reflexivity|].
  split; [apply Ready_snapshot; assumption|].
  rewrite Hpix.
  split; [exact Hpix|].
  repeat split; reflexivity.
Qed.

(** X2.  After a stroke, and after a reset, the redo stack is empty, and
    [redo] returns without a change. *)
Theorem new_action_discards_redo w h c st s :
  Ready w h c st -> toolMode st = ToolPaint ->
  let painted := run (stroke keep rasterArc drawScaled hatch s) st in
  let cleared := run (resetCanvas keep) st in
  (redoStack painted = [] /\ redo painted = (Normal tt, painted)) /\
  (redoStack cleared = [] /\ redo cleared = (Normal tt, cleared)).
Proof.
  intros HR Htool painted cleared.
  destruct (stroke_ready keep rasterArc drawScaled hatch rasterArc_length w h c st s HR Htool)
    as (_ & _ & _ & E1 & _).
  assert (E2 : redoStack cleared = []).
  { subst cleared. unfold run. rewrite (resetCanvas_returns w h c st HR). reflexivity. }
  fold painted in E1.
  split; (split; [assumption | apply redo_empty; assumption]).
Qed.



Lemma perform_ready w h c g st :
  Ready w h c st -> toolMode st = ToolPaint ->
  (length (undoStack st) + length (redoStack st) <= S keep)%nat ->
  let st' := run (perform keep rasterArc drawScaled hatch g) st in
  fst (perform keep rasterArc drawScaled hatch g st) = Normal tt /\
  Ready w h c st' /\ toolMode st' = ToolPaint /\
  (length (undoStack st') + length (redoStack st') <= S keep)%nat.
Proof.
  intros HR Htool Hb st'. subst st'. destruct g as [s| | |]; simpl perform.
  - destruct (stroke_ready keep rasterArc drawScaled hatch rasterArc_length w h c st s HR Htool)
      as (S1 & S2 & S3 & S4 & S5).
    split; [assumption|]. split; [assumption|]. split; [assumption|].
    rewrite S3, S4, length_app, sliceLast_length. simpl. lia.
  - destruct (decide (undoStack st = [])) as [EU|EU].
    + unfold run. rewrite event_idle by (rewrite (undo_empty st EU); apply HR).
      rewrite (undo_empty st EU). simpl. split; [reflexivity|]. split; [assumption|]. split; assumption.
    + destruct (list_snoc_inv _ EU) as (U & s & E).
      destruct (undo_ready w h c st U s HR E) as (U1 & U2 & U3 & U4 & U5 & U6).
      unfold run in *. rewrite event_idle by apply U2.
      split; [assumption|]. split; [assumption|]. split; [congruence|].
      rewrite U4, U5, length_app. rewrite E, length_app in Hb. simpl in *. lia.
  - destruct (decide (redoStack st = [])) as [ER|ER].
    + unfold run. rewrite event_idle by (rewrite (redo_empty st ER); apply HR).
      rewrite (redo_empty st ER). simpl. split; [reflexivity|]. split; [assumption|]. split; assumption.
    + destruct (list_snoc_inv _ ER) as (R & s & E).
      destruct (redo_ready w h c st R s HR E) as (R1 & R2 & R3 & R4 & R5 & R6).
      unfold run in *. rewrite event_idle by apply R2.
      split; [assumption|]. split; [assumption|]. split; [congruence|].
      rewrite R4, R5, length_app. rewrite E, length_app in Hb. simpl in *. lia.
  - destruct (resetCanvas_ready w h c st HR) as (R1 & R2 & R3 & R4 & R5 & R6).
    split; [assumption|]. split; [assumption|]. split; [congruence|].
    rewrite R4, R5, length_app, sliceLast_length. simpl. lia.
Qed.

(** X4.  Whatever sequence of strokes, undos, redos and resets runs on an
    allocated surface, no handler throws, the surface keeps its size, and
    the two history stacks together never hold more than [keep + 1]
    snapshots. *)
Theorem session_keeps_history_bounded w h c gs : forall st,
  Ready w h c st -> toolMode st = ToolPaint ->
  (length (undoStack st) + length (redoStack st) <= S keep)%nat ->
  let st' := run (session keep rasterArc drawScaled hatch gs) st in
  fst (session keep rasterArc drawScaled hatch gs st) = Normal tt /\
  Ready w h c st' /\
  (length (undoStack st') + length (redoStack st') <= S keep)%nat.
Proof.
  induction gs as [|g gs IH]; intros st HR Htool Hb st'; subst st'.
  - unfold run, session, mret, Handler_ret. simpl.
    split; [reflexivity|]. split; assumption.
  - destruct (perform_ready w h c g st HR Htool Hb) as (P1 & P2 & P3 & P4).
    unfold run in *. simpl session. unfold mbind, Handler_bind.
    destruct (perform keep rasterArc drawScaled hatch g st) as [[[]|r] st1];
      simpl in P1, P2, P3, P4; [|discriminate].
    apply (IH st1 P2 P3 P4).
Qed.

End SessionFacts.

(** ** The fill region as a connected component *)

Lemma adjacent_neighbors w h p n :
  0 < w -> 0 <= p < w * h -> 0 <= n < w * h -> adjacent4 w p n -> n ∈ neighbors w h p.
Proof.
  intros Hw Hp Hn Hadj. unfold neighbors.
  rewrite Z.rem_mod_nonneg by lia.
  pose proof (Z.mod_pos_bound p w Hw) as Hpx.
  pose proof (Z.mod_pos_bound n w Hw) as Hnx.
  pose proof (Z.div_mod p w ltac:(lia)) as Hdp.
  pose proof (Z.div_mod n w ltac:(lia)) as Hdn.
  assert (Hpy : (p - p mod w) / w = p / w).
  { replace (p - p mod w) with (p / w * w) by lia. apply Z.div_mul. lia. }
  rewrite Hpy.
  assert (Hph : 0 <= p / w < h).
  { split; [apply Z.div_pos; lia | apply Z.div_lt_upper_bound; lia]. }
  assert (Hnh : 0 <= n / w < h).
  { split; [apply Z.div_pos; lia | apply Z.div_lt_upper_bound; lia]. }
  destruct Hadj as [[Hrow Hcol] | [Hcol Hrow]].
  - assert (Hc : n mod w = p mod w - 1 \/ n mod w = p mod w + 1) by lia.
    destruct Hc as [Hc | Hc].
    + assert (n = p - 1) by nia. subst n.
      destruct (Z.ltb_spec 0 (p mod w)); [|lia]. apply list_elem_of_here.
    + assert (n = p + 1) by nia. subst n.
      destruct (Z.ltb_spec (p mod w) (w - 1)); [|lia].
      apply list_elem_of_further, list_elem_of_here.
  - assert (Hc : n / w = p / w - 1 \/ n / w = p / w + 1) by lia.
    destruct Hc as [Hc | Hc].
    + assert (n = p - w) by nia. subst n.
      destruct (Z.ltb_spec 0 (p / w)); [|lia].
      do 2 apply list_elem_of_further. apply list_elem_of_here.
    + assert (n = p + w) by nia. subst n.
      destruct (Z.ltb_spec (p / w) (h - 1)); [|lia].
      do 3 apply list_elem_of_further. apply list_elem_of_here.
Qed.

Lemma pushNeighbors_members ns : forall vs p,
  p ∈ snd (fold_left pushNeighbor ns vs) -> p ∈ snd vs \/ (p ∈ ns /\ 0 <= p).
Proof.
  induction ns as [|n ns IH]; intros vs p Hp; simpl in Hp.
  - left. assumption.
  - destruct (IH _ _ Hp) as [Hin | [Hin H0]].
    + unfold pushNeighbor in Hin.
      destruct (Z.leb_spec 0 n); simpl in Hin; [|left; assumption].
      destruct (unvisited vs.1 n); simpl in Hin; [|left; assumption].
      apply elem_of_cons in Hin as [-> | Hin]; [right|left; assumption].
      split; [apply list_elem_of_here | assumption].
    + right. split; [apply list_elem_of_further|]; assumption.
Qed.

Lemma colorDistance_defined (data : list Z) (n q : Z) :
  0 <= n -> 0 <= q ->
  (Z.to_nat (n * 4 + 2) < length data)%nat -> (Z.to_nat (q * 4 + 2) < length data)%nat ->
  exists d, colorDistance data n q = Some d.
Proof.
  intros Hn Hq Ln Lq. unfold colorDistance.
  assert (G : forall i, 0 <= i -> (Z.to_nat i < length data)%nat ->
            exists v, getByte data i = Some v).
  { intros i Hi Li. unfold getByte. destruct (Z.ltb_spec i 0); [lia|].
    apply lookup_lt_is_Some_2. assumption. }
  destruct (G (n * 4)) as [a Ha]; [lia|lia|].
  destruct (G (n * 4 + 1)) as [b Hb]; [lia|lia|].
  destruct (G (n * 4 + 2)) as [c Hc]; [lia|lia|].
  destruct (G (q * 4)) as [a' Ha']; [lia|lia|].
  destruct (G (q * 4 + 1)) as [b' Hb']; [lia|lia|].
  destruct (G (q * 4 + 2)) as [c' Hc']; [lia|lia|].
  rewrite Ha, Hb, Hc, Ha', Hb', Hc'. simpl. eauto.
Qed.

Section ComponentFacts.

Variables (w h : Z) (data : list Z) (seed : Z).
Hypothesis w_pos : 0 < w.
Hypothesis h_pos : 0 < h.
Hypothesis seed_range : 0 <= seed < w * h.
Hypothesis data_length : length data = Z.to_nat (4 * (w * h)).

#[local] Abbreviation seedR := (getByte data (seed * 4)).
#[local] Abbreviation seedG := (getByte data (seed * 4 + 1)).
#[local] Abbreviation seedB := (getByte data (seed * 4 + 2)).
#[local] Abbreviation exceeds := (exceedsTolerance data seedR seedG seedB).
#[local] Abbreviation Inv := (FillInv w h data seedR seedG seedB seed).
#[local] Abbreviation Comp := (Connected w h data seed).

Lemma within_similar n :
  0 <= n < w * h -> (exceeds n = false <-> similar data n seed).
Proof.
  intros Hn.
  destruct (colorDistance_defined data n seed) as [d Hd]; try lia.
  rewrite (exceeds_distance data n seed d Hd). unfold similar. rewrite Hd.
  destruct (Z.ltb_spec 96 d); split; intros Hs; try reflexivity; try discriminate.
  - destruct Hs as (d' & E & Hd'). injection E as <-. lia.
  - exists d. split; [reflexivity | lia].
Qed.

Lemma fillLoop_connected fuel : forall visited stack popped visited' popped',
  Inv visited stack popped ->
  (forall p, p ∈ stack ++ popped -> exceeds p = false -> Comp p) ->
  fillLoop w h data seedR seedG seedB fuel visited stack popped = Some (visited', popped') ->
  forall p, p ∈ popped' -> exceeds p = false -> Comp p.
Proof.
  induction fuel as [|fuel IH]; intros visited stack popped visited' popped' HI HC Hrun.
  - destruct stack; simpl in Hrun; [|discriminate].
    injection Hrun as <- <-. intros p Hp. apply HC. simpl. assumption.
  - destruct stack as [|pos stack]; simpl in Hrun.
    { injection Hrun as <- <-. intros p Hp. apply HC. simpl. assumption. }
    refine (IH _ _ _ _ _ (fillStep_inv w h data seedR seedG seedB seed w_pos h_pos _ _ _ _ HI)
              _ Hrun).
    intros p Hp Hwithin.
    assert (Hpos : 0 <= pos < w * h).
    { apply (inv_range _ _ _ _ _ _ _ _ _ _ HI). apply list_elem_of_here. }
    apply elem_of_app in Hp as [Hp | Hp].
    + unfold fillStep in Hp. destruct (exceeds pos) eqn:Epos.
      * apply HC; [|assumption]. simpl in Hp. simpl.
        apply list_elem_of_further, elem_of_app. left. assumption.
      * apply pushNeighbors_members in Hp as [Hp | [Hp Hp0]].
        -- apply HC; [|assumption]. simpl in Hp. simpl.
           apply list_elem_of_further, elem_of_app. left. assumption.
        -- assert (Hr : 0 <= p < w * h).
           { destruct (neighbors_range w h w_pos h_pos pos p Hpos Hp); lia. }
           apply (connected_step w h data seed pos p).
           ++ apply HC; [apply list_elem_of_here | assumption].
           ++ apply (neighbors_adjacent w h pos p); assumption.
           ++ assumption.
           ++ apply within_similar; assumption.
    + apply HC; [|assumption].
      apply elem_of_cons in Hp as [-> | Hp]; [apply list_elem_of_here|].
      apply list_elem_of_further, elem_of_app. right. assumption.
Qed.

End ComponentFacts.

(** With fuel for every pixel, the positions marked 2 are those of the
    component of the seed. *)
Lemma floodFill_component w h data x0 y0 fuel :
  0 < w -> 0 < h -> 0 <= x0 < w -> 0 <= y0 < h ->
  length data = Z.to_nat (4 * (w * h)) -> (Z.to_nat (w * h) <= fuel)%nat ->
  exists visited popped,
    floodFill fuel w h data x0 y0 = Some (visited, popped) /\
    forall p, inRegion visited p <-> Connected w h data (y0 * w + x0) p.
Proof.
  intros Hw Hh Hx Hy Hlen Hfuel.
  destruct (floodFill_inv w h data x0 y0 fuel Hw Hh Hx Hy Hfuel)
    as (visited & popped & Hrun & HI).
  exists visited, popped. split; [assumption|].
  set (seed := y0 * w + x0) in *.
  assert (Hseed : 0 <= seed < w * h) by (subst seed; nia).
  pose proof (inv_popped _ _ _ _ _ _ _ _ _ _ HI) as Hpop.
  pose proof (inv_length _ _ _ _ _ _ _ _ _ _ HI) as Hvl.
  pose proof (inv_range _ _ _ _ _ _ _ _ _ _ HI) as Hrange.
  assert (Hin : forall p, inRegion visited p ->
            p ∈ popped /\
            exceedsTolerance data (getByte data (seed * 4)) (getByte data (seed * 4 + 1))
              (getByte data (seed * 4 + 2)) p = false).
  { intros p Hp. unfold inRegion in Hp.
    assert (Hr : 0 <= p < w * h).
    { pose proof (getByte_Some_range _ _ _ Hp). lia. }
    assert (Hpp : p ∈ popped).
    { pose proof (marked_tracked w h data _ _ _ seed visited [] popped p HI Hr) as T.
      simpl in T. apply T. rewrite Hp. discriminate. }
    split; [assumption|]. specialize (Hpop p Hpp). rewrite Hp in Hpop.
    destruct (exceedsTolerance _ _ _ _ p); [discriminate | reflexivity]. }
  assert (Hout : forall p, p ∈ popped ->
            exceedsTolerance data (getByte data (seed * 4)) (getByte data (seed * 4 + 1))
              (getByte data (seed * 4 + 2)) p = false -> inRegion visited p).
  { intros p Hp E. unfold inRegion. rewrite (Hpop p Hp), E. reflexivity. }
  intros p. split.
  - intros Hp. destruct (Hin p Hp) as [Hpp Hw'].
    unfold floodFill in Hrun. cbv zeta in Hrun.
    replace (x0 + y0 * w) with seed in Hrun by (subst seed; lia).
    fold seed in Hrun.
    refine (fillLoop_connected w h data seed Hw Hh Hseed Hlen _ _ _ _ _ _
              (floodFill_start w h data x0 y0 Hw Hh Hx Hy) _ Hrun p Hpp Hw').
    intros q Hq _. simpl in Hq. apply list_elem_of_singleton in Hq as ->.
    apply connected_seed.
  - intros HC. induction HC as [|q n HC IH Hadj Hn Hsim].
    + apply Hout; [|apply seed_within_tolerance].
      pose proof (inv_seed _ _ _ _ _ _ _ _ _ _ HI) as Hs. simpl in Hs. assumption.
    + destruct (Hin q IH) as [Hq Hqw].
      assert (Hnn : n ∈ neighbors w h q).
      { apply adjacent_neighbors; try assumption. apply Hrange. simpl. assumption. }
      pose proof (inv_neighbors _ _ _ _ _ _ _ _ _ _ HI q n Hq Hqw Hnn ltac:(lia)) as Hnp.
      simpl in Hnp. apply Hout; [assumption|].
      apply (within_similar w h data seed); assumption.
Qed.

(** X6.  On image data of the canvas size, the positions the fill marks 2 are
    exactly the connected component of the seed: the positions joined to
    it by horizontal and vertical steps through positions whose colour is
    within 96 of the seed's.  Each lies in the canvas. *)
Theorem floodFill_region_is_component w h data x0 y0 :
  0 < w -> 0 < h -> 0 <= x0 < w -> 0 <= y0 < h ->
  length data = Z.to_nat (4 * (w * h)) ->
  exists visited popped,
    floodFill (Z.to_nat (w * h)) w h data x0 y0 = Some (visited, popped) /\
    (forall p, inRegion visited p <-> Connected w h data (y0 * w + x0) p) /\
    (forall p, inRegion visited p -> 0 <= p < w * h /\ similar data p (y0 * w + x0)).
Proof.
  intros Hw Hh Hx Hy Hlen.
  destruct (floodFill_component w h data x0 y0 (Z.to_nat (w * h)) Hw Hh Hx Hy Hlen ltac:(lia))
    as (visited & popped & Hrun & Hreg).
  exists visited, popped. split; [assumption|]. split; [assumption|].
  intros p Hp. apply Hreg in Hp.
  assert (Hseed : 0 <= y0 * w + x0 < w * h) by nia.
  destruct Hp as [|q n _ _ Hn Hsim].
  - split; [assumption|].
    destruct (colorDistance_defined data (y0 * w + x0) (y0 * w + x0)) as [d Hd]; try lia.
    exists d. split; [assumption|].
    pose proof (exceeds_distance data _ _ d Hd) as E.
    rewrite seed_within_tolerance in E. symmetry in E. apply Z.ltb_ge in E. assumption.
  - split; assumption.
Qed.

(** ** Frames of the selection tools *)

#[local] Arguments toDimension : simpl never.
#[local] Arguments transparent : simpl never.
#[local] Arguments floodFill : simpl never.
#[local] Arguments mergeFill : simpl never.
#[local] Arguments newUint8Array : simpl never.
#[local] Arguments invertMask : simpl never.
#[local] Arguments someSelected : simpl never.

Lemma SelectFrame_refl st : SelectFrame st st.
Proof. split; try reflexivity. Qed.

Lemma SelectFrame_trans st1 st2 st3 :
  SelectFrame st1 st2 -> SelectFrame st2 st3 -> SelectFrame st1 st3.
Proof.
  intros [A1 A2 A3 A4 A5 A6 A7 A8 A9 A10 A11 A12 A13 A14 A15]
         [B1 B2 B3 B4 B5 B6 B7 B8 B9 B10 B11 B12 B13 B14 B15].
  split; try congruence.
  - intros c Hc Hne. rewrite B1, A1; try reflexivity; try assumption.
    + apply A2. assumption.
    + congruence.
  - etransitivity; eassumption.
Qed.

(** A document that extends the present one. *)
Lemma SelectFrame_extend st D :
  (forall c, c ∈ dom (document st) -> D !! c = document st !! c) ->
  SelectFrame st (setDocument D st) /\
  (forall m f, SelectFrame st (setHasSmartSelection f (setSelectionMask m (setDocument D st)))).
Proof.
  intros HD.
  assert (Hdom : dom (document st) ⊆ dom D).
  { intros c Hc. apply elem_of_dom. rewrite (HD c Hc). apply elem_of_dom. assumption. }
  split; [|intros m f]; (split; simpl; try reflexivity; try assumption;
    intros c Hc _; apply HD; assumption).
Qed.

Section SelectionFrames.

Context {N : JSNumber}.
Variable drawScaled : Image -> Z -> Z -> list Z.
Variable hatch : Z -> Z -> list Z.

Ltac frame_fields :=
  cbn [document setDocument setSelectionMask setHasSmartSelection canvasRef
       selectionCanvasRef containerRef imgRef naturalSize imgLoaded toolMode paintMode
       brushSize selectMode drawing undoStack redoStack selectionMaskRef hasSmartSelection
       fst snd].

Lemma renderSelectionOverlay_SelectFrame st :
  SelectFrame st (run (renderSelectionOverlay hatch) st).
Proof.
  unfold run, renderSelectionOverlay.
  unfold mbind, mret, Handler_bind, Handler_ret, current, get, element, onCanvas, modify.
  destruct (selectionCanvasRef st) as [sc|] eqn:Hsc; [|apply SelectFrame_refl].
  destruct (decide (sc ∈ dom (document st))); [|apply SelectFrame_refl].
  cbn beta iota zeta.
  destruct (selectionMaskRef st) as [mask|]; [|apply SelectFrame_refl].
  destruct (negb (context2d (default defaultCanvas (document st !! sc))));
    [apply SelectFrame_refl|].
  split; frame_fields; try reflexivity; try assumption.
  - intros c Hc Hne. rewrite lookup_alter_ne; [reflexivity|]. congruence.
  - intros c Hc. apply elem_of_dom. apply elem_of_dom in Hc as [cv Hcv].
    destruct (decide (sc = c)) as [->|Hne].
    + rewrite lookup_alter_eq, Hcv. eauto.
    + rewrite lookup_alter_ne by assumption. eauto.
Qed.

Lemma floodFillSelect_SelectFrame st x y :
  SelectFrame st (run (floodFillSelect drawScaled hatch x y) st).
Proof.
  assert (Hfresh : forall c, c ∈ dom (document st) -> fresh (dom (document st)) <> c).
  { intros c Hc E. subst c. exact (is_fresh _ Hc). }
  unfold run, floodFillSelect, mbind, mret, Handler_bind, Handler_ret, current.
  destruct (canvasRef st) as [c|] eqn:Href.
  2: { unfold get. cbn beta iota. destruct (imgRef st); apply SelectFrame_refl. }
  destruct (decide (c ∈ dom (document st))).
  2: { unfold get. cbn beta iota. destruct (imgRef st); apply SelectFrame_refl. }
  unfold get. cbn beta iota. destruct (imgRef st) as [img|]; [|apply SelectFrame_refl].
  unfold element, createCanvas, onCanvas, modify, liftDom. cbn beta iota zeta.
  set (m := fresh (dom (document st))) in *.
  cbn [document setDocument fst snd].
  match goal with
  | |- context [setDocument ?D0 (setDocument _ (setDocument _ (setDocument _ st)))] =>
      set (D := D0)
  end.
  assert (HD : forall c', c' ∈ dom (document st) -> D !! c' = document st !! c').
  { intros c' Hc'. subst D.
    rewrite !lookup_alter_ne, lookup_insert_ne by (apply Hfresh; assumption). reflexivity. }
  destruct (SelectFrame_extend st D HD) as [F1 F2].
  assert (E : setDocument D
                (setDocument (alter (setHeight (num (height (default defaultCanvas (document st !! c))))) m
                   (alter (setWidth (num (width (default defaultCanvas (document st !! c))))) m
                      (<[m := defaultCanvas]> (document st))))
                   (setDocument (alter (setWidth (num (width (default defaultCanvas (document st !! c))))) m
                      (<[m := defaultCanvas]> (document st)))
                      (setDocument (<[m := defaultCanvas]> (document st)) st))) =
              setDocument D st) by reflexivity.
  rewrite E. clear E.
  destruct (getImageData _) as [err|imgData]; [exact F1|].
  cbn beta iota.
  destruct (_ || _ || _ || _); [exact F1|].
  destruct (floodFill _ _ _ _ _ _) as [[visited popped]|]; [|exact F1].
  cbn beta iota zeta. cbn [selectionMaskRef selectMode setDocument].
  eapply SelectFrame_trans; [|apply renderSelectionOverlay_SelectFrame].
  apply F2.
Qed.

End SelectionFrames.

(** ** The swap of the selection *)

Lemma fold_pointwise (f : option Z -> Z) (l : list Z) : forall a j,
  NoDup l -> (forall i, i ∈ l -> 0 <= i /\ (Z.to_nat i < length a)%nat) ->
  length (fold_left (fun a i => setByte a i (f (getByte a i))) l a) = length a /\
  getByte (fold_left (fun a i => setByte a i (f (getByte a i))) l a) j =
    if decide (j ∈ l) then Some (f (getByte a j)) else getByte a j.
Proof.
  induction l as [|i l IH]; intros a j Hnd Hr; simpl.
  - split; reflexivity.
  - apply NoDup_cons in Hnd as [Hi Hnd].
    destruct (Hr i (list_elem_of_here _ _)) as [Hi0 Hil].
    destruct (IH (setByte a i (f (getByte a i))) j Hnd) as [L G].
    { intros k Hk. rewrite setByte_length. apply Hr. apply list_elem_of_further. assumption. }
    rewrite L, setByte_length. split; [reflexivity|]. rewrite G.
    destruct (decide (j = i)) as [->|Hne].
    + rewrite decide_False by assumption.
      rewrite decide_True by apply list_elem_of_here.
      apply getByte_setByte_eq; assumption.
    + rewrite getByte_setByte_ne by congruence.
      destruct (decide (j ∈ l)) as [Hj|Hj].
      * rewrite decide_True by (apply list_elem_of_further; assumption). reflexivity.
      * rewrite decide_False; [reflexivity|].
        intros Hj'. apply elem_of_cons in Hj' as [?|?]; contradiction.
Qed.

Lemma invertMask_lookup mask j :
  length (invertMask mask) = length mask /\
  (0 <= j -> (Z.to_nat j < length mask)%nat ->
   getByte (invertMask mask) j = Some (if falsy (getByte mask j) then 1 else 0)).
Proof.
  unfold invertMask.
  destruct (fold_pointwise (fun v => if falsy v then 1 else 0)
              (seqZ 0 (Z.of_nat (length mask))) mask j) as [L G].
  - apply NoDup_seqZ.
  - intros i Hi. apply elem_of_seqZ in Hi. lia.
  - split; [assumption|]. intros Hj Hl. rewrite G.
    rewrite decide_True; [reflexivity|]. apply elem_of_seqZ. lia.
Qed.

Lemma invertMask_twice mask :
  Forall (fun v => v = 0 \/ v = 1) mask -> invertMask (invertMask mask) = mask.
Proof.
  intros Hbin.
  destruct (invertMask_lookup mask 0) as [L1 _].
  destruct (invertMask_lookup (invertMask mask) 0) as [L2 _].
  apply list_eq_getByte; [congruence|].
  intros j Hj Hl. rewrite L2, L1 in Hl.
  destruct (invertMask_lookup (invertMask mask) j) as [_ G2].
  destruct (invertMask_lookup mask j) as [_ G1].
  rewrite G2 by (try assumption; lia). rewrite G1 by assumption.
  destruct (getByte_in_range mask j Hj Hl) as [v Hv]. rewrite Hv.
  assert (Hb : v = 0 \/ v = 1).
  { unfold getByte in Hv. destruct (j <? 0); [discriminate|].
    exact (proj1 (Forall_lookup _ _) Hbin _ _ Hv). }
  destruct Hb as [-> | ->]; reflexivity.
Qed.

Section SwapFacts.

Context {N : JSNumber}.
Variable hatch : Z -> Z -> list Z.

Lemma swapSelection_some st mask :
  selectionMaskRef st = Some mask ->
  swapSelection hatch st =
    renderSelectionOverlay hatch
      (setHasSmartSelection (someSelected (invertMask mask))
         (setSelectionMask (Some (invertMask mask)) st)).
Proof.
  intros E. unfold swapSelection, mbind, Handler_bind, get, modify. cbn beta iota.
  rewrite E. reflexivity.
Qed.

(** X10.  With a mask present the swap button returns; a position of the new
    mask holds 1 where the old one held 0 and 0 elsewhere; the flag is
    off exactly when every position was selected; and a second swap
    brings back a mask of zeros and ones. *)
Theorem swap_selection_complements st mask :
  selectionMaskRef st = Some mask ->
  let st' := run (swapSelection hatch) st in
  fst (swapSelection hatch st) = Normal tt /\
  exists mask',
    selectionMaskRef st' = Some mask' /\ length mask' = length mask /\
    (forall j, 0 <= j < Z.of_nat (length mask) ->
       getByte mask' j = Some (if falsy (getByte mask j) then 1 else 0)) /\
    hasSmartSelection st' = someSelected mask' /\
    (hasSmartSelection st' = false <->
     forall j, 0 <= j < Z.of_nat (length mask) -> falsy (getByte mask j) = false) /\
    (Forall (fun v => v = 0 \/ v = 1) mask ->
     selectionMaskRef (run (swapSelection hatch) st') = Some mask).
Proof.
  intros E st'. subst st'. unfold run. rewrite (swapSelection_some st mask E).
  set (st1 := setHasSmartSelection _ _).
  destruct (renderSelectionOverlay_frame hatch st1) as (R1 & _ & _ & _ & R5 & R6 & _).
  unfold run in *.
  split; [assumption|]. exists (invertMask mask).
  destruct (invertMask_lookup mask 0) as [L _].
  split; [rewrite R5; reflexivity|]. split; [assumption|].
  assert (G : forall j, 0 <= j < Z.of_nat (length mask) ->
            getByte (invertMask mask) j = Some (if falsy (getByte mask j) then 1 else 0)).
  { intros j Hj. apply invertMask_lookup; lia. }
  split; [assumption|]. split; [rewrite R6; reflexivity|]. split.
  - rewrite R6. subst st1. simpl hasSmartSelection. rewrite someSelected_false. split.
    + intros Hall j Hj. specialize (Hall j). rewrite (G j Hj) in Hall.
      destruct (falsy (getByte mask j)); [exfalso; apply Hall|]; reflexivity.
    + intros Hall j Ej. pose proof (getByte_Some_range _ _ _ Ej) as Hr. rewrite L in Hr.
      rewrite (G j Hr), (Hall j Hr) in Ej. discriminate.
  - intros Hbin.
    rewrite (swapSelection_some _ (invertMask mask) R5).
    set (st2 := setHasSmartSelection _ _).
    destruct (renderSelectionOverlay_frame hatch st2) as (_ & _ & _ & _ & R5' & _).
    unfold run in R5'. rewrite R5'. subst st2. simpl.
    rewrite (invertMask_twice mask Hbin). reflexivity.
Qed.

Lemma eraseSelection_effect st :
  let st' := run eraseSelection st in
  fst (eraseSelection st) = Normal tt /\
  selectionMaskRef st' = None /\ hasSmartSelection st' = false /\
  (forall sc cv, selectionCanvasRef st = Some sc -> document st !! sc = Some cv ->
     context2d cv = true ->
     document st' !! sc =
       Some (mkCanvas (width cv) (height cv) true (transparent (width cv) (height cv)))) /\
  SelectFrame st st' /\
  swapSelection hatch st' = (Normal tt, st').
Proof.
  intros st'. subst st'.
  unfold run, eraseSelection, mbind, mret, Handler_bind, Handler_ret, modify, current.
  cbn beta iota. cbn [selectionCanvasRef setHasSmartSelection setSelectionMask document].
  assert (Hswap : forall D,
            swapSelection hatch
              (setDocument D (setHasSmartSelection false (setSelectionMask None st))) =
            (Normal tt, setDocument D (setHasSmartSelection false (setSelectionMask None st)))).
  { intros D. reflexivity. }
  assert (Hswap0 : swapSelection hatch (setHasSmartSelection false (setSelectionMask None st)) =
            (Normal tt, setHasSmartSelection false (setSelectionMask None st))) by reflexivity.
  assert (F0 : SelectFrame st (setHasSmartSelection false (setSelectionMask None st))).
  { split; simpl; reflexivity. }
  destruct (selectionCanvasRef st) as [sc|] eqn:Hsc.
  2: { simpl. split; [reflexivity|]. split; [reflexivity|]. split; [reflexivity|].
       split; [discriminate|]. split; assumption. }
  destruct (decide (sc ∈ dom (document st))) as [Hin|Hout].
  2: { simpl. split; [reflexivity|]. split; [reflexivity|]. split; [reflexivity|].
       split; [|split; assumption].
       intros sc' cv E Hcv. injection E as <-. exfalso. apply Hout.
       apply elem_of_dom. eauto. }
  unfold element, onCanvas, modify. cbn beta iota.
  cbn [document setHasSmartSelection setSelectionMask].
  destruct (negb (context2d (default defaultCanvas (document st !! sc)))) eqn:Hctx.
  - simpl. split; [reflexivity|]. split; [reflexivity|]. split; [reflexivity|].
    split; [|split; assumption].
    intros sc' cv E Hcv Hc. injection E as <-. rewrite Hcv in Hctx. simpl in Hctx.
    rewrite Hc in Hctx. discriminate.
  - cbn [fst snd selectionMaskRef hasSmartSelection setDocument document
         setHasSmartSelection setSelectionMask].
    split; [reflexivity|]. split; [reflexivity|]. split; [reflexivity|].
    split; [|split; [|apply (Hswap (alter clearAll sc (document st)))]].
    + intros sc' cv E Hcv Hc. injection E as <-.
      rewrite lookup_alter_eq, Hcv. simpl. unfold clearAll. rewrite Hc. reflexivity.
    + split; simpl; try reflexivity.
      * intros c Hc Hne. rewrite lookup_alter_ne; [reflexivity|]. congruence.
      * intros c Hc. apply elem_of_dom. apply elem_of_dom in Hc as [cv Hcv].
        destruct (decide (sc = c)) as [->|Hne].
        -- rewrite lookup_alter_eq, Hcv. eauto.
        -- rewrite lookup_alter_ne by assumption. eauto.
Qed.

(** X11.  The erase-selection button returns, drops the mask, turns the flag
    off and leaves a mounted selection canvas transparent; the swap
    button then does nothing. *)
Theorem erase_selection_resets st :
  let st' := run eraseSelection st in
  fst (eraseSelection st) = Normal tt /\
  selectionMaskRef st' = None /\ hasSmartSelection st' = false /\
  (forall sc cv, selectionCanvasRef st = Some sc -> document st !! sc = Some cv ->
     context2d cv = true ->
     document st' !! sc =
       Some (mkCanvas (width cv) (height cv) true (transparent (width cv) (height cv)))) /\
  swapSelection hatch st' = (Normal tt, st').
Proof.
  intros st'. destruct (eraseSelection_effect st) as (E1 & E2 & E3 & E4 & _ & E6).
  fold st' in E2, E3, E4, E6. repeat split; assumption.
Qed.

End SwapFacts.

Section SmartSelectFacts.

Context {N : JSNumber} {SM : StandardModel N}.
Variable drawScaled : Image -> Z -> Z -> list Z.
Variable hatch : Z -> Z -> list Z.

(** X8.  A click whose rounded position lies outside the canvas returns and
    leaves the mask, the flag and every mounted canvas as they were. *)
Theorem click_outside_canvas_selects_nothing st c cv img x y :
  imgRef st = Some img -> canvasRef st = Some c -> document st !! c = Some cv ->
  0 < width cv <= 2147483647 -> 0 < height cv <= 2147483647 ->
  round x < 0 \/ width cv <= round x \/ round y < 0 \/ height cv <= round y ->
  let st' := run (floodFillSelect drawScaled hatch x y) st in
  fst (floodFillSelect drawScaled hatch x y st) = Normal tt /\
  selectionMaskRef st' = selectionMaskRef st /\
  hasSmartSelection st' = hasSmartSelection st /\
  forall c', c' ∈ dom (document st) -> document st' !! c' = document st !! c'.
Proof.
  intros Himg Href Hcv Hw Hh Hout st'. subst st'.
  assert (Hdom : c ∈ dom (document st)) by (apply elem_of_dom; eauto).
  assert (Hfresh : forall c', c' ∈ dom (document st) -> fresh (dom (document st)) <> c').
  { intros c' Hc' E. subst c'. exact (is_fresh _ Hc'). }
  pose proof (Hfresh c Hdom) as Hm.
  set (m := fresh (dom (document st))) in *.
  set (D := alter (drawImage drawScaled img) m
              (alter (setHeight (num (height cv))) m
                 (alter (setWidth (num (width cv))) m
                    (<[m := defaultCanvas]> (document st))))).
  assert (E : floodFillSelect drawScaled hatch x y st = (Normal tt, setDocument D st)).
  { unfold floodFillSelect.
    unfold mbind, mret, Handler_bind, Handler_ret, current. rewrite Href.
    rewrite decide_True by assumption.
    unfold element, get, createCanvas, onCanvas, modify. cbn beta iota zeta.
    rewrite Himg. fold m.
    repeat (cbn beta iota zeta;
            cbn [document setDocument fst snd default from_option id fmap
                 option_fmap option_map negb orb width height context2d data img_width
                 img_height bitmap defaultCanvas drawImage selectionMaskRef selectMode];
            rewrite ?lookup_alter_eq, ?lookup_insert_eq;
            rewrite ?lookup_alter_ne, ?lookup_insert_ne by assumption;
            rewrite ?Hcv;
            rewrite ?(setWidth_num (width cv)), ?(setHeight_num (height cv)) by lia).
    unfold liftDom, getImageData, drawImage. cbn [width height bitmap].
    destruct (Z.eqb_spec (width cv) 0); [lia|].
    destruct (Z.eqb_spec (height cv) 0); [lia|].
    cbn [orb data].
    destruct (Z.ltb_spec (round x) 0); [reflexivity|].
    destruct (Z.leb_spec (width cv) (round x)); [reflexivity|].
    destruct (Z.ltb_spec (round y) 0); [reflexivity|].
    destruct (Z.leb_spec (height cv) (round y)); [reflexivity|].
    lia. }
  unfold run. rewrite E. simpl.
  split; [reflexivity|]. split; [reflexivity|]. split; [reflexivity|].
  intros c' Hc'. subst D.
  rewrite !lookup_alter_ne, lookup_insert_ne by (apply Hfresh; assumption). reflexivity.
Qed.

(** X7.  A click inside the canvas returns, and in the mask that results a
    position of the component of the clicked pixel holds 1 in include
    mode and 0 in exclude mode, while every other position holds what
    it held; the flag tells whether a 1 is left. *)
Theorem smart_select_merges_component st c cv img x y :
  imgRef st = Some img -> canvasRef st = Some c -> document st !! c = Some cv ->
  0 < width cv <= 2147483647 -> 0 < height cv <= 2147483647 ->
  0 <= round x < width cv -> 0 <= round y < height cv ->
  length (drawScaled img (width cv) (height cv)) = Z.to_nat (4 * (width cv * height cv)) ->
  let w := width cv in
  let h := height cv in
  let st' := run (floodFillSelect drawScaled hatch x y) st in
  let old := maskOrNew st w h in
  let component := Connected w h (drawScaled img w h) (round y * w + round x) in
  fst (floodFillSelect drawScaled hatch x y st) = Normal tt /\
  exists mask',
    selectionMaskRef st' = Some mask' /\ length mask' = length old /\
    hasSmartSelection st' = someSelected mask' /\
    forall j, 0 <= j < Z.of_nat (length old) ->
      (component j -> getByte mask' j = Some (mergeBit (selectMode st))) /\
      (~ component j -> getByte mask' j = getByte old j).
Proof.
  intros Himg Href Hcv Hw Hh Hx Hy Hlen w h st' old component.
  destruct (floodFill_component w h (drawScaled img w h) (round x) (round y)
              (Z.to_nat (w * h)) ltac:(lia) ltac:(lia) Hx Hy Hlen ltac:(lia))
    as (visited & popped & Hfill & Hreg).
  destruct (floodFillSelect_result drawScaled hatch st c cv img x y visited popped
              Himg Href Hcv Hw Hh Hx Hy Hfill)
    as (R1 & R2 & R3 & _).
  split; [assumption|].
  exists (mergeFill (selectMode st) visited old).
  destruct (mergeFill_lookup (selectMode st) visited old 0) as [L _].
  split; [assumption|]. split; [assumption|]. split; [assumption|].
  intros j Hj.
  destruct (mergeFill_lookup (selectMode st) visited old j) as [_ G].
  rewrite G by lia.
  unfold component. rewrite <- (Hreg j). unfold inRegion.
  destruct (getByte visited j) as [v|]; simpl.
  - destruct (Z.eqb_spec v 2) as [->|Hne].
    + split; [reflexivity|]. intros Hn. exfalso. apply Hn. reflexivity.
    + split; [|reflexivity]. intros Hv. congruence.
  - split; [discriminate | reflexivity].
Qed.

(** X9.  The flood fill, the swap button and the erase button change at most
    the mask, its flag, the selection canvas and elements new to the
    document, whether they return or throw: the pixels of every other
    mounted canvas, the history and the tool settings are as before. *)
Theorem selection_tools_leave_painting_alone st x y :
  let filled := run (floodFillSelect drawScaled hatch x y) st in
  let swapped := run (swapSelection hatch) st in
  let erased := run eraseSelection st in
  (SelectFrame st filled /\ SelectFrame st swapped /\ SelectFrame st erased) /\
  forall c, c ∈ dom (document st) -> selectionCanvasRef st <> Some c ->
    pixelsOf c filled = pixelsOf c st /\
    pixelsOf c swapped = pixelsOf c st /\
    pixelsOf c erased = pixelsOf c st.
Proof.
  intros filled swapped erased.
  assert (F1 : SelectFrame st filled) by apply floodFillSelect_SelectFrame.
  assert (F2 : SelectFrame st swapped).
  { subst swapped. unfold run.
    destruct (selectionMaskRef st) as [mask|] eqn:E.
    - rewrite (swapSelection_some hatch st mask E).
      eapply SelectFrame_trans; [|apply renderSelectionOverlay_SelectFrame].
      split; simpl; reflexivity.
    - unfold swapSelection, mbind, Handler_bind, get. cbn beta iota. rewrite E.
      apply SelectFrame_refl. }
  assert (F3 : SelectFrame st erased).
  { destruct (eraseSelection_effect hatch st) as (_ & _ & _ & _ & F & _). exact F. }
  split; [split; [|split]; assumption|].
  intros c Hin Hne.
  assert (P : forall st', SelectFrame st st' -> pixelsOf c st' = pixelsOf c st).
  { intros st' F. unfold pixelsOf. rewrite (select_others _ _ F c Hin Hne). reflexivity. }
  split; [|split]; apply P; assumption.
Qed.

End SmartSelectFacts.

(** ** Frames of the painting handlers *)

#[local] Arguments putImageData : simpl never.
#[local] Arguments getImageData : simpl never.
#[local] Arguments transparent : simpl never.

Lemma PaintFrame_refl st : PaintFrame st st.
Proof. split; try reflexivity. intros c cv Hc. exists cv. repeat split; assumption. Qed.

Lemma PaintFrame_trans st1 st2 st3 :
  PaintFrame st1 st2 -> PaintFrame st2 st3 -> PaintFrame st1 st3.
Proof.
  intros [A1 A2 A3 A4 A5 A6 A7 A8 A9 A10 A11 A12 A13 A14]
         [B1 B2 B3 B4 B5 B6 B7 B8 B9 B10 B11 B12 B13 B14].
  split; try congruence.
  - intros c Hc. rewrite B1, A1; [reflexivity | assumption | congruence].
  - intros c cv Hc. destruct (A2 c cv Hc) as (cv1 & H1 & W1 & H1' & C1).
    destruct (B2 c cv1 H1) as (cv2 & H2 & W2 & H2' & C2).
    exists cv2. repeat split; congruence.
Qed.

(** The frame of a sequence. *)
Lemma PaintFrame_bind {A B} (m : Handler A) (k : A -> Handler B) st :
  PaintFrame st (run m st) -> (forall a st1, PaintFrame st1 (run (k a) st1)) ->
  PaintFrame st (run (m ≫= k) st).
Proof.
  intros Hm Hk. unfold run, mbind, Handler_bind in *.
  destruct (m st) as [[a|r] st1]; simpl in *; [|assumption].
  eapply PaintFrame_trans; [eassumption | apply Hk].
Qed.

(** A change of the history or of the drawing flag. *)
Lemma PaintFrame_history st u r d :
  PaintFrame st (setDrawing d (setRedoStack r (setUndoStack u st))).
Proof. split; simpl; try reflexivity. intros c cv Hc. exists cv. repeat split; assumption. Qed.

(** A drawing operation on the paint canvas that keeps its size. *)
Lemma PaintFrame_onCanvas st c (f : Canvas -> Canvas) :
  canvasRef st = Some c ->
  (forall cv, width (f cv) = width cv /\ height (f cv) = height cv /\
              context2d (f cv) = context2d cv) ->
  PaintFrame st (setDocument (alter f c (document st)) st).
Proof.
  intros Href Hf. split; simpl; try reflexivity.
  - intros c' Hne. rewrite lookup_alter_ne; [reflexivity | congruence].
  - intros c' cv Hc'. destruct (decide (c = c')) as [->|Hne].
    + rewrite lookup_alter_eq, Hc'. simpl. eexists. split; [reflexivity|]. apply Hf.
    + rewrite lookup_alter_ne by assumption. exists cv. repeat split; assumption.
Qed.

Lemma putImageData_size img cv :
  width (putImageData img cv) = width cv /\ height (putImageData img cv) = height cv /\
  context2d (putImageData img cv) = context2d cv.
Proof. unfold putImageData. simpl. repeat split. Qed.

Section PaintFrames.

Context {N : JSNumber}.
Variable keep : nat.
Variable rasterArc :
  CompositeOperation -> Color -> Number -> Number -> Number -> Z -> Z -> list Z -> list Z.
Variable drawScaled : Image -> Z -> Z -> list Z.
Variable hatch : Z -> Z -> list Z.

Lemma current_cases (ref : Editor -> option nat) st :
  current ref st = (Normal None, st) \/
  exists c, current ref st = (Normal (Some c), st) /\ ref st = Some c /\
            c ∈ dom (document st).
Proof.
  unfold current. destruct (ref st) as [c|]; [|left; reflexivity].
  destruct (decide (c ∈ dom (document st))); [|left; reflexivity].
  right. exists c. repeat split; assumption.
Qed.

Lemma saveSnapshot_PaintFrame st : PaintFrame st (run (saveSnapshot keep) st).
Proof.
  unfold run, saveSnapshot, mbind, mret, Handler_bind, Handler_ret.
  destruct (current_cases canvasRef st) as [Hcur | (c & Hcur & Href & _)]; rewrite Hcur;
    [apply PaintFrame_refl|].
  unfold element, modify. cbn beta iota.
  destruct (negb _); [apply PaintFrame_refl|].
  simpl. split; simpl; try reflexivity.
  intros c' cv Hc. exists cv. repeat split; assumption.
Qed.

Lemma runUpdaters_PaintFrame q : forall st, PaintFrame st (run (runUpdaters q) st).
Proof.
  induction q as [|u q IH]; intros st; simpl runUpdaters; [apply PaintFrame_refl|].
  apply PaintFrame_bind; [|intros _ st1; apply IH].
  unfold run, runUpdater, mbind, Handler_bind, element, liftDom, modify. cbn beta iota.
  destruct (getImageData _) as [err|snap]; [apply PaintFrame_refl|].
  simpl. split; simpl; try reflexivity.
  intros c' cv Hc. exists cv. repeat split; assumption.
Qed.

(** The render changes the history alone. *)
Lemma render_PaintFrame st : PaintFrame st (run render st).
Proof.
  unfold render. unfold run, mbind, Handler_bind, get, modify. cbn beta iota.
  eapply PaintFrame_trans; [|apply runUpdaters_PaintFrame].
  split; simpl; try reflexivity.
  intros c' cv Hc. exists cv. repeat split; assumption.
Qed.

Lemma event_PaintFrame {A} (m : Handler A) st :
  PaintFrame st (run m st) -> PaintFrame st (run (event m) st).
Proof.
  intros Hm. unfold run, event in *.
  destruct (m st) as [[a|r] st1]; simpl in *;
    (eapply PaintFrame_trans; [exact Hm | apply render_PaintFrame]).
Qed.

Lemma draw_PaintFrame x y st : PaintFrame st (run (draw rasterArc x y) st).
Proof.
  unfold run, draw, mbind, mret, Handler_bind, Handler_ret, get. cbn beta iota.
  destruct (toolMode st); try apply PaintFrame_refl.
  destruct (current_cases canvasRef st) as [Hcur | (c & Hcur & Href & _)]; rewrite Hcur;
    [apply PaintFrame_refl|].
  unfold element, onCanvas, modify. cbn beta iota.
  destruct (negb _); [apply PaintFrame_refl|].
  destruct (paintMode st); simpl; apply PaintFrame_onCanvas; try assumption;
    intros cv; unfold fillArc; simpl; repeat split.
Qed.

Lemma setDrawing_PaintFrame d st : PaintFrame st (run (modify (setDrawing d)) st).
Proof.
  unfold run, modify. simpl. split; simpl; try reflexivity.
  intros c cv Hc. exists cv. repeat split; assumption.
Qed.

Lemma onPointerMove_PaintFrame x y st : PaintFrame st (run (onPointerMove rasterArc x y) st).
Proof.
  unfold onPointerMove, run, mbind, Handler_bind, get. cbn beta iota.
  destruct (drawing st); [|apply PaintFrame_refl].
  destruct (toolMode st); try apply PaintFrame_refl. apply draw_PaintFrame.
Qed.

Lemma moves_PaintFrame ps : forall st, PaintFrame st (run (moves rasterArc ps) st).
Proof.
  induction ps as [|p ps IH]; intros st; simpl moves.
  - apply PaintFrame_refl.
  - apply PaintFrame_bind; [|intros _ st1; apply IH].
    apply event_PaintFrame, onPointerMove_PaintFrame.
Qed.

Lemma press_PaintFrame x y st :
  PaintFrame st (run (saveSnapshot keep;; modify (setDrawing true);; draw rasterArc x y) st).
Proof.
  apply PaintFrame_bind; [apply saveSnapshot_PaintFrame|]. intros _ st1.
  apply PaintFrame_bind; [apply setDrawing_PaintFrame|]. intros _ st2.
  apply draw_PaintFrame.
Qed.

Lemma onPointerDown_PaintFrame x y st :
  toolMode st <> ToolSelect ->
  PaintFrame st (run (onPointerDown keep rasterArc drawScaled hatch x y) st).
Proof.
  intros Htool. unfold onPointerDown.
  change (run _ st) with
    (run (match toolMode st with
          | ToolSelect => floodFillSelect drawScaled hatch x y
          | ToolPaint => saveSnapshot keep;; modify (setDrawing true);; draw rasterArc x y
          | ToolMove => mret tt
          end) st).
  destruct (toolMode st); [apply press_PaintFrame | apply PaintFrame_refl | contradiction].
Qed.

Lemma touch_PaintFrame x y st :
  PaintFrame st (run (onTouchStart keep rasterArc x y) st) /\
  PaintFrame st (run (onTouchMove rasterArc x y) st) /\
  PaintFrame st (run onTouchEnd st).
Proof.
  split; [|split].
  - unfold onTouchStart.
    change (run _ st) with
      (run (match toolMode st with
            | ToolPaint => saveSnapshot keep;; modify (setDrawing true);; draw rasterArc x y
            | _ => mret tt
            end) st).
    destruct (toolMode st); [apply press_PaintFrame | apply PaintFrame_refl..].
  - unfold onTouchMove, run, mbind, Handler_bind, get. cbn beta iota.
    destruct (toolMode st); try apply PaintFrame_refl.
    destruct (drawing st); [apply draw_PaintFrame | apply PaintFrame_refl].
  - apply setDrawing_PaintFrame.
Qed.

Lemma stroke_PaintFrame s st :
  toolMode st <> ToolSelect ->
  PaintFrame st (run (stroke keep rasterArc drawScaled hatch s) st).
Proof.
  intros Htool. unfold stroke.
  apply PaintFrame_bind; [apply event_PaintFrame, onPointerDown_PaintFrame; assumption|].
  intros _ st1.
  apply PaintFrame_bind; [apply moves_PaintFrame|]. intros _ st2.
  apply event_PaintFrame, setDrawing_PaintFrame.
Qed.

Lemma undo_redo_PaintFrame st :
  PaintFrame st (run undo st) /\ PaintFrame st (run redo st).
Proof.
  split.
  - unfold run, undo, mbind, mret, Handler_bind, Handler_ret.
    destruct (current_cases canvasRef st) as [Hcur | (c & Hcur & Href & _)]; rewrite Hcur;
      unfold get; cbn beta iota.
    { destruct (pop (undoStack st)) as [[last prev]|]; apply PaintFrame_refl. }
    destruct (pop (undoStack st)) as [[last prev]|]; [|apply PaintFrame_refl].
    unfold element, liftDom, onCanvas, modify. cbn beta iota.
    destruct (negb _); [apply PaintFrame_refl|].
    destruct (getImageData _) as [err|snap]; [apply PaintFrame_refl|].
    cbn beta iota. cbn [fst snd].
    eapply PaintFrame_trans;
      [apply (PaintFrame_onCanvas st c (putImageData last) Href); intros cv;
       apply putImageData_size|].
    split; simpl; try reflexivity.
    intros c' cv Hc. exists cv. repeat split; assumption.
  - unfold run, redo, mbind, mret, Handler_bind, Handler_ret.
    destruct (current_cases canvasRef st) as [Hcur | (c & Hcur & Href & _)]; rewrite Hcur;
      unfold get; cbn beta iota.
    { destruct (pop (redoStack st)) as [[top next]|]; apply PaintFrame_refl. }
    destruct (pop (redoStack st)) as [[top next]|]; [|apply PaintFrame_refl].
    unfold element, liftDom, onCanvas, modify. cbn beta iota.
    destruct (negb _); [apply PaintFrame_refl|].
    destruct (getImageData _) as [err|snap]; [apply PaintFrame_refl|].
    cbn beta iota. cbn [fst snd].
    eapply PaintFrame_trans;
      [apply (PaintFrame_onCanvas st c (putImageData top) Href); intros cv;
       apply putImageData_size|].
    split; simpl; try reflexivity.
    intros c' cv Hc. exists cv. repeat split; assumption.
Qed.

Lemma resetCanvas_PaintFrame st : PaintFrame st (run (resetCanvas keep) st).
Proof.
  unfold run, resetCanvas, mbind, mret, Handler_bind, Handler_ret.
  destruct (current_cases canvasRef st) as [Hcur | (c & Hcur & Href & _)]; rewrite Hcur;
    [apply PaintFrame_refl|].
  unfold element. cbn beta iota. destruct (negb _); [apply PaintFrame_refl|].
  pose proof (saveSnapshot_PaintFrame st) as F. unfold run in F.
  destruct (saveSnapshot keep st) as [[[]|r] st1]; simpl in F; [|assumption].
  unfold onCanvas, modify. simpl.
  eapply PaintFrame_trans; [exact F|].
  apply PaintFrame_onCanvas.
  - rewrite (paint_canvasRef _ _ F). assumption.
  - intros cv. unfold clearAll. simpl. repeat split.
Qed.

(** X5.  A stroke outside the select tool, the touch handlers in every tool,
    undo, redo and reset change at most the pixels of the paint canvas,
    the drawing flag and the history: the selection mask and its flag, the
    pixels of every other canvas, every canvas size, the refs and the
    tool settings are as before, whether the handler returns or throws.
    The render that follows a handler keeps all of that too. *)
Theorem painting_leaves_selection_alone st :
  (forall s, toolMode st <> ToolSelect ->
     PaintFrame st (run (stroke keep rasterArc drawScaled hatch s) st)) /\
  (forall x y,
     PaintFrame st (run (onTouchStart keep rasterArc x y) st) /\
     PaintFrame st (run (onTouchMove rasterArc x y) st) /\
     PaintFrame st (run onTouchEnd st)) /\
  PaintFrame st (run undo st) /\ PaintFrame st (run redo st) /\
  PaintFrame st (run (resetCanvas keep) st) /\
  (forall (m : Handler unit),
     PaintFrame st (run m st) -> PaintFrame st (run (event m) st)).
Proof.
  split; [intros s Htool; apply stroke_PaintFrame; assumption|].
  split; [intros x y; apply touch_PaintFrame|].
  split; [apply undo_redo_PaintFrame|]. split; [apply undo_redo_PaintFrame|].
  split; [apply resetCanvas_PaintFrame|].
  intros m; apply event_PaintFrame.
Qed.

End PaintFrames.

(** ** More on the exported mask *)

#[local] Arguments toDimension : simpl never.
#[local] Arguments transparent : simpl never.
#[local] Arguments projectMask : simpl never.
#[local] Arguments fillBlack : simpl never.
#[local] Arguments putImageData : simpl never.

Lemma opaqueBlack_byte w h j :
  0 <= j < 4 * (w * h) ->
  getByte (opaqueBlack w h) j = Some (if j mod 4 =? 3 then 255 else 0).
Proof.
  intros Hj. unfold opaqueBlack, fillBlack, getByte. cbn [bitmap].
  destruct (Z.ltb_spec j 0); [lia|].
  rewrite list_lookup_imap.
  destruct (transparent w h !! Z.to_nat j) eqn:E.
  - simpl. rewrite Z2Nat.id by lia. reflexivity.
  - apply lookup_ge_None in E. rewrite transparent_length in E. lia.
Qed.

Section ExportMore.

Context {N : JSNumber} {SM : StandardModel N}.

Lemma maskPixels_byte cv natW natH j :
  0 <= j < 4 * (natW * natH) ->
  getByte (maskPixels cv natW natH) j =
    if decide (j ∈ maskWrites (width cv) (height cv) (bitmap cv) natW natH
                     (div (num natW) (num (width cv))) (div (num natH) (num (height cv))))
    then Some 0 else Some (if j mod 4 =? 3 then 255 else 0).
Proof.
  intros Hj. unfold maskPixels. rewrite projectMask_writes.
  destruct (writes_lookup 0 (maskWrites (width cv) (height cv) (bitmap cv) natW natH
              (div (num natW) (num (width cv))) (div (num natH) (num (height cv))))
              (opaqueBlack natW natH) j) as [_ Hget].
  rewrite Hget by (rewrite ?opaqueBlack_length; lia).
  destruct (decide _); [reflexivity|]. apply opaqueBlack_byte. assumption.
Qed.

(** X15.  Every pixel of the exported mask is black, with alpha 0 or 255. *)
Theorem exportMask_is_black_and_binary st c cv natW natH :
  canvasRef st = Some c -> document st !! c = Some cv -> context2d cv = true ->
  0 < width cv <= 2147483647 -> 0 < height cv <= 2147483647 ->
  naturalSize st = (natW, natH) ->
  0 < natW <= 2147483647 -> 0 < natH <= 2147483647 ->
  exists art,
    fst (exportMask st) = Normal (Some art) /\
    length (data art) = Z.to_nat (4 * (natW * natH)) /\
    forall i, 0 <= i < natW * natH ->
      pixelAt (data art) i = [Some 0; Some 0; Some 0; Some 0] \/
      pixelAt (data art) i = [Some 0; Some 0; Some 0; Some 255].
Proof.
  intros Href Hcv Hctx Hw Hh Hnat HnatW HnatH.
  exists (mkImageData natW natH (maskPixels cv natW natH)).
  split; [apply (exportMask_result st c cv natW natH); (assumption || lia)|].
  split; [apply maskPixels_length|].
  intros i Hi. cbn [data]. unfold pixelAt.
  assert (M0 : (i * 4) mod 4 = 0) by (apply Z.mod_mul; lia).
  assert (M1 : (i * 4 + 1) mod 4 = 1) by (rewrite Z.add_comm, Z.mod_add by lia; reflexivity).
  assert (M2 : (i * 4 + 2) mod 4 = 2) by (rewrite Z.add_comm, Z.mod_add by lia; reflexivity).
  assert (M3 : (i * 4 + 3) mod 4 = 3) by (rewrite Z.add_comm, Z.mod_add by lia; reflexivity).
  rewrite !maskPixels_byte by lia. rewrite M0, M1, M2, M3. simpl.
  repeat destruct (decide _); (left; reflexivity) || (right; reflexivity).
Qed.

(** X16.  When no pixel of the paint canvas has an alpha above 10, the
    exported mask is opaque black everywhere. *)
Theorem exportMask_ignores_faint_paint st c cv natW natH :
  canvasRef st = Some c -> document st !! c = Some cv -> context2d cv = true ->
  0 < width cv <= 2147483647 -> 0 < height cv <= 2147483647 ->
  naturalSize st = (natW, natH) ->
  0 < natW <= 2147483647 -> 0 < natH <= 2147483647 ->
  unpainted cv ->
  fst (exportMask st) = Normal (Some (mkImageData natW natH (opaqueBlack natW natH))).
Proof.
  intros Href Hcv Hctx Hw Hh Hnat HnatW HnatH Hun.
  rewrite (exportMask_result st c cv natW natH) by (assumption || lia).
  do 3 f_equal.
  apply list_eq_getByte.
  - rewrite maskPixels_length, opaqueBlack_length. reflexivity.
  - intros j Hj Hl. rewrite maskPixels_length in Hl.
    rewrite maskPixels_byte by lia. rewrite opaqueBlack_byte by lia.
    rewrite decide_False; [reflexivity|].
    intros Hin. apply elem_of_maskWrites in Hin as (dx & dy & _ & _ & Hp & _).
    exact (Hun dx dy Hp).
Qed.

(** X17.  A second export answers the mask the first one answered, and the
    paint canvas has the pixels it had. *)
Theorem repeated_export_gives_the_same_mask st c cv natW natH :
  canvasRef st = Some c -> document st !! c = Some cv -> context2d cv = true ->
  0 < width cv <= 2147483647 -> 0 < height cv <= 2147483647 ->
  naturalSize st = (natW, natH) ->
  0 < natW <= 2147483647 -> 0 < natH <= 2147483647 ->
  let st' := run exportMask st in
  fst (exportMask st') = fst (exportMask st) /\
  fst (exportMask st') = Normal (Some (mkImageData natW natH (maskPixels cv natW natH))) /\
  pixelsOf c st' = pixelsOf c st.
Proof.
  intros Href Hcv Hctx Hw Hh Hnat HnatW HnatH st'.
  pose proof (exportMask_repeatable st c cv natW natH Href Hcv Hctx ltac:(lia) ltac:(lia)
                Hnat HnatW HnatH) as E.
  fold st' in E. split; [assumption|]. split.
  - rewrite E. apply (exportMask_result st c cv natW natH); (assumption || lia).
  - pose proof (exportMask_frame st) as F. cbv zeta in F. destruct F as (Hdoc & _).
    unfold pixelsOf, st'. rewrite Hdoc; [reflexivity|]. apply elem_of_dom. eauto.
Qed.

End ExportMore.

(** ** Empty canvases, sizing and thumbnails *)

#[local] Arguments toDimension : simpl never.
#[local] Arguments transparent : simpl never.
#[local] Arguments projectMask : simpl never.
#[local] Arguments fillBlack : simpl never.
#[local] Arguments putImageData : simpl never.

Section EmptyCanvas.

Context {N : JSNumber}.
Variable keep : nat.
Variable rasterArc :
  CompositeOperation -> Color -> Number -> Number -> Number -> Z -> Z -> list Z -> list Z.
Variable drawScaled : Image -> Z -> Z -> list Z.
Variable hatch : Z -> Z -> list Z.

Lemma getImageData_empty cv :
  width cv = 0 \/ height cv = 0 -> getImageData cv = inl IndexSizeError.
Proof.
  intros [E|E]; unfold getImageData; rewrite E; [reflexivity|].
  rewrite orb_true_r. reflexivity.
Qed.

(** On a mounted canvas [saveSnapshot] returns, whatever the canvas
    holds. *)
Lemma saveSnapshot_mounted st c cv :
  canvasRef st = Some c -> document st !! c = Some cv -> context2d cv = true ->
  saveSnapshot keep st =
    (Normal tt,
     setRedoStack [] (setUndoUpdates (undoUpdates st ++ [mkUpdater keep c]) st)).
Proof.
  intros Href Hcv Hctx.
  assert (Hdom : c ∈ dom (document st)) by (apply elem_of_dom; eauto).
  unfold saveSnapshot, mbind, Handler_bind, current. rewrite Href.
  rewrite decide_True by assumption.
  unfold element, modify. cbn beta iota. rewrite Hcv. cbn [default from_option id].
  rewrite Hctx. reflexivity.
Qed.

(** The render of an updater that holds an empty canvas throws. *)
Lemma render_empty st c k cv :
  undoUpdates st = [mkUpdater k c] -> document st !! c = Some cv ->
  width cv = 0 \/ height cv = 0 ->
  fst (render st) = Abrupt (Thrown IndexSizeError).
Proof.
  intros Hq Hcv Hz.
  unfold render, mbind, Handler_bind, get, modify. cbn beta iota. rewrite Hq.
  cbn [runUpdaters]. unfold runUpdater, mbind, Handler_bind, element, liftDom.
  cbn [updaterCanvas document setUndoUpdates]. rewrite Hcv. cbn [default from_option id].
  rewrite (getImageData_empty cv Hz). reflexivity.
Qed.

Lemma press_empty st c cv x y :
  canvasRef st = Some c -> document st !! c = Some cv -> context2d cv = true ->
  width cv = 0 \/ height cv = 0 -> undoUpdates st = [] -> toolMode st = ToolPaint ->
  exists cv' st',
    onPointerDown keep rasterArc drawScaled hatch x y st = (Normal tt, st') /\
    undoUpdates st' = [mkUpdater keep c] /\ document st' !! c = Some cv' /\
    (width cv' = 0 \/ height cv' = 0) /\ drawing st' = true /\ redoStack st' = [].
Proof.
  intros Href Hcv Hctx Hz Hq Htool.
  assert (Hdom : c ∈ dom (document st)) by (apply elem_of_dom; eauto).
  unfold onPointerDown, mbind, Handler_bind, get. cbn beta iota.
  rewrite Htool, (saveSnapshot_mounted st c cv Href Hcv Hctx), Hq. cbn beta iota.
  unfold modify. cbn beta iota.
  unfold draw, mbind, mret, Handler_bind, Handler_ret, get, current, element, onCanvas, modify.
  simpl. rewrite Htool. simpl. rewrite Href. simpl.
  rewrite decide_True by assumption. simpl.
  rewrite Hcv. simpl. rewrite Hctx. simpl.
  destruct (paintMode st); simpl;
    (eexists; eexists; split; [reflexivity|]; simpl; rewrite lookup_alter_eq, Hcv; simpl;
     repeat split; try reflexivity; exact Hz).
Qed.

(** X14.  On a paint canvas of width or height 0, an undo or redo with a
    snapshot to restore and [exportMask] throw an [IndexSizeError], the
    first two without a change of the state.  [saveSnapshot], the
    pointer-down of the paint tool and the reset button return, with the
    redo stack emptied: the updater they queue throws the [IndexSizeError]
    at the render that follows.  In the panel, where the snapshot is read in
    the handler, [saveSnapshot] and the pointer-down throw and change
    nothing. *)
Theorem empty_canvas_throws st c cv :
  canvasRef st = Some c -> document st !! c = Some cv -> context2d cv = true ->
  width cv = 0 \/ height cv = 0 -> undoUpdates st = [] ->
  (fst (saveSnapshot keep st) = Normal tt /\
   redoStack (run (saveSnapshot keep) st) = [] /\
   fst (event (saveSnapshot keep) st) = Abrupt (Thrown IndexSizeError)) /\
  (toolMode st = ToolPaint -> forall x y,
     fst (onPointerDown keep rasterArc drawScaled hatch x y st) = Normal tt /\
     redoStack (run (onPointerDown keep rasterArc drawScaled hatch x y) st) = [] /\
     drawing (run (onPointerDown keep rasterArc drawScaled hatch x y) st) = true /\
     fst (event (onPointerDown keep rasterArc drawScaled hatch x y) st) =
       Abrupt (Thrown IndexSizeError)) /\
  (fst (resetCanvas keep st) = Normal tt /\
   redoStack (run (resetCanvas keep) st) = [] /\
   fst (event (resetCanvas keep) st) = Abrupt (Thrown IndexSizeError)) /\
  (undoStack st <> [] -> undo st = (Abrupt (Thrown IndexSizeError), st)) /\
  (redoStack st <> [] -> redo st = (Abrupt (Thrown IndexSizeError), st)) /\
  fst (exportMask st) = Abrupt (Thrown IndexSizeError) /\
  (forall p, Panel.canvasRef p = Some c -> Panel.document p !! c = Some cv ->
     Panel.saveSnapshot p = (Abrupt (Thrown IndexSizeError), p) /\
     forall x y,
       Panel.onPointerDown rasterArc x y p = (Abrupt (Thrown IndexSizeError), p)).
Proof.
  intros Href Hcv Hctx Hz Hq.
  pose proof (saveSnapshot_mounted st c cv Href Hcv Hctx) as Hsave. rewrite Hq in Hsave.
  assert (Hdom : c ∈ dom (document st)) by (apply elem_of_dom; eauto).
  assert (Hcur : current canvasRef st = (Normal (Some c), st)).
  { unfold current. rewrite Href. rewrite decide_True by assumption. reflexivity. }
  split; [|split; [|split; [|split; [|split; [|split]]]]].
  - unfold run, event. rewrite Hsave. cbn [fst snd].
    split; [reflexivity|]. split; [reflexivity|].
    apply (render_empty _ c keep cv); [reflexivity | exact Hcv | exact Hz].
  - intros Htool x y.
    destruct (press_empty st c cv x y Href Hcv Hctx Hz Hq Htool)
      as (cv' & st' & Hdown & Hq' & Hcv' & Hz' & Hd & Hr).
    unfold run, event. rewrite Hdown. cbn [fst snd].
    split; [reflexivity|]. split; [assumption|]. split; [assumption|].
    apply (render_empty st' c keep cv'); assumption.
  - assert (Hreset : resetCanvas keep st =
      (Normal tt,
       setDocument (alter clearAll c (document st))
         (setRedoStack [] (setUndoUpdates [mkUpdater keep c] st)))).
    { unfold resetCanvas, mbind, Handler_bind. rewrite Hcur.
      unfold element. cbn beta iota. rewrite Hcv. cbn [default from_option id].
      rewrite Hctx. cbn [negb]. rewrite Hsave. reflexivity. }
    unfold run, event. rewrite Hreset. cbn [fst snd].
    split; [reflexivity|]. split; [reflexivity|].
    apply (render_empty _ c keep (clearAll cv)); [reflexivity | | exact Hz].
    simpl. rewrite lookup_alter_eq, Hcv. reflexivity.
  - intros Hne. destruct (list_snoc_inv _ Hne) as (U & s & E).
    unfold undo, mbind, Handler_bind. rewrite Hcur. unfold get. cbn beta iota.
    rewrite E, pop_snoc.
    unfold element, liftDom. cbn beta iota. rewrite Hcv. cbn [default from_option id].
    rewrite Hctx. cbn [negb]. rewrite (getImageData_empty cv Hz). reflexivity.
  - intros Hne. destruct (list_snoc_inv _ Hne) as (U & s & E).
    unfold redo, mbind, Handler_bind. rewrite Hcur. unfold get. cbn beta iota.
    rewrite E, pop_snoc.
    unfold element, liftDom. cbn beta iota. rewrite Hcv. cbn [default from_option id].
    rewrite Hctx. cbn [negb]. rewrite (getImageData_empty cv Hz). reflexivity.
  - assert (Hm : fresh (dom (document st)) <> c).
    { intros E. rewrite <- E in Hdom. exact (is_fresh _ Hdom). }
    unfold exportMask, mbind, mret, Handler_bind, Handler_ret. rewrite Hcur.
    unfold element, get, createCanvas, onCanvas, modify. cbn beta iota zeta.
    set (m := fresh (dom (document st))) in *.
    repeat (cbn beta iota zeta;
            cbn [document setDocument fst snd naturalSize default from_option id fmap
                 option_fmap option_map negb orb context2d defaultCanvas setWidth setHeight
                 fillBlack];
            rewrite ?lookup_alter_eq, ?lookup_insert_eq;
            rewrite ?lookup_alter_ne, ?lookup_insert_ne by assumption;
            rewrite ?Hcv, ?Hctx).
    unfold liftDom. rewrite (getImageData_empty cv Hz). reflexivity.
  - intros p Hpref Hpcv.
    assert (Hpdom : c ∈ dom (Panel.document p)) by (apply elem_of_dom; eauto).
    assert (Hps : Panel.saveSnapshot p = (Abrupt (Thrown IndexSizeError), p)).
    { unfold Panel.saveSnapshot, mbind, Panel.PanelHandler_bind, Panel.current.
      rewrite Hpref. rewrite decide_True by assumption.
      unfold Panel.element, Panel.liftDom. cbn beta iota. rewrite Hpcv.
      cbn [default from_option id]. rewrite Hctx. cbn [negb].
      rewrite (getImageData_empty cv Hz). reflexivity. }
    split; [assumption|]. intros x y.
    unfold Panel.onPointerDown, mbind, Panel.PanelHandler_bind. rewrite Hps. reflexivity.
Qed.

End EmptyCanvas.

Section ThinImages.

Context {N : JSNumber} {SM : StandardModel N}.

Lemma below_one_pixel (f : Number) a H W maxH :
  0 < W -> 0 <= a <= 2147483647 -> 0 < maxH <= 9007199254740992 -> a * H < W ->
  (0 <= value f /\ inject_Z (a * H) - 1 < value f * inject_Z W /\
   value f * inject_Z W < inject_Z (a * H) + 1)%Q ->
  forall g, canvasSize (if gtb f (num maxH) then (g, num maxH) else (num a, f)) = (a, 0).
Proof.
  intros HW Ha HmaxH Hthin (Hf0 & Hflo & Hfhi) g.
  pose proof (gtb_close f maxH (a * H) W ltac:(lia) HW Hflo Hfhi) as Hg.
  destruct (gtb f (num maxH)); [nia|].
  destruct (floor_close (value f) (a * H) W HW Hf0 Hflo Hfhi) as (Hc0 & _ & Hchi).
  fold (floor f) in *.
  assert (Hz : floor f = 0) by nia.
  unfold canvasSize. cbn [fst snd].
  rewrite toDimension_num by lia.
  rewrite toDimension_floor by (try assumption; lia).
  rewrite Hz. reflexivity.
Qed.

(** X13.  An image more than [min clientWidth 900] times as wide as high (in
    the panel: more than [min clientWidth naturalWidth] times) gets a
    canvas of height 0. *)
Theorem thin_image_canvas_is_empty (W H cw ch : Z) :
  0 < W <= 33554432 -> 0 < H <= 33554432 ->
  0 < cw <= 33554432 -> 0 < ch <= 33554432 ->
  (Z.min cw 900 * H < W ->
   canvasSize (editPageDisplaySize W H cw ch) = (Z.min cw 900, 0)) /\
  (Z.min cw W * H < W ->
   canvasSize (editPanelDisplaySize W H cw ch) = (Z.min cw W, 0)).
Proof.
  intros HW HH Hcw Hch.
  assert (Hprod : forall x y, 0 < x <= 33554432 -> 0 < y <= 33554432 ->
                              x * y <= 1125899906842624) by (intros; nia).
  split; intros Hthin.
  - unfold editPageDisplaySize. destruct (Z.eqb_spec ch 0) as [?|_]; [lia|].
    apply (below_one_pixel _ (Z.min cw 900) H W ch); try lia.
    apply mul_ratio_close; try lia; apply Hprod; lia.
  - unfold editPanelDisplaySize.
    apply (below_one_pixel _ (Z.min cw W) H W ch); try lia.
    apply div_ratio_close; try lia; apply Hprod; lia.
Qed.

End ThinImages.

Section Allocation.

Context {N : JSNumber}.

(** X12.  With the image loaded and both canvases mounted, the sizing effect
    gives the paint canvas and the selection canvas the same computed
    size, leaves both transparent, drops the mask and turns the flag
    off; it does not touch the history. *)
Theorem sizing_aligns_the_canvases st c sc cv scv cw ch :
  imgLoaded st = true ->
  canvasRef st = Some c -> selectionCanvasRef st = Some sc -> c <> sc ->
  document st !! c = Some cv -> document st !! sc = Some scv ->
  containerRef st = Some (cw, ch) ->
  let size :=
    canvasSize (editPageDisplaySize (fst (naturalSize st)) (snd (naturalSize st)) cw ch) in
  let blank := transparent (fst size) (snd size) in
  let st' := run allocateSurfaces st in
  fst (allocateSurfaces st) = Normal tt /\
  document st' !! c = Some (mkCanvas (fst size) (snd size) (context2d cv) blank) /\
  document st' !! sc = Some (mkCanvas (fst size) (snd size) (context2d scv) blank) /\
  selectionMaskRef st' = None /\ hasSmartSelection st' = false /\
  undoStack st' = undoStack st /\ redoStack st' = redoStack st.
Proof.
  intros Hloaded Href Hsref Hne Hcv Hscv Hcont size blank st'. subst st'.
  assert (Hdom : c ∈ dom (document st)) by (apply elem_of_dom; eauto).
  assert (Hsdom : sc ∈ dom (document st)) by (apply elem_of_dom; eauto).
  unfold run, allocateSurfaces, mbind, mret, Handler_bind, Handler_ret, current.
  rewrite Href. rewrite decide_True by assumption.
  unfold get. cbn beta iota. rewrite Hloaded, Hcont.
  unfold element, onCanvas, modify.
  repeat (cbn beta iota zeta;
          cbn [document setDocument fst snd selectionCanvasRef default from_option id fmap
               option_fmap option_map setWidth setHeight clearAll context2d width height
               setSelectionMask setHasSmartSelection selectionMaskRef hasSmartSelection
               undoStack redoStack];
          rewrite ?dom_alter_L;
          rewrite ?lookup_alter_eq;
          rewrite ?lookup_alter_ne by congruence;
          rewrite ?Hcv, ?Hscv, ?Hsref;
          rewrite ?decide_True by assumption).
  destruct (context2d cv) eqn:Hctx;
  repeat (cbn beta iota zeta;
          cbn [document setDocument fst snd selectionCanvasRef default from_option id fmap
               option_fmap option_map setWidth setHeight clearAll context2d width height
               setSelectionMask setHasSmartSelection selectionMaskRef hasSmartSelection
               undoStack redoStack];
          rewrite ?dom_alter_L;
          rewrite ?lookup_alter_eq;
          rewrite ?lookup_alter_ne by congruence;
          rewrite ?Hcv, ?Hscv, ?Hsref;
          rewrite ?decide_True by assumption);
  destruct (context2d scv) eqn:Hsctx;
  repeat (cbn beta iota zeta;
          cbn [document setDocument fst snd selectionCanvasRef default from_option id fmap
               option_fmap option_map setWidth setHeight clearAll context2d width height
               setSelectionMask setHasSmartSelection selectionMaskRef hasSmartSelection
               undoStack redoStack];
          rewrite ?dom_alter_L;
          rewrite ?lookup_alter_eq;
          rewrite ?lookup_alter_ne by congruence;
          rewrite ?Hcv, ?Hscv, ?Hsref;
          rewrite ?decide_True by assumption);
  repeat split; unfold clearAll, setHeight, setWidth; cbn [context2d width height];
  rewrite ?Hctx, ?Hsctx; reflexivity.
Qed.

End Allocation.

Section ThumbnailFacts.

Context {N : JSNumber} {SM : StandardModel N}.
Variable drawScaled : Image -> Z -> Z -> list Z.

(** X18.  The thumbnail canvas is [size] wide, and its height is
    [size * H / W] rounded down, within one pixel; it holds the image
    drawn at that size, and no canvas of the editor changes. *)
Theorem thumbnail_keeps_aspect st img size :
  let W := naturalWidth img in
  let H := naturalHeight img in
  0 < W <= 33554432 -> 0 < H <= 33554432 -> 0 < size <= 33554432 ->
  size * H <= 2147483647 * W ->
  exists cv,
    fst (createThumb drawScaled img size st) = Normal cv /\
    width cv = size /\
    0 <= height cv /\ size * H - W <= height cv * W <= size * H /\
    bitmap cv = drawScaled img (width cv) (height cv) /\
    forall c, c ∈ dom (document st) ->
      document (run (createThumb drawScaled img size) st) !! c = document st !! c.
Proof.
  intros W H HW HH Hsize Hfit.
  assert (Hfresh : forall c, c ∈ dom (document st) -> fresh (dom (document st)) <> c).
  { intros c Hc E. subst c. exact (is_fresh _ Hc). }
  set (f := mul (num size) (div (num H) (num W))).
  destruct (mul_ratio_close size H W) as (Hf0 & Hflo & Hfhi); try lia; [nia|].
  fold f in Hf0, Hflo, Hfhi.
  assert (Hfl : 0 <= floor f /\ size * H - W <= floor f * W /\ floor f * W <= size * H).
  { unfold floor. apply floor_close; [lia | assumption..]. }
  assert (Hdim : toDimension 150 f = floor f).
  { apply toDimension_floor; [assumption|]. nia. }
  exists (mkCanvas size (floor f) true (drawScaled img size (floor f))).
  unfold run, createThumb, mbind, mret, Handler_bind, Handler_ret.
  unfold createCanvas, element, onCanvas, modify. cbn beta iota zeta.
  set (m := fresh (dom (document st))) in *.
  fold W H f.
  repeat (cbn beta iota zeta;
          cbn [document setDocument fst snd default from_option id fmap
               option_fmap option_map context2d width height bitmap defaultCanvas drawImage];
          rewrite ?lookup_alter_eq, ?lookup_insert_eq;
          rewrite ?(setWidth_num size) by lia).
  unfold setHeight. cbn [width height context2d]. rewrite Hdim.
  cbn beta iota.
  repeat (cbn beta iota zeta;
          cbn [document setDocument fst snd default from_option id fmap
               option_fmap option_map context2d width height bitmap defaultCanvas drawImage];
          rewrite ?lookup_alter_eq, ?lookup_insert_eq).
  rewrite !(setWidth_num size) by lia. unfold drawImage. cbn [width height context2d].
  split; [reflexivity|]. split; [reflexivity|]. split; [lia|]. split; [lia|].
  split; [reflexivity|].
  intros c Hc. rewrite !lookup_alter_ne, lookup_insert_ne by (apply Hfresh; assumption).
  reflexivity.
Qed.

End ThumbnailFacts.

(** ** Ages *)

Lemma div_lt_iff a b c : 0 < b -> (a / b <? c) = (a <? b * c).
Proof.
  intros Hb.
  pose proof (Z.div_mod a b ltac:(lia)) as Hd.
  pose proof (Z.mod_pos_bound a b Hb) as Hm.
  destruct (Z.ltb_spec (a / b) c); destruct (Z.ltb_spec a (b * c)); try reflexivity; nia.
Qed.

(** X22.  [timeAgo] labels a date by its age alone: the nested quotients
    amount to one quotient by the unit, with the unit chosen by
    thresholds of 1 minute, 1 hour, 1 day, 7 days and 28 days.  A date
    in the future is [just now], and a date string that does not parse
    gives [NaNmo]. *)
Theorem timeAgo_by_age (now t : Z) :
  timeAgo now (Some t) = ageLabel (Z.max 0 (now - t)) /\
  (now - t < 60000 -> timeAgo now (Some t) = "just now") /\
  timeAgo now None = "NaNmo".
Proof.
  assert (E : timeAgo now (Some t) = ageLabel (Z.max 0 (now - t))).
  { unfold timeAgo, ageLabel. cbn [fmap option_fmap option_map atLeastZero floorDiv below shown].
    set (a := Z.max 0 (now - t)).
    rewrite !Z.div_div by lia. cbn [Z.mul Pos.mul].
    rewrite !div_lt_iff by lia. cbn [Z.mul Pos.mul].
    change (1000 * 60) with 60000. change (60000 * 60) with 3600000.
    change (3600000 * 24) with 86400000. change (86400000 * 7) with 604800000.
    change (604800000 * 4) with 2419200000. change (86400000 * 30) with 2592000000.
    reflexivity. }
  split; [assumption|]. split; [|reflexivity].
  intros Hlt. rewrite E. unfold ageLabel.
  destruct (Z.ltb_spec (Z.max 0 (now - t)) 60000); [reflexivity | lia].
Qed.

(** X23.  A date at least 28 and less than 30 days old is labelled [0mo]. *)
Theorem timeAgo_zero_months (now t : Z) :
  2419200000 <= now - t < 2592000000 -> timeAgo now (Some t) = "0mo".
Proof.
  intros Hage.
  assert (E : timeAgo now (Some t) = ageLabel (now - t)).
  { unfold timeAgo, ageLabel. cbn [fmap option_fmap option_map atLeastZero floorDiv below shown].
    rewrite Z.max_r by lia.
    rewrite !Z.div_div by lia. cbn [Z.mul Pos.mul].
    rewrite !div_lt_iff by lia. reflexivity. }
  rewrite E. unfold ageLabel.
  repeat (match goal with |- context [?a <? ?b] => destruct (Z.ltb_spec a b); [lia|] end).
  replace ((now - t) / 2592000000) with 0; [reflexivity|].
  symmetry. apply Z.div_small. lia.
Qed.

(** ** Layers *)

Module LayerFacts.
Import Layers.

Lemma setVisible_id v l : id (setVisible v l) = id l.
Proof. reflexivity. Qed.

Lemma toggle_ids layerId st :
  id <$> layers (toggleLayerVisibility layerId st) = id <$> layers st.
Proof.
  unfold toggleLayerVisibility. cbn [layers].
  rewrite <- list_fmap_compose. apply list_fmap_ext. intros i l _. cbn.
  destruct (String.eqb (id l) layerId); reflexivity.
Qed.

(** X19.  The eye button flips the visibility of the layers with the given id
    and changes nothing else of any layer, nor the order or the active
    layer; pressing it twice brings back the state. *)
Theorem toggle_visibility_flips st layerId :
  let st' := toggleLayerVisibility layerId st in
  length (layers st') = length (layers st) /\
  (forall i l, layers st !! i = Some l ->
     exists l', layers st' !! i = Some l' /\
       id l' = id l /\ name l' = name l /\ dataUrl l' = dataUrl l /\
       thumbUrl l' = thumbUrl l /\
       visible l' = if decide (id l = layerId) then negb (visible l) else visible l) /\
  activeLayerId st' = activeLayerId st /\
  toggleLayerVisibility layerId st' = st.
Proof.
  intros st'. subst st'. destruct st as [ls a n].
  unfold toggleLayerVisibility. cbn [layers activeLayerId layerCounter].
  split; [apply length_fmap|]. split; [|split; [reflexivity|]].
  - intros i l Hi. rewrite list_lookup_fmap, Hi. simpl.
    eexists. split; [reflexivity|].
    destruct (String.eqb_spec (id l) layerId) as [E|E].
    + rewrite decide_True by assumption. repeat split.
    + rewrite decide_False by assumption. repeat split.
  - f_equal. rewrite <- list_fmap_compose. rewrite <- (list_fmap_id ls) at 2.
    apply list_fmap_ext. intros i l _. cbn.
    destruct (String.eqb_spec (id l) layerId) as [E|E].
    + cbn [id setVisible]. destruct (String.eqb_spec (id l) layerId); [|contradiction].
      destruct l as [i' nm d t v]. unfold setVisible. simpl. rewrite negb_involutive.
      reflexivity.
    + destruct (String.eqb_spec (id l) layerId); [contradiction|]. reflexivity.
Qed.

Lemma removeLayer_layers layerId st :
  layers (removeLayer layerId st) =
  filter (fun l => negb (String.eqb (id l) layerId)) (layers st).
Proof. reflexivity. Qed.

Lemma elem_of_remove layerId (ls : list LayerEntry) l :
  l ∈ filter (fun l => negb (String.eqb (id l) layerId)) ls <->
  l ∈ ls /\ id l <> layerId.
Proof.
  rewrite list_elem_of_filter.
  destruct (String.eqb_spec (id l) layerId); simpl; split; intros [H1 H2];
    split; try assumption; try congruence; try exact I; try contradiction.
Qed.

(** X20.  The bin button removes exactly the layers with the given id and
    keeps the order of the others; when layers remain and the active id
    named a layer, it still names one; when none remains the active id is
    left as it was. *)
Theorem remove_layer_keeps_active_valid st layerId :
  let st' := removeLayer layerId st in
  (forall l, l ∈ layers st' <-> l ∈ layers st /\ id l <> layerId) /\
  layers st' `sublist_of` layers st /\
  (layers st' <> [] ->
   (exists l, l ∈ layers st /\ activeLayerId st = Some (id l)) ->
   exists l, l ∈ layers st' /\ activeLayerId st' = Some (id l)) /\
  (layers st' = [] -> activeLayerId st' = activeLayerId st).
Proof.
  intros st'. subst st'.
  split; [intros l; rewrite removeLayer_layers; apply elem_of_remove|].
  split; [rewrite removeLayer_layers; apply sublist_filter|].
  unfold removeLayer. cbn [layers activeLayerId].
  set (next := filter _ (layers st)).
  split.
  - intros Hne (l & Hl & Ha).
    destruct next as [|first rest] eqn:En; [contradiction|].
    unfold isActive. rewrite Ha.
    destruct (String.eqb_spec (id l) layerId) as [E|E].
    + exists first. split; [apply list_elem_of_here | reflexivity].
    + exists l. split; [|reflexivity]. rewrite <- En. apply elem_of_remove.
      split; assumption.
  - intros E. rewrite E. reflexivity.
Qed.

Lemma newLayer_id_inj n m u t u' t' :
  id (newLayer n u t) = id (newLayer m u' t') -> n = m.
Proof.
  unfold newLayer. cbn [id]. intros E.
  apply String.app_inj in E. apply (inj pretty) in E. assumption.
Qed.

Lemma WellFormed_act a st : WellFormed st -> WellFormed (act a st).
Proof.
  intros [Hc Hids Hnd]. destruct a as [u t|k|k|k]; cbn [act].
  - unfold addLayer. cbv zeta. split; cbn [layers layerCounter].
    + lia.
    + constructor.
      * exists (layerCounter st + 1). split; [lia | reflexivity].
      * eapply Forall_impl; [exact Hids|]. intros l (n & Hn & E). exists n.
        split; [lia|assumption].
    + rewrite fmap_cons. apply NoDup_cons. split; [|assumption].
      intros Hin. apply list_elem_of_fmap in Hin as (l & E & Hl).
      rewrite Forall_forall in Hids. destruct (Hids l Hl) as (n & Hn & En).
      change (id (newLayer (layerCounter st + 1) u t) = id l) in E.
      rewrite En in E. change ("layer-" +:+ pretty n) with (id (newLayer n u t)) in E.
      apply newLayer_id_inj in E. lia.
  - split; [assumption| |].
    + unfold toggleLayerVisibility. cbn [layers layerCounter].
      apply Forall_fmap. eapply Forall_impl; [exact Hids|].
      intros l (n & Hn & E). exists n. split; [assumption|].
      cbn. destruct (String.eqb (id l) k); assumption.
    + rewrite toggle_ids. assumption.
  - split; [assumption| |].
    + rewrite removeLayer_layers. rewrite Forall_forall in *. intros l Hl.
      apply elem_of_remove in Hl as [Hl _]. apply Hids. assumption.
    + rewrite removeLayer_layers. eapply sublist_NoDup; [exact Hnd|].
      apply fmap_sublist. apply sublist_filter.
  - split; assumption.
Qed.

Lemma WellFormed_enterEditor u t : WellFormed (enterEditor u t).
Proof.
  split; cbn [enterEditor layers layerCounter].
  - lia.
  - constructor; [|constructor]. exists 1. split; [lia | reflexivity].
  - rewrite fmap_cons. apply NoDup_cons. split; [|constructor].
    intros H. inversion H.
Qed.

(** X21.  From [enterEditor] on, through any adding, toggling, removing and
    selecting of layers, each add finishing before the next begins, no
    two layers share an id, and each id is [layer-n] for a counter value
    [n] already used. *)
Theorem layer_ids_stay_distinct u t (acts : list Action) :
  let st := fold_left (fun st a => act a st) acts (enterEditor u t) in
  NoDup (id <$> layers st) /\
  Forall (fun l => exists n, 1 <= n <= layerCounter st /\ id l = "layer-" +:+ pretty n)
    (layers st).
Proof.
  intros st.
  assert (W : WellFormed st).
  { subst st. generalize (WellFormed_enterEditor u t). generalize (enterEditor u t).
    induction acts as [|a acts IH]; intros s Hs; simpl; [assumption|].
    apply IH. apply WellFormed_act. assumption. }
  destruct W. split; assumption.
Qed.

End LayerFacts.

(** ** The embedded panel against the editor *)

Module PanelFacts.

Ltac unfold_handlers :=
  unfold Panel.handleSubmit, Panel.allocateSurface,
    Panel.onPointerDown, Panel.onPointerMove, Panel.onPointerUp, Panel.onTouchStart,
    Panel.onTouchMove, Panel.onTouchEnd, Panel.saveSnapshot, Panel.undo, Panel.redo,
    Panel.drawStroke, Panel.exportMask,
    onPointerDown, onPointerMove, onPointerUp, onTouchStart, onTouchMove, onTouchEnd,
    saveSnapshot, render, undo, redo, draw, exportMask,
    mbind, mret, Panel.PanelHandler_bind, Panel.PanelHandler_ret, Handler_bind, Handler_ret,
    Panel.current, Panel.onCanvas, Panel.get, Panel.modify, Panel.liftDom, Panel.element,
    Panel.createCanvas, current, onCanvas, get, modify, liftDom, element, createCanvas.

Ltac reduce :=
  cbn beta iota zeta;
  cbn [fst snd app Panel.toEditor
       Panel.document Panel.canvasRef Panel.containerRef Panel.imgRef Panel.naturalSize
       Panel.drawing Panel.brushSize Panel.tool Panel.imgLoaded Panel.history
       Panel.redoStack Panel.hasInteracted
       Panel.setDocument Panel.setDrawing Panel.setHistory Panel.setRedoStack
       Panel.setHasInteracted
       document canvasRef selectionCanvasRef containerRef imgRef naturalSize
       selectionMaskRef imgLoaded toolMode paintMode brushSize selectMode
       hasSmartSelection drawing undoStack redoStack undoUpdates
       setDocument setDrawing setUndoStack setRedoStack setUndoUpdates
       runUpdaters updaterCanvas updaterKeep];
  unfold runUpdater, mbind, mret, Handler_bind, Handler_ret, element, liftDom, modify;
  cbn beta iota zeta.

Ltac cases :=
  repeat (reduce;
          match goal with
          | |- context [match ?x with _ => _ end] =>
              lazymatch x with
              | context [match _ with _ => _ end] => fail
              | _ => destruct x eqn:?
              end
          end);
  reduce.

Ltac simulate :=
  intros st; unfold_handlers; cases;
  simplify_eq; cbn [negb] in *; try congruence;
  split; reflexivity.


Section Simulation.

Context {N : JSNumber}.
Variable rasterArc :
  CompositeOperation -> Color -> Number -> Number -> Number -> Z -> Z -> list Z -> list Z.
Variable drawScaled : Image -> Z -> Z -> list Z.
Variable hatch : Z -> Z -> list Z.
Hypothesis rasterArc_length : forall op style x y r w h bm,
  length (rasterArc op style x y r w h bm) = length bm.

Local Arguments projectMask : simpl never.
Local Arguments getImageData : simpl never.

(** *** The handlers the two components share *)

Lemma undo_simulates : Panel.simulates Panel.undo undo.
Proof. simulate. Qed.


Lemma drawStroke_simulates x y :
  Panel.simulates (Panel.drawStroke rasterArc x y) (draw rasterArc x y).
Proof. simulate. Qed.

Lemma onPointerMove_simulates x y :
  Panel.simulates (Panel.onPointerMove rasterArc x y) (onPointerMove rasterArc x y).
Proof. simulate. Qed.


Lemma exportMask_simulates : Panel.simulates Panel.exportMask exportMask.
Proof. simulate. Qed.





(** *** The handlers that record a snapshot *)




(** *** The history of the panel *)

Lemma Ready_toEditor w h c p : Panel.Ready w h c p <-> Ready w h c (Panel.toEditor p).
Proof.
  split.
  - intros [H1 H2 H3 H4 H5 H6]. split; try assumption. reflexivity.
  - intros [H1 H2 H3 H4 H5 H6 _]. split; assumption.
Qed.

Lemma panel_saveSnapshot_ready w h c p :
  Panel.Ready w h c p ->
  Panel.saveSnapshot p =
    (Normal tt,
     Panel.setRedoStack []
       (Panel.setHistory
          (sliceLast 20 (Panel.history p) ++ [mkImageData w h (Panel.pixelsOf c p)]) p)).
Proof.
  intros [Href (bm & Hbm & Hlen) Hw Hh _ _].
  assert (Hdom : c ∈ dom (Panel.document p)) by (apply elem_of_dom; eauto).
  unfold Panel.saveSnapshot, mbind, Panel.PanelHandler_bind, Panel.current.
  rewrite Href. rewrite decide_True by assumption.
  unfold Panel.element, Panel.pixelsOf. cbn beta iota. rewrite Hbm. simpl.
  unfold Panel.liftDom, getImageData. simpl.
  destruct (Z.eqb_spec w 0); [lia|]. destruct (Z.eqb_spec h 0); [lia|]. simpl.
  reflexivity.
Qed.

Lemma panel_drawStroke_ready w h c p x y :
  Panel.Ready w h c p ->
  let p' := Panel.run (Panel.drawStroke rasterArc x y) p in
  fst (Panel.drawStroke rasterArc x y p) = Normal tt /\
  Panel.Ready w h c p' /\
  Panel.history p' = Panel.history p /\ Panel.redoStack p' = Panel.redoStack p.
Proof.
  intros HR p'. subst p'. apply Ready_toEditor in HR.
  destruct (drawStroke_simulates x y p) as [F S].
  destruct (draw_ready rasterArc rasterArc_length w h c _ x y HR) as (D1 & D2 & D3 & D4 & _).
  unfold run, Panel.run in *. rewrite <- S in D2, D3, D4.
  split; [congruence|]. split; [apply Ready_toEditor; exact D2|].
  split; [exact D3 | exact D4].
Qed.

Lemma panel_onPointerMove_ready w h c p x y :
  Panel.Ready w h c p ->
  let p' := Panel.run (Panel.onPointerMove rasterArc x y) p in
  fst (Panel.onPointerMove rasterArc x y p) = Normal tt /\
  Panel.Ready w h c p' /\
  Panel.history p' = Panel.history p /\ Panel.redoStack p' = Panel.redoStack p.
Proof.
  intros HR p'. subst p'. apply Ready_toEditor in HR.
  destruct (onPointerMove_simulates x y p) as [F S].
  destruct (onPointerMove_ready rasterArc rasterArc_length w h c _ x y HR)
    as (D1 & D2 & D3 & D4 & _).
  unfold run, Panel.run in *. rewrite <- S in D2, D3, D4.
  split; [congruence|]. split; [apply Ready_toEditor; exact D2|].
  split; [exact D3 | exact D4].
Qed.

Lemma panel_moves_ready w h c ps : forall p,
  Panel.Ready w h c p ->
  let p' := Panel.run (Panel.moves rasterArc ps) p in
  fst (Panel.moves rasterArc ps p) = Normal tt /\
  Panel.Ready w h c p' /\
  Panel.history p' = Panel.history p /\ Panel.redoStack p' = Panel.redoStack p.
Proof.
  induction ps as [|q ps IH]; intros p HR p'; subst p'.
  - simpl. split; [reflexivity|]. split; [assumption|]. split; reflexivity.
  - destruct (panel_onPointerMove_ready w h c p (fst q) (snd q) HR) as (H1 & H2 & H3 & H4).
    unfold Panel.run in *. simpl. unfold mbind, Panel.PanelHandler_bind.
    destruct (Panel.onPointerMove rasterArc q.1 q.2 p) as [[[]|r] p1]; simpl in *;
      [|discriminate].
    destruct (IH p1 H2) as (I1 & I2 & I3 & I4).
    split; [assumption|]. split; [assumption|]. split; congruence.
Qed.

(** The pointer-down of the panel: the snapshot holds the pixels from
    before the stamp. *)
Lemma panel_press_ready w h c p x y :
  Panel.Ready w h c p ->
  let p' := Panel.run (Panel.onPointerDown rasterArc x y) p in
  fst (Panel.onPointerDown rasterArc x y p) = Normal tt /\
  Panel.Ready w h c p' /\
  Panel.history p' =
    sliceLast 20 (Panel.history p) ++ [mkImageData w h (Panel.pixelsOf c p)] /\
  Panel.redoStack p' = [] /\
  Panel.pixelsOf c p' = Panel.pixelsOf c (Panel.run (Panel.drawStroke rasterArc x y) p).
Proof.
  intros HR p'. subst p'.
  set (pa := Panel.setHasInteracted true (Panel.setDrawing true
               (Panel.setRedoStack []
                  (Panel.setHistory
                     (sliceLast 20 (Panel.history p) ++
                      [mkImageData w h (Panel.pixelsOf c p)]) p)))).
  assert (HRa : Panel.Ready w h c pa).
  { pose proof HR as [Href (bm & Hbm & Hlen) Hw Hh Hu Hr].
    split; simpl; try assumption.
    - exists bm. split; assumption.
    - apply Forall_app. split.
      + unfold sliceLast. apply Forall_drop. assumption.
      + constructor; [|constructor]. unfold Panel.pixelsOf. rewrite Hbm.
        repeat split; simpl; assumption.
    - constructor. }
  destruct (panel_drawStroke_ready w h c pa x y HRa) as (D1 & D2 & D3 & D4).
  assert (Hdoc : Panel.document (Panel.run (Panel.drawStroke rasterArc x y) pa) =
                 Panel.document (Panel.run (Panel.drawStroke rasterArc x y) p)).
  { destruct (drawStroke_simulates x y pa) as [_ Sa].
    destruct (drawStroke_simulates x y p) as [_ Sp].
    change (document (Panel.toEditor (Panel.run (Panel.drawStroke rasterArc x y) pa)) =
            document (Panel.toEditor (Panel.run (Panel.drawStroke rasterArc x y) p))).
    unfold Panel.run. rewrite Sa, Sp.
    apply (draw_document rasterArc x y); reflexivity. }
  unfold Panel.run, Panel.onPointerDown, mbind, Panel.PanelHandler_bind in *.
  rewrite (panel_saveSnapshot_ready w h c p HR). unfold Panel.modify. cbn beta iota. fold pa.
  split; [exact D1|]. split; [exact D2|]. rewrite D3, D4.
  split; [reflexivity|]. split; [reflexivity|].
  unfold Panel.pixelsOf. rewrite Hdoc. reflexivity.
Qed.

Lemma panel_stroke_ready w h c p s :
  Panel.Ready w h c p ->
  let p' := Panel.run (Panel.stroke rasterArc s) p in
  fst (Panel.stroke rasterArc s p) = Normal tt /\
  Panel.Ready w h c p' /\
  Panel.history p' =
    sliceLast 20 (Panel.history p) ++ [mkImageData w h (Panel.pixelsOf c p)] /\
  Panel.redoStack p' = [].
Proof.
  intros HR p'. subst p'.
  destruct (panel_press_ready w h c p (fst (start s)) (snd (start s)) HR) as (P1 & P2 & P3 & P4 & _).
  unfold Panel.run, Panel.stroke, mbind, Panel.PanelHandler_bind in *.
  destruct (Panel.onPointerDown rasterArc (start s).1 (start s).2 p) as [[[]|r] p1];
    simpl in P1, P2, P3, P4; [|discriminate].
  destruct (panel_moves_ready w h c (path s) p1 P2) as (M1 & M2 & M3 & M4).
  unfold Panel.run in *.
  destruct (Panel.moves rasterArc (path s) p1) as [[[]|r] p2]; simpl in M1, M2, M3, M4;
    [|discriminate].
  unfold Panel.onPointerUp, Panel.modify. simpl.
  split; [reflexivity|]. split.
  { destruct M2. split; simpl; assumption. }
  rewrite M3, M4, P3, P4. split; reflexivity.
Qed.




(** *** The submit button *)

Lemma undo_interacted p :
  Panel.hasInteracted (snd (Panel.undo p)) = Panel.hasInteracted p.
Proof. unfold_handlers; cases; reflexivity. Qed.

Lemma redo_interacted p :
  Panel.hasInteracted (snd (Panel.redo p)) = Panel.hasInteracted p.
Proof. unfold_handlers; cases; reflexivity. Qed.

Lemma onPointerMove_interacted x y p :
  Panel.hasInteracted (snd (Panel.onPointerMove rasterArc x y p)) = Panel.hasInteracted p.
Proof. unfold_handlers; cases; reflexivity. Qed.

Lemma moves_interacted ps : forall p,
  Panel.hasInteracted (snd (Panel.moves rasterArc ps p)) = Panel.hasInteracted p.
Proof.
  induction ps as [|q ps IH]; intros p; [reflexivity|].
  simpl. unfold mbind, Panel.PanelHandler_bind.
  pose proof (onPointerMove_interacted (fst q) (snd q) p) as H.
  destruct (Panel.onPointerMove rasterArc (fst q) (snd q) p) as [[a|r] p1]; simpl in H.
  - rewrite IH. exact H.
  - exact H.
Qed.

Lemma onPointerDown_interacted x y p a :
  fst (Panel.onPointerDown rasterArc x y p) = Normal a ->
  Panel.hasInteracted (snd (Panel.onPointerDown rasterArc x y p)) = true.
Proof. unfold_handlers; cases; intros; (reflexivity || discriminate). Qed.

Lemma stroke_interacted s p a :
  fst (Panel.stroke rasterArc s p) = Normal a ->
  Panel.hasInteracted (snd (Panel.stroke rasterArc s p)) = true.
Proof.
  unfold Panel.stroke, mbind, Panel.PanelHandler_bind.
  pose proof (onPointerDown_interacted (fst (start s)) (snd (start s)) p) as Hd.
  destruct (Panel.onPointerDown rasterArc (fst (start s)) (snd (start s)) p)
    as [[u|r] p1]; simpl in Hd; [|discriminate].
  specialize (Hd u eq_refl).
  pose proof (moves_interacted (path s) p1) as Hm.
  destruct (Panel.moves rasterArc (path s) p1) as [[v|r] p2]; simpl in Hm; [|discriminate].
  intros _. unfold Panel.onPointerUp, Panel.modify. simpl. congruence.
Qed.

Lemma undo_naturalSize p :
  Panel.naturalSize (snd (Panel.undo p)) = Panel.naturalSize p.
Proof. unfold_handlers; cases; reflexivity. Qed.

Lemma onPointerMove_naturalSize x y p :
  Panel.naturalSize (snd (Panel.onPointerMove rasterArc x y p)) = Panel.naturalSize p.
Proof. unfold_handlers; cases; reflexivity. Qed.

Lemma onPointerDown_naturalSize x y p :
  Panel.naturalSize (snd (Panel.onPointerDown rasterArc x y p)) = Panel.naturalSize p.
Proof. unfold_handlers; cases; reflexivity. Qed.

Lemma moves_naturalSize ps : forall p,
  Panel.naturalSize (snd (Panel.moves rasterArc ps p)) = Panel.naturalSize p.
Proof.
  induction ps as [|q ps IH]; intros p; [reflexivity|].
  simpl. unfold mbind, Panel.PanelHandler_bind.
  pose proof (onPointerMove_naturalSize (fst q) (snd q) p) as H.
  destruct (Panel.onPointerMove rasterArc (fst q) (snd q) p) as [[a|r] p1]; simpl in H.
  - rewrite IH. exact H.
  - exact H.
Qed.

Lemma stroke_naturalSize s p :
  Panel.naturalSize (snd (Panel.stroke rasterArc s p)) = Panel.naturalSize p.
Proof.
  unfold Panel.stroke, mbind, Panel.PanelHandler_bind.
  pose proof (onPointerDown_naturalSize (fst (start s)) (snd (start s)) p) as Hd.
  destruct (Panel.onPointerDown rasterArc (fst (start s)) (snd (start s)) p)
    as [[u|r] p1]; simpl in Hd; [|exact Hd].
  pose proof (moves_naturalSize (path s) p1) as Hm.
  destruct (Panel.moves rasterArc (path s) p1) as [[v|r] p2]; simpl in Hm;
    [|simpl; congruence].
  unfold Panel.onPointerUp, Panel.modify. simpl. congruence.
Qed.

End Simulation.

Section Submit.

Context {N : JSNumber} {SM : StandardModel N}.
Variable rasterArc :
  CompositeOperation -> Color -> Number -> Number -> Number -> Z -> Z -> list Z -> list Z.
Hypothesis rasterArc_length : forall op style x y r w h bm,
  length (rasterArc op style x y r w h bm) = length bm.

Lemma maskPixels_unpainted cv natW natH :
  unpainted cv -> maskPixels cv natW natH = opaqueBlack natW natH.
Proof.
  intros Hun. apply list_eq_getByte.
  - rewrite maskPixels_length, opaqueBlack_length. reflexivity.
  - intros j Hj Hl. rewrite maskPixels_length in Hl.
    rewrite maskPixels_byte by lia. rewrite opaqueBlack_byte by lia.
    rewrite decide_False; [reflexivity|].
    intros Hin. apply elem_of_maskWrites in Hin as (dx & dy & _ & _ & Hp & _).
    exact (Hun dx dy Hp).
Qed.

(** X25.  In the panel, a stroke on a canvas without paint followed by an
    undo leaves [hasInteracted] on, so the submit button stays enabled,
    and [handleSubmit] then hands [onSubmitEdit] a mask that is opaque
    black everywhere. *)
Theorem undone_stroke_submits_an_opaque_mask w h c bm natW natH p s imageId prompt :
  Panel.canvasRef p = Some c ->
  Panel.document p !! c = Some (mkCanvas w h true bm) ->
  length bm = Z.to_nat (4 * (w * h)) ->
  0 < w <= 2147483647 -> 0 < h <= 2147483647 ->
  Forall (fits w h) (Panel.history p) -> Forall (fits w h) (Panel.redoStack p) ->
  Panel.naturalSize p = (natW, natH) ->
  0 < natW <= 2147483647 -> 0 < natH <= 2147483647 ->
  unpainted (mkCanvas w h true bm) ->
  let p' := snd ((Panel.stroke rasterArc s;; Panel.undo) p) in
  fst ((Panel.stroke rasterArc s;; Panel.undo) p) = Normal tt /\
  Panel.hasInteracted p' = true /\
  fst (Panel.handleSubmit imageId prompt p') =
    Normal (Some (imageId, mkImageData natW natH (opaqueBlack natW natH), prompt)).
Proof.
  intros Href Hcv Hlen Hw Hh Hhist Hredo Hnat HnatW HnatH Hun p'.
  assert (HR : Panel.Ready w h c p).
  { split; try assumption; try lia. exists bm. split; assumption. }
  assert (Hpix : Panel.pixelsOf c p = bm).
  { unfold Panel.pixelsOf. rewrite Hcv. reflexivity. }
  destruct (panel_stroke_ready rasterArc rasterArc_length w h c p s HR) as (S1 & S2 & S3 & _).
  rewrite Hpix in S3.
  pose proof (stroke_interacted rasterArc s p tt S1) as Hint.
  pose proof (stroke_naturalSize rasterArc s p) as Hsize.
  unfold Panel.run in S2, S3.
  destruct (Panel.stroke rasterArc s p) as [r1 p1] eqn:E1.
  cbn [fst snd] in S1, S2, S3, Hint, Hsize. subst r1.
  assert (Hrun : (Panel.stroke rasterArc s;; Panel.undo) p = Panel.undo p1).
  { unfold mbind, Panel.PanelHandler_bind. rewrite E1. reflexivity. }
  subst p'. rewrite Hrun. clear Hrun E1.
  pose proof (proj1 (Ready_toEditor w h c p1) S2) as HE1.
  destruct (undo_ready w h c (Panel.toEditor p1) _ _ HE1 S3) as (U1 & U2 & U3 & _).
  cbn [data] in U3.
  destruct (undo_simulates p1) as [B1 B2]. rewrite U1 in B1.
  fold (run undo (Panel.toEditor p1)) in B2.
  pose proof (undo_interacted p1) as Hint2.
  pose proof (undo_naturalSize p1) as Hsize2.
  set (p2 := snd (Panel.undo p1)) in *.
  split; [exact B1|]. split; [congruence|].
  rewrite <- B2 in U2, U3.
  destruct U2 as [Href2 (bm2 & Hbm2 & _) _ _ _ _ _].
  assert (bm2 = bm).
  { unfold pixelsOf in U3. rewrite Hbm2 in U3. exact U3. }
  subst bm2.
  assert (Hnat2 : naturalSize (Panel.toEditor p2) = (natW, natH)).
  { change (Panel.naturalSize p2 = (natW, natH)). congruence. }
  pose proof (exportMask_result (Panel.toEditor p2) c (mkCanvas w h true bm) natW natH
                Href2 Hbm2 eq_refl ltac:(simpl; lia) ltac:(simpl; lia) Hnat2 HnatW HnatH) as HE.
  destruct (exportMask_simulates p2) as [C1 _]. rewrite HE in C1.
  rewrite (maskPixels_unpainted _ _ _ Hun) in C1.
  unfold Panel.handleSubmit, mbind, Panel.PanelHandler_bind.
  destruct (Panel.exportMask p2) as [r3 p3]. simpl in C1. subst r3. reflexivity.
Qed.

Lemma transparent_is_unpainted w h ctx : unpainted (mkCanvas w h ctx (transparent w h)).
Proof.
  intros dx dy (_ & _ & Ha). cbn [width height bitmap] in Ha.
  unfold getByte, transparent in Ha.
  destruct (_ <? 0); [discriminate|].
  destruct (replicate _ 0 !! _) as [v|] eqn:E; [|discriminate].
  apply lookup_replicate in E as [-> _]. discriminate.
Qed.

(** X26.  With the image loaded and the canvas mounted, the panel's sizing
    effect returns and leaves the canvas transparent at the computed
    size; when that size is not empty, an export right after it answers a
    mask that is opaque black everywhere. *)
Theorem freshly_sized_panel_exports_opaque_mask p c cv cw ch W H :
  Panel.imgLoaded p = true ->
  Panel.canvasRef p = Some c -> Panel.document p !! c = Some cv -> context2d cv = true ->
  Panel.containerRef p = Some (cw, ch) -> Panel.naturalSize p = (W, H) ->
  0 < W <= 33554432 -> 0 < H <= 33554432 -> 0 < cw <= 33554432 -> 0 < ch <= 33554432 ->
  let size := canvasSize (editPanelDisplaySize W H cw ch) in
  0 < fst size -> 0 < snd size ->
  let p' := snd (Panel.allocateSurface p) in
  fst (Panel.allocateSurface p) = Normal tt /\
  Panel.document p' !! c =
    Some (mkCanvas (fst size) (snd size) true (transparent (fst size) (snd size))) /\
  fst (Panel.exportMask p') = Normal (Some (mkImageData W H (opaqueBlack W H))).
Proof.
  intros Hload Href Hcv Hctx Hcont Hnat HW HH Hcw Hch size Hsw Hsh p'.
  assert (Hdom : c ∈ dom (Panel.document p)) by (apply elem_of_dom; eauto).
  assert (Hrun : Panel.allocateSurface p =
    (Normal tt,
     Panel.setDocument
       (<[c := mkCanvas (fst size) (snd size) true (transparent (fst size) (snd size))]>
          (Panel.document p)) p)).
  { unfold_handlers. rewrite Href. rewrite decide_True by assumption.
    reduce. rewrite Hload, Hcont, Hnat. reduce.
    rewrite !lookup_alter_eq, Hcv. cbn [fmap option_fmap option_map default].
    unfold setHeight, setWidth, clearAll. cbn [id width height context2d bitmap].
    rewrite Hctx. reduce. f_equal. unfold Panel.setDocument. reduce. f_equal.
    apply map_eq. intros i. destruct (decide (i = c)) as [->|Hne].
    - rewrite lookup_insert_eq, !lookup_alter_eq, Hcv. cbn. rewrite Hctx. reflexivity.
    - rewrite lookup_insert_ne, !lookup_alter_ne by congruence. reflexivity. }
  subst p'. rewrite Hrun. cbn [fst snd Panel.setDocument Panel.document].
  split; [reflexivity|]. split; [apply lookup_insert_eq|].
  set (p1 := Panel.setDocument _ p).
  destruct (exportMask_simulates p1) as [E _]. rewrite E.
  rewrite (exportMask_result (Panel.toEditor p1) c
             (mkCanvas (fst size) (snd size) true (transparent (fst size) (snd size))) W H);
    try (cbn [width height]; lia).
  - rewrite maskPixels_unpainted by apply transparent_is_unpainted. reflexivity.
  - exact Href.
  - apply lookup_insert_eq.
  - reflexivity.
  - exact Hnat.
Qed.

End Submit.

Section PanelSizing.

Context {N : JSNumber} {SM : StandardModel N}.

(** X27.  The paint canvas of [EditPage] is never wider than 900 pixels, and
    the canvas of the panel is never wider or higher than the image: the
    panel does not scale an image up. *)
Theorem canvas_is_capped (W H maxW maxH : Z) :
  0 < W <= 33554432 -> 0 < H <= 33554432 ->
  0 < maxW <= 33554432 -> 0 < maxH <= 33554432 ->
  fst (canvasSize (editPageDisplaySize W H maxW maxH)) <= 900 /\
  fst (canvasSize (editPanelDisplaySize W H maxW maxH)) <= W /\
  snd (canvasSize (editPanelDisplaySize W H maxW maxH)) <= H.
Proof.
  intros HW HH HmaxW HmaxH.
  assert (Hprod : forall x y, 0 < x <= 33554432 -> 0 < y <= 33554432 ->
                              x * y <= 1125899906842624) by (intros; nia).
  split.
  - unfold editPageDisplaySize.
    destruct (Z.eqb_spec maxH 0) as [?|_]; [lia|].
    assert (Ha : 0 < Z.min maxW 900 <= 900) by lia.
    destruct (sized_aspect_locked W H (Z.min maxW 900) maxH (Z.min maxW 900)
                (mul (num (Z.min maxW 900)) (div (num H) (num W)))
                (div (num maxH) (div (num H) (num W)))) as (Hc & _); try lia.
    + apply mul_ratio_close; try lia; apply Hprod; lia.
    + apply div_ratio_close; try lia; apply Hprod; lia.
  - unfold editPanelDisplaySize. cbv zeta.
    set (a := Z.min maxW W).
    assert (Ha : 0 < a <= W) by (unfold a; lia).
    set (f := div (num a) (div (num W) (num H))).
    set (g := mul (num maxH) (div (num W) (num H))).
    destruct (div_ratio_close a W H) as (Hf0 & Hflo & Hfhi); try lia.
    { apply Hprod; lia. }
    destruct (mul_ratio_close maxH W H) as (Hg0 & Hglo & Hghi); try lia.
    { apply Hprod; lia. }
    fold f in Hf0, Hflo, Hfhi. fold g in Hg0, Hglo, Hghi.
    pose proof (gtb_close f maxH (a * H) W ltac:(lia) ltac:(lia) Hflo Hfhi) as Hcmp.
    unfold canvasSize.
    destruct (gtb f (num maxH)); cbn [fst snd].
    + destruct (floor_close (value g) (maxH * W) H ltac:(lia) Hg0 Hglo Hghi)
        as (Hc0 & Hclo & Hchi).
      fold (floor g) in *.
      assert (Hca : floor g <= a) by nia.
      rewrite toDimension_floor by (try assumption; lia).
      rewrite toDimension_num by lia.
      split; [lia | nia].
    + destruct (floor_close (value f) (a * H) W ltac:(lia) Hf0 Hflo Hfhi)
        as (Hc0 & Hclo & Hchi).
      fold (floor f) in *.
      assert (Hcm : floor f <= H) by nia.
      rewrite toDimension_num by lia.
      rewrite toDimension_floor by (try assumption; lia).
      split; lia.
Qed.

End PanelSizing.
End PanelFacts.

(** ** The undo law *)

Section UndoLaw.

Context {N : JSNumber}.
Variable keep : nat.
Variable rasterArc :
  CompositeOperation -> Color -> Number -> Number -> Number -> Z -> Z -> list Z -> list Z.
Variable drawScaled : Image -> Z -> Z -> list Z.
Variable hatch : Z -> Z -> list Z.
Hypothesis rasterArc_length : forall op style x y r w h bm,
  length (rasterArc op style x y r w h bm) = length bm.


End UndoLaw.

(** ** The image picker *)

Module MoodboardFacts.
Import Moodboards.

Lemma toggle_present id prev : id ∈ prev -> togglePickerImage id prev = delete prev id.
Proof. intros H. unfold togglePickerImage, has. rewrite bool_decide_eq_true_2; auto. Qed.

Lemma toggle_absent id prev : id ∉ prev -> togglePickerImage id prev = prev ++ [id].
Proof.
  intros H. unfold togglePickerImage, add, has. rewrite bool_decide_eq_false_2; auto.
Qed.

Lemma delete_absent id s : id ∉ s -> delete s id = s.
Proof.
  intros H. unfold delete. induction s as [|x s IH]; [reflexivity|].
  rewrite filter_cons. apply not_elem_of_cons in H as [Hx Hs].
  rewrite decide_True by congruence. rewrite IH by assumption. reflexivity.
Qed.

Lemma delete_snoc id s : id ∉ s -> delete (s ++ [id]) id = s.
Proof.
  intros H. unfold delete. rewrite filter_app. fold (delete s id).
  rewrite delete_absent by assumption.
  rewrite filter_cons, decide_False by auto. rewrite filter_nil. apply app_nil_r.
Qed.

Lemma delete_perm id s : NoDup s -> id ∈ s -> delete s id ++ [id] ≡ₚ s.
Proof.
  intros Hnd Hin. induction Hnd as [|x s Hx Hnd IH]; [inversion Hin|].
  unfold delete. rewrite filter_cons. destruct (decide (x <> id)) as [Hne|Heq].
  - apply elem_of_cons in Hin as [->|Hin]; [congruence|].
    simpl. f_equiv. apply IH. assumption.
  - assert (x = id) by (destruct (decide (x = id)); [assumption|contradiction]). subst x.
    fold (delete s id). rewrite delete_absent by assumption.
    symmetry. apply Permutation_cons_append.
Qed.

(** X28.  Toggling an image in the picker selects it when it was not selected
    and deselects it when it was, changes the selection of no other
    image and keeps the set free of repetitions; toggling twice gives the
    images selected before, in the same order when the image was not
    selected at first. *)
Theorem toggle_picker_image_flips_one_image id prev :
  NoDup prev ->
  NoDup (togglePickerImage id prev) /\
  (has (togglePickerImage id prev) id = negb (has prev id)) /\
  (forall x, x <> id -> has (togglePickerImage id prev) x = has prev x) /\
  togglePickerImage id (togglePickerImage id prev) ≡ₚ prev /\
  (has prev id = false -> togglePickerImage id (togglePickerImage id prev) = prev).
Proof.
  intros Hnd. destruct (decide (id ∈ prev)) as [Hin|Hout].
  - rewrite (toggle_present id prev Hin).
    assert (Hgone : id ∉ delete prev id).
    { unfold delete. rewrite list_elem_of_filter. tauto. }
    split; [apply NoDup_filter; assumption|].
    split.
    { unfold has. rewrite bool_decide_eq_false_2 by assumption.
      rewrite bool_decide_eq_true_2 by assumption. reflexivity. }
    split.
    { intros x Hx. unfold has, delete. apply bool_decide_ext.
      rewrite list_elem_of_filter. tauto. }
    split.
    { rewrite (toggle_absent id _ Hgone). apply delete_perm; assumption. }
    unfold has. rewrite bool_decide_eq_true_2 by assumption. discriminate.
  - rewrite (toggle_absent id prev Hout).
    assert (Hthere : id ∈ prev ++ [id]) by (apply elem_of_app; right; constructor).
    split.
    { apply NoDup_app. split; [assumption|]. split; [|apply NoDup_singleton].
      intros x Hx Hx'. apply list_elem_of_singleton in Hx'. subst x. contradiction. }
    split.
    { unfold has. rewrite bool_decide_eq_true_2 by assumption.
      rewrite bool_decide_eq_false_2 by assumption. reflexivity. }
    split.
    { intros x Hx. unfold has. apply bool_decide_ext.
      rewrite elem_of_app, list_elem_of_singleton. tauto. }
    rewrite (toggle_present id _ Hthere), delete_snoc by assumption.
    split; [reflexivity|]. intros _. reflexivity.
Qed.

End MoodboardFacts.

(** ** Runs on sample editors, continued *)

Lemma sample_ready bm :
  length bm = 4%nat -> Ready 1 1 0 (sampleEditor 1 1 1 1 bm onePixel).
Proof.
  intros L. split; [reflexivity | | lia | lia | constructor | constructor | reflexivity].
  exists bm. split; [reflexivity | assumption].
Qed.

Lemma midSession_ready : Ready 1 1 0 midSession.
Proof.
  split; [reflexivity | | lia | lia | | |].
  - eexists. split; [vm_compute; reflexivity | reflexivity].
  - vm_compute. repeat constructor.
  - vm_compute. repeat constructor.
  - vm_compute. reflexivity.
Qed.

Lemma undo_and_redo_are_inverse_witness :
  (let st' := run redo (run undo midSession) in
   fst (undo midSession) = Normal tt /\ fst (redo (run undo midSession)) = Normal tt /\
   pixelsOf 0 st' = pixelsOf 0 midSession /\
   undoStack st' = undoStack midSession /\ redoStack st' = redoStack midSession) /\
  (let st' := run undo (run redo midSession) in
   fst (redo midSession) = Normal tt /\ fst (undo (run redo midSession)) = Normal tt /\
   pixelsOf 0 st' = pixelsOf 0 midSession /\
   undoStack st' = undoStack midSession /\ redoStack st' = redoStack midSession).
Proof.
  destruct (undo_and_redo_are_inverse 1 1 0 midSession midSession_ready) as [A B].
  split; [apply A | apply B]; vm_compute; discriminate.
Defined.

Lemma new_action_discards_redo_witness :
  let painted :=
    run (stroke (N := exactNumber) 30 dotBrush drawUnscaled plainHatch tap) midSession in
  let cleared := run (resetCanvas 30) midSession in
  (redoStack painted = [] /\ redo painted = (Normal tt, painted)) /\
  (redoStack cleared = [] /\ redo cleared = (Normal tt, cleared)).
Proof.
  apply (new_action_discards_redo (N := exactNumber) 30 dotBrush drawUnscaled plainHatch
           dotBrush_length 1 1 0 midSession tap midSession_ready).
  reflexivity.
Defined.


Lemma session_keeps_history_bounded_witness :
  let gs := [Paint tap; Undo; Redo; Reset; Paint tap; Undo; Undo; Undo] in
  let st := sampleEditor 1 1 1 1 (transparent 1 1) onePixel in
  let st' := run (session (N := exactNumber) 2 dotBrush drawUnscaled plainHatch gs) st in
  fst (session (N := exactNumber) 2 dotBrush drawUnscaled plainHatch gs st) = Normal tt /\
  Ready 1 1 0 st' /\
  (length (undoStack st') + length (redoStack st') <= 3)%nat.
Proof.
  apply (session_keeps_history_bounded (N := exactNumber) 2 dotBrush drawUnscaled plainHatch
           dotBrush_length 1 1 0
           [Paint tap; Undo; Redo; Reset; Paint tap; Undo; Undo; Undo]
           (sampleEditor 1 1 1 1 (transparent 1 1) onePixel)).
  - apply sample_ready. reflexivity.
  - reflexivity.
  - simpl. lia.
Defined.

Lemma floodFill_region_is_component_witness :
  exists visited popped,
    floodFill (Z.to_nat (2 * 1)) 2 1 (pixels twoPixels) 0 0 = Some (visited, popped) /\
    (forall p, inRegion visited p <-> Connected 2 1 (pixels twoPixels) (0 * 2 + 0) p) /\
    (forall p, inRegion visited p -> 0 <= p < 2 * 1 /\ similar (pixels twoPixels) p (0 * 2 + 0)).
Proof.
  apply (floodFill_region_is_component 2 1 (pixels twoPixels) 0 0); try lia. reflexivity.
Defined.

Lemma swap_selection_complements_witness :
  let st' := run (swapSelection plainHatch) halfSelected in
  fst (swapSelection plainHatch halfSelected) = Normal tt /\
  exists mask',
    selectionMaskRef st' = Some mask' /\ length mask' = length [1; 0] /\
    (forall j, 0 <= j < Z.of_nat (length [1; 0]) ->
       getByte mask' j = Some (if falsy (getByte [1; 0] j) then 1 else 0)) /\
    hasSmartSelection st' = someSelected mask' /\
    (hasSmartSelection st' = false <->
     forall j, 0 <= j < Z.of_nat (length [1; 0]) -> falsy (getByte [1; 0] j) = false) /\
    (Forall (fun v => v = 0 \/ v = 1) [1; 0] ->
     selectionMaskRef (run (swapSelection plainHatch) st') = Some [1; 0]).
Proof.
  apply (swap_selection_complements plainHatch halfSelected [1; 0]). reflexivity.
Defined.

Lemma click_outside_canvas_selects_nothing_witness :
  let st := sampleEditor 2 1 2 1 (transparent 2 1) twoPixels in
  let fill := floodFillSelect (N := exactNumber) drawUnscaled plainHatch (8 # 5) 0%Q in
  let st' := run fill st in
  fst (fill st) = Normal tt /\
  selectionMaskRef st' = selectionMaskRef st /\
  hasSmartSelection st' = hasSmartSelection st /\
  forall c', c' ∈ dom (document st) -> document st' !! c' = document st !! c'.
Proof.
  apply (click_outside_canvas_selects_nothing (N := exactNumber) (SM := exactNumber_standard)
           drawUnscaled plainHatch (sampleEditor 2 1 2 1 (transparent 2 1) twoPixels)
           0%nat (mkCanvas 2 1 true (transparent 2 1)) twoPixels (8 # 5) 0%Q);
    try reflexivity; try (simpl; lia).
  right. left. vm_compute. discriminate.
Defined.

Lemma smart_select_merges_component_witness :
  let st := sampleEditor 2 1 2 1 (transparent 2 1) twoPixels in
  let fill := floodFillSelect (N := exactNumber) drawUnscaled plainHatch 0%Q 0%Q in
  let st' := run fill st in
  let old := maskOrNew st 2 1 in
  let component := Connected 2 1 (drawUnscaled twoPixels 2 1) (0 * 2 + 0) in
  fst (fill st) = Normal tt /\
  exists mask',
    selectionMaskRef st' = Some mask' /\ length mask' = length old /\
    hasSmartSelection st' = someSelected mask' /\
    forall j, 0 <= j < Z.of_nat (length old) ->
      (component j -> getByte mask' j = Some (mergeBit (selectMode st))) /\
      (~ component j -> getByte mask' j = getByte old j).
Proof.
  apply (smart_select_merges_component (N := exactNumber) (SM := exactNumber_standard)
           drawUnscaled plainHatch (sampleEditor 2 1 2 1 (transparent 2 1) twoPixels)
           0%nat (mkCanvas 2 1 true (transparent 2 1)) twoPixels 0%Q 0%Q);
    try reflexivity; vm_compute; split; congruence.
Defined.

Lemma exportMask_is_black_and_binary_witness :
  exists art,
    fst (exportMask (N := exactNumber) (sampleEditor 10 1 13 1 paintedRow onePixel))
      = Normal (Some art) /\
    length (data art) = Z.to_nat (4 * (13 * 1)) /\
    forall i, 0 <= i < 13 * 1 ->
      pixelAt (data art) i = [Some 0; Some 0; Some 0; Some 0] \/
      pixelAt (data art) i = [Some 0; Some 0; Some 0; Some 255].
Proof.
  apply (exportMask_is_black_and_binary (N := exactNumber) (SM := exactNumber_standard)
           (sampleEditor 10 1 13 1 paintedRow onePixel) 0%nat
           (mkCanvas 10 1 true paintedRow) 13 1);
    try reflexivity; simpl; lia.
Defined.

Lemma transparent_unpainted : unpainted (mkCanvas 2 1 true (transparent 2 1)).
Proof.
  intros dx dy (Hx & Hy & Ha). cbn [width height bitmap] in *.
  assert (dy = 0) by lia. subst dy.
  assert (dx = 0 \/ dx = 1) as [-> | ->] by lia; vm_compute in Ha; discriminate.
Qed.

Lemma exportMask_ignores_faint_paint_witness :
  fst (exportMask (N := exactNumber) (sampleEditor 2 1 4 2 (transparent 2 1) onePixel)) =
  Normal (Some (mkImageData 4 2 (opaqueBlack 4 2))).
Proof.
  apply (exportMask_ignores_faint_paint (N := exactNumber) (SM := exactNumber_standard)
           (sampleEditor 2 1 4 2 (transparent 2 1) onePixel) 0%nat
           (mkCanvas 2 1 true (transparent 2 1)) 4 2);
    try reflexivity; try (simpl; lia).
  exact transparent_unpainted.
Defined.

Lemma repeated_export_gives_the_same_mask_witness :
  let st := sampleEditor 10 1 13 1 paintedRow onePixel in
  let st' := run (exportMask (N := exactNumber)) st in
  fst (exportMask (N := exactNumber) st') = fst (exportMask (N := exactNumber) st) /\
  fst (exportMask (N := exactNumber) st') =
    Normal (Some (mkImageData 13 1
                    (maskPixels (N := exactNumber) (mkCanvas 10 1 true paintedRow) 13 1))) /\
  pixelsOf 0 st' = pixelsOf 0 st.
Proof.
  apply (repeated_export_gives_the_same_mask (N := exactNumber) (SM := exactNumber_standard)
           (sampleEditor 10 1 13 1 paintedRow onePixel) 0%nat
           (mkCanvas 10 1 true paintedRow) 13 1);
    try reflexivity; simpl; lia.
Defined.

Lemma empty_canvas_throws_witness :
  (fst (saveSnapshot 30 flatEditor) = Normal tt /\
   redoStack (run (saveSnapshot 30) flatEditor) = [] /\
   fst (event (saveSnapshot 30) flatEditor) = Abrupt (Thrown IndexSizeError)) /\
  (toolMode flatEditor = ToolPaint -> forall x y,
     fst (onPointerDown (N := exactNumber) 30 dotBrush drawUnscaled plainHatch x y flatEditor)
       = Normal tt /\
     redoStack (run (onPointerDown (N := exactNumber) 30 dotBrush drawUnscaled plainHatch x y)
                    flatEditor) = [] /\
     drawing (run (onPointerDown (N := exactNumber) 30 dotBrush drawUnscaled plainHatch x y)
                  flatEditor) = true /\
     fst (event (onPointerDown (N := exactNumber) 30 dotBrush drawUnscaled plainHatch x y)
            flatEditor) = Abrupt (Thrown IndexSizeError)) /\
  (fst (resetCanvas 30 flatEditor) = Normal tt /\
   redoStack (run (resetCanvas 30) flatEditor) = [] /\
   fst (event (resetCanvas 30) flatEditor) = Abrupt (Thrown IndexSizeError)) /\
  (undoStack flatEditor <> [] -> undo flatEditor = (Abrupt (Thrown IndexSizeError), flatEditor)) /\
  (redoStack flatEditor <> [] -> redo flatEditor = (Abrupt (Thrown IndexSizeError), flatEditor)) /\
  fst (exportMask (N := exactNumber) flatEditor) = Abrupt (Thrown IndexSizeError) /\
  (forall p, Panel.canvasRef p = Some 0%nat ->
     Panel.document p !! 0%nat = Some (mkCanvas 3 0 true []) ->
     Panel.saveSnapshot p = (Abrupt (Thrown IndexSizeError), p) /\
     forall x y,
       Panel.onPointerDown (N := exactNumber) dotBrush x y p =
         (Abrupt (Thrown IndexSizeError), p)).
Proof.
  apply (empty_canvas_throws (N := exactNumber) 30 dotBrush drawUnscaled plainHatch
           flatEditor 0%nat (mkCanvas 3 0 true [])); try reflexivity.
  right. reflexivity.
Defined.

Lemma thin_image_canvas_is_empty_witness :
  (Z.min 1000 900 * 1 < 2000 ->
   canvasSize (editPageDisplaySize (N := exactNumber) 2000 1 1000 600) = (Z.min 1000 900, 0)) /\
  (Z.min 1000 2000 * 1 < 2000 ->
   canvasSize (editPanelDisplaySize (N := exactNumber) 2000 1 1000 600) = (Z.min 1000 2000, 0)).
Proof.
  apply (thin_image_canvas_is_empty (N := exactNumber) (SM := exactNumber_standard)); lia.
Defined.

Lemma sizing_aligns_the_canvases_witness :
  let st := sampleEditor 2 1 1024 768 (transparent 2 1) onePixel in
  let size := canvasSize (editPageDisplaySize (N := exactNumber) 1024 768 2 1) in
  let blank := transparent (fst size) (snd size) in
  let st' := run (allocateSurfaces (N := exactNumber)) st in
  fst (allocateSurfaces (N := exactNumber) st) = Normal tt /\
  document st' !! 0%nat = Some (mkCanvas (fst size) (snd size) true blank) /\
  document st' !! 1%nat = Some (mkCanvas (fst size) (snd size) true blank) /\
  selectionMaskRef st' = None /\ hasSmartSelection st' = false /\
  undoStack st' = undoStack st /\ redoStack st' = redoStack st.
Proof.
  apply (sizing_aligns_the_canvases (N := exactNumber)
           (sampleEditor 2 1 1024 768 (transparent 2 1) onePixel) 0%nat 1%nat
           (mkCanvas 2 1 true (transparent 2 1)) (mkCanvas 2 1 true (transparent 2 1)) 2 1);
    try reflexivity.
  discriminate.
Defined.

Lemma thumbnail_keeps_aspect_witness :
  exists cv,
    fst (createThumb (N := exactNumber) drawUnscaled twoPixels 200 emptyEditor) = Normal cv /\
    width cv = 200 /\
    0 <= height cv /\ 200 * 1 - 2 <= height cv * 2 <= 200 * 1 /\
    bitmap cv = drawUnscaled twoPixels (width cv) (height cv) /\
    forall c, c ∈ dom (document emptyEditor) ->
      document (run (createThumb (N := exactNumber) drawUnscaled twoPixels 200) emptyEditor) !! c
      = document emptyEditor !! c.
Proof.
  apply (thumbnail_keeps_aspect (N := exactNumber) (SM := exactNumber_standard)
           drawUnscaled emptyEditor twoPixels 200); simpl; lia.
Defined.

Lemma timeAgo_zero_months_witness : timeAgo 2500000000 (Some 0) = "0mo".
Proof. apply (timeAgo_zero_months 2500000000 0). lia. Defined.

(** ** Runs on a sample panel *)






Lemma undone_stroke_submits_an_opaque_mask_witness :
  let p := Panel.samplePanel 1 1 2 2 (transparent 1 1) onePixel in
  let p' := snd ((Panel.stroke (N := exactNumber) dotBrush tap;; Panel.undo) p) in
  fst ((Panel.stroke (N := exactNumber) dotBrush tap;; Panel.undo) p) = Normal tt /\
  Panel.hasInteracted p' = true /\
  fst (Panel.handleSubmit (N := exactNumber) 7 "a red door" p') =
    Normal (Some (7, mkImageData 2 2 (opaqueBlack 2 2), "a red door")).
Proof.
  apply (PanelFacts.undone_stroke_submits_an_opaque_mask
           (N := exactNumber) (SM := exactNumber_standard) dotBrush dotBrush_length
           1 1 0%nat (transparent 1 1) 2 2
           (Panel.samplePanel 1 1 2 2 (transparent 1 1) onePixel) tap 7 "a red door");
    try reflexivity; try lia; try constructor.
  intros dx dy (Hx & Hy & Ha). cbn [width height bitmap] in *.
  assert (dy = 0) by lia. assert (dx = 0) by lia. subst dx dy.
  vm_compute in Ha. discriminate.
Defined.

Lemma canvas_is_capped_witness :
  fst (canvasSize (editPageDisplaySize (N := exactNumber) 1024 768 1280 600)) <= 900 /\
  fst (canvasSize (editPanelDisplaySize (N := exactNumber) 1024 768 1280 600)) <= 1024 /\
  snd (canvasSize (editPanelDisplaySize (N := exactNumber) 1024 768 1280 600)) <= 768.
Proof.
  apply (PanelFacts.canvas_is_capped (N := exactNumber) (SM := exactNumber_standard)
           1024 768 1280 600); lia.
Defined.

Lemma freshly_sized_panel_exports_opaque_mask_witness :
  let p := Panel.samplePanel 1 1 2 2 [255; 50; 50; 128] onePixel in
  let size := canvasSize (editPanelDisplaySize (N := exactNumber) 2 2 1 1) in
  let p' := snd (Panel.allocateSurface (N := exactNumber) p) in
  fst (Panel.allocateSurface (N := exactNumber) p) = Normal tt /\
  Panel.document p' !! 0%nat =
    Some (mkCanvas (fst size) (snd size) true (transparent (fst size) (snd size))) /\
  fst (Panel.exportMask (N := exactNumber) p') =
    Normal (Some (mkImageData 2 2 (opaqueBlack 2 2))).
Proof.
  apply (PanelFacts.freshly_sized_panel_exports_opaque_mask
           (N := exactNumber) (SM := exactNumber_standard)
           (Panel.samplePanel 1 1 2 2 [255; 50; 50; 128] onePixel) 0%nat
           (mkCanvas 1 1 true [255; 50; 50; 128]) 1 1 2 2);
    try reflexivity; lia.
Defined.

Lemma toggle_picker_image_flips_one_image_witness :
  NoDup (Moodboards.togglePickerImage 2 [1; 2; 3]) /\
  Moodboards.has (Moodboards.togglePickerImage 2 [1; 2; 3]) 2
    = negb (Moodboards.has [1; 2; 3] 2) /\
  (forall x, x <> 2 ->
     Moodboards.has (Moodboards.togglePickerImage 2 [1; 2; 3]) x = Moodboards.has [1; 2; 3] x) /\
  Moodboards.togglePickerImage 2 (Moodboards.togglePickerImage 2 [1; 2; 3]) ≡ₚ [1; 2; 3] /\
  (Moodboards.has [1; 2; 3] 2 = false ->
   Moodboards.togglePickerImage 2 (Moodboards.togglePickerImage 2 [1; 2; 3]) = [1; 2; 3]).
Proof.
  apply (MoodboardFacts.toggle_picker_image_flips_one_image 2 [1; 2; 3]).
  repeat constructor; rewrite ?elem_of_cons, ?elem_of_nil; lia.
Defined.
